(** * DomMover: a shallow embedding of [src/dom-mover.js]

    The development has three layers.

    - [Platform]: the part of the browser the library talks to.  A document
      is a store of nodes addressed by identity (JavaScript object
      references), with parent pointers and ordered child lists, and the
      page keeps a record of the calls that changed the tree; selectors are
      strings handed to a selector engine, which the statements about the
      library are generic in.
    - The library itself: the [DomMover] class, method by method, as state
      passing functions over a [World] (the page, the instance fields and
      the observable effects), with JavaScript exceptions as a result.  A
      handler that throws leaves the world as it was when it threw.  User
      callbacks are observers: they are called, recorded and answered, and
      do not touch the page.  The jQuery plugin at the end of the file,
      which builds one instance per element, is not part of the model.
    - The properties of the drag-reorder state machine: the placement of
      the placeholder by [insertBefore], the invariant that the page stays
      a well-formed forest, and the behaviour of each handler. *)

From Stdlib Require Import String Ascii ZArith Bool Lia DecimalString.
From stdpp Require Import list.

Local Open Scope string_scope.
Local Open Scope list_scope.

(** ** Strings as JavaScript uses them *)

Definition ascii_upper (c : ascii) : ascii :=
  let n := nat_of_ascii c in
  if (97 <=? n)%nat && (n <=? 122)%nat then ascii_of_nat (n - 32) else c.

(** [String.prototype.toUpperCase], on the ASCII range. *)
Fixpoint toUpperCase (s : string) : string :=
  match s with
  | EmptyString => EmptyString
  | String c r => String (ascii_upper c) (toUpperCase r)
  end.

(** [s.split(' ')]: always at least one piece. *)
Fixpoint split_space (s : string) : list string :=
  match s with
  | EmptyString => [EmptyString]
  | String c r =>
      if Ascii.eqb c " "%char then EmptyString :: split_space r
      else match split_space r with
           | [] => [String c EmptyString]
           | w :: ws => String c w :: ws
           end
  end.

(** [Array.prototype.join(',')] on strings. *)
Fixpoint join_comma (l : list string) : string :=
  match l with
  | [] => ""
  | [x] => x
  | x :: r => (x ++ "," ++ join_comma r)%string
  end.

Definition nat_to_string (n : nat) : string := NilZero.string_of_uint (Nat.to_uint n).
Definition Z_to_string (z : Z) : string := NilZero.string_of_int (Z.to_int z).

(** ASCII whitespace, as the DOM token-list methods understand it. *)
Definition is_ascii_whitespace (c : ascii) : bool :=
  let n := nat_of_ascii c in
  (n =? 9)%nat || (n =? 10)%nat || (n =? 12)%nat || (n =? 13)%nat || (n =? 32)%nat.

Fixpoint has_whitespace (s : string) : bool :=
  match s with
  | EmptyString => false
  | String c r => is_ascii_whitespace c || has_whitespace r
  end.

(** The characters of names: letters, digits, hyphen and underscore. *)
Definition is_letter (c : ascii) : bool :=
  let n := nat_of_ascii c in
  ((97 <=? n)%nat && (n <=? 122)%nat) || ((65 <=? n)%nat && (n <=? 90)%nat).

Definition is_digit (c : ascii) : bool :=
  let n := nat_of_ascii c in (48 <=? n)%nat && (n <=? 57)%nat.

Definition is_name_char (c : ascii) : bool :=
  is_letter c || is_digit c
  || (nat_of_ascii c =? 45)%nat || (nat_of_ascii c =? 95)%nat.

Fixpoint all_name_chars (s : string) : bool :=
  match s with
  | EmptyString => true
  | String c r => is_name_char c && all_name_chars r
  end.

(** An identifier: name characters, the first one not a digit. *)
Definition is_identifier (s : string) : bool :=
  match s with
  | EmptyString => false
  | String c _ => negb (is_digit c) && all_name_chars s
  end.

(** [s] between double quotes. *)
Definition quoted (s : string) : string :=
  String (ascii_of_nat 34) (s ++ String (ascii_of_nat 34) EmptyString)%string.

Definition mem_string (x : string) (l : list string) : bool :=
  existsb (String.eqb x) l.

(** Strict equality of two values that may be [null]. *)
Definition option_eqb {A : Type} (eqb : A -> A -> bool) (a b : option A) : bool :=
  match a, b with
  | Some x, Some y => eqb x y
  | None, None => true
  | _, _ => false
  end.

(** ** JavaScript exceptions *)

Inductive JsError :=
| TypeError
| SyntaxError
| InvalidCharacterError
| HierarchyRequestError
| NotFoundError.

Inductive Result (A : Type) :=
| Ok (a : A)
| Throw (e : JsError).
Arguments Ok {A} a.
Arguments Throw {A} e.

(** ** The document *)

Module Platform.

Definition NodeId := nat.

Inductive NodeKind := DocumentNode | ElementNode | TextNode.

(** The interface an element object is an instance of; it is what
    [Object.prototype.toString] prints: [HTML<stem>Element],
    [SVG<stem>Element], [MathMLElement] or plain [Element].  Two
    interfaces replace that method by a stringifier: [HTMLAnchorElement]
    and [HTMLAreaElement] print as their [href]. *)
Inductive Interface :=
| HTMLInterface (stem : string)
| SVGInterface (stem : string)
| MathMLInterface
| PlainInterface.

Definition interfaceName (i : Interface) : string :=
  match i with
  | HTMLInterface stem => ("HTML" ++ stem ++ "Element")%string
  | SVGInterface stem => ("SVG" ++ stem ++ "Element")%string
  | MathMLInterface => "MathMLElement"
  | PlainInterface => "Element"
  end.

Record Node := mkNode {
  nodeKind : NodeKind;
  tagName : string;                     (* upper case, as [Element.tagName] *)
  interface : Interface;
  href : string;                        (* what [el.href] reads on [a] and [area]:
                                           the URL the attribute resolves to,
                                           empty without the attribute *)
  idAttr : string;
  classList : list string;
  dataset : list (string * string);
  attributes : list (string * string);
  style : list (string * string);
  textData : string;
  offsetWidth : Z;
  offsetHeight : Z;
  parentNode : option NodeId;
  childNodes : list NodeId
}.

(** A change of the tree: a call of [insertBefore] (or [appendChild], with
    no reference child) or of [removeChild] that went through, with the
    parent it was made on and the arguments it was given. *)
Inductive Mutation :=
| Inserted (par node : NodeId) (child : option NodeId)
| Removed (par child : NodeId).

(** A page: the node store (a node's identity is its index), the document
    node, [document.body], and the changes of the tree made so far,
    oldest first (what a [MutationObserver] of child lists would have been
    told). *)
Record Dom := mkDom {
  nodes : list Node;
  document : NodeId;
  body : option NodeId;
  mutations : list Mutation
}.

Definition node_at (d : Dom) (n : NodeId) : option Node := nodes d !! n.

Definition update_node (f : Node -> Node) (n : NodeId) (d : Dom) : Dom :=
  mkDom (alter f n (nodes d)) (document d) (body d) (mutations d).

Definition with_classList (l : list string) (x : Node) : Node :=
  mkNode (nodeKind x) (tagName x) (interface x) (href x) (idAttr x) l
         (dataset x)
         (attributes x) (style x) (textData x) (offsetWidth x) (offsetHeight x)
         (parentNode x) (childNodes x).

Definition with_attributes (l : list (string * string)) (x : Node) : Node :=
  mkNode (nodeKind x) (tagName x) (interface x) (href x) (idAttr x) (classList x)
         (dataset x)
         l (style x) (textData x) (offsetWidth x) (offsetHeight x)
         (parentNode x) (childNodes x).

Definition with_style (l : list (string * string)) (x : Node) : Node :=
  mkNode (nodeKind x) (tagName x) (interface x) (href x) (idAttr x) (classList x)
         (dataset x)
         (attributes x) l (textData x) (offsetWidth x) (offsetHeight x)
         (parentNode x) (childNodes x).

Definition with_parentNode (p : option NodeId) (x : Node) : Node :=
  mkNode (nodeKind x) (tagName x) (interface x) (href x) (idAttr x) (classList x)
         (dataset x)
         (attributes x) (style x) (textData x) (offsetWidth x) (offsetHeight x)
         p (childNodes x).

Definition with_childNodes (l : list NodeId) (x : Node) : Node :=
  mkNode (nodeKind x) (tagName x) (interface x) (href x) (idAttr x) (classList x)
         (dataset x)
         (attributes x) (style x) (textData x) (offsetWidth x) (offsetHeight x)
         (parentNode x) l.

(** *** Reading the tree *)

Definition kind_of (d : Dom) (n : NodeId) : option NodeKind :=
  nodeKind <$> node_at d n.

Definition is_element (d : Dom) (n : NodeId) : bool :=
  match node_at d n with
  | Some x => match nodeKind x with ElementNode => true | _ => false end
  | None => false
  end.

Definition parent_of (d : Dom) (n : NodeId) : option NodeId :=
  match node_at d n with
  | Some x => parentNode x
  | None => None
  end.

Definition children_of (d : Dom) (n : NodeId) : list NodeId :=
  match node_at d n with
  | Some x => childNodes x
  | None => []
  end.

Definition classes_of (d : Dom) (n : NodeId) : list string :=
  match node_at d n with
  | Some x => classList x
  | None => []
  end.

(** [n.classList.contains(c)] for an element [n]. *)
Definition has_class (d : Dom) (n : NodeId) (c : string) : bool :=
  mem_string c (classes_of d n).

(** The chain of proper ancestors of [n], nearest first.  The walk is
    bounded by the number of nodes in the store, which a parent chain of a
    tree never exceeds (see [acyclic]). *)
Fixpoint ancestors_upto (fuel : nat) (d : Dom) (n : NodeId) : list NodeId :=
  match fuel with
  | 0 => []
  | S f =>
      match parent_of d n with
      | Some p => p :: ancestors_upto f d p
      | None => []
      end
  end.

Definition ancestors (d : Dom) (n : NodeId) : list NodeId :=
  ancestors_upto (length (nodes d)) d n.

Definition mem_node (n : NodeId) (l : list NodeId) : bool := existsb (Nat.eqb n) l.

(** [a.contains(b)]: [b] is [a] or a descendant of [a]. *)
Definition contains (d : Dom) (a b : NodeId) : bool :=
  Nat.eqb a b || mem_node a (ancestors d b).

(** Siblings of [n] that follow it, and that precede it (nearest first),
    in a child list. *)
Fixpoint after (n : NodeId) (l : list NodeId) : list NodeId :=
  match l with
  | [] => []
  | a :: t => if Nat.eqb a n then t else after n t
  end.

Fixpoint before_rev (acc : list NodeId) (n : NodeId) (l : list NodeId) : list NodeId :=
  match l with
  | [] => []
  | a :: t => if Nat.eqb a n then acc else before_rev (a :: acc) n t
  end.

Definition following_siblings (d : Dom) (n : NodeId) : list NodeId :=
  match parent_of d n with
  | Some p => after n (children_of d p)
  | None => []
  end.

Definition preceding_siblings (d : Dom) (n : NodeId) : list NodeId :=
  match parent_of d n with
  | Some p => before_rev [] n (children_of d p)
  | None => []
  end.

Definition nextSibling (d : Dom) (n : NodeId) : option NodeId :=
  head (following_siblings d n).

Definition nextElementSibling (d : Dom) (n : NodeId) : option NodeId :=
  find (is_element d) (following_siblings d n).

Definition previousElementSibling (d : Dom) (n : NodeId) : option NodeId :=
  find (is_element d) (preceding_siblings d n).

(** [n.children.length] *)
Definition element_child_count (d : Dom) (n : NodeId) : nat :=
  length (filter (fun c => is_element d c = true) (children_of d n)).

(** Descendants of [n] in tree order (preorder, depth first). *)
Fixpoint descendants_upto (fuel : nat) (d : Dom) (n : NodeId) : list NodeId :=
  match fuel with
  | 0 => []
  | S f => flat_map (fun c => c :: descendants_upto f d c) (children_of d n)
  end.

Definition document_order (d : Dom) : list NodeId :=
  descendants_upto (length (nodes d)) d (document d).

(** *** Well-formed documents

    The store is a forest.  Child lists and parent pointers agree and no
    child is listed twice ([wf_dom]); every parent chain ends within the
    bound of [ancestors] ([acyclic]), as it does in any store without a
    cycle, since a chain without repetition is no longer than the store. *)
Definition child_links_ok (d : Dom) (p : NodeId) : bool :=
  forallb (fun c => match parent_of d c with
                    | Some q => Nat.eqb q p
                    | None => false
                    end) (children_of d p).

Definition parent_link_ok (d : Dom) (n : NodeId) : bool :=
  match parent_of d n with
  | Some p => mem_node n (children_of d p)
  | None => true
  end.

Fixpoint nodup_nodes (l : list NodeId) : bool :=
  match l with
  | [] => true
  | a :: t => negb (mem_node a t) && nodup_nodes t
  end.

Definition wf_node (d : Dom) (n : NodeId) : bool :=
  child_links_ok d n && parent_link_ok d n && nodup_nodes (children_of d n).

Definition wf_dom (d : Dom) : bool :=
  forallb (wf_node d) (seq 0 (length (nodes d))).

Definition chain_ends (d : Dom) (n : NodeId) : bool :=
  match last (n :: ancestors d n) with
  | Some top => match parent_of d top with None => true | Some _ => false end
  | None => false
  end.

Definition acyclic (d : Dom) : bool :=
  forallb (chain_ends d) (seq 0 (length (nodes d))).

(** *** Changing the tree *)

Fixpoint remove_node (n : NodeId) (l : list NodeId) : list NodeId :=
  match l with
  | [] => []
  | a :: t => if Nat.eqb a n then remove_node n t else a :: remove_node n t
  end.

Fixpoint insert_before (x r : NodeId) (l : list NodeId) : list NodeId :=
  match l with
  | [] => [x]
  | a :: t => if Nat.eqb a r then x :: a :: t else a :: insert_before x r t
  end.

Definition place (x : NodeId) (ref : option NodeId) (l : list NodeId) : list NodeId :=
  match ref with
  | Some r => insert_before x r l
  | None => l ++ [x]
  end.

Definition set_children (p : NodeId) (l : list NodeId) (d : Dom) : Dom :=
  update_node (with_childNodes l) p d.

Definition set_parent (n : NodeId) (p : option NodeId) (d : Dom) : Dom :=
  update_node (with_parentNode p) n d.

(** Take [n] out of its parent's child list. *)
Definition detach (d : Dom) (n : NodeId) : Dom :=
  match parent_of d n with
  | Some q => set_parent n None (set_children q (remove_node n (children_of d q)) d)
  | None => d
  end.

Definition attach (d : Dom) (par n : NodeId) (ref : option NodeId) : Dom :=
  set_parent n (Some par) (set_children par (place n ref (children_of d par)) d).

Definition option_node_eqb (a b : option NodeId) : bool :=
  match a, b with
  | Some x, Some y => Nat.eqb x y
  | None, None => true
  | _, _ => false
  end.

(** The page with one more change of the tree on record. *)
Definition recorded (m : Mutation) (d : Dom) : Dom :=
  mkDom (nodes d) (document d) (body d) (mutations d ++ [m]).

(** [par.insertBefore(node, child)], with the validity checks of the DOM
    standard that apply to documents, elements and text nodes.  [node] is
    what the caller passes: [None] is JavaScript's [null].  A call that
    goes through takes the node out and puts it in, also when it ends up
    where it was. *)
Definition insertBefore (d : Dom) (par : NodeId) (node child : option NodeId) : Result Dom :=
  match node with
  | None => Throw TypeError
  | Some n =>
      match kind_of d par with
      | None | Some TextNode => Throw HierarchyRequestError
      | Some pk =>
          if contains d n par then Throw HierarchyRequestError
          else if match child with
                  | Some c => negb (option_node_eqb (parent_of d c) (Some par))
                  | None => false
                  end then Throw NotFoundError
          else match kind_of d n, pk with
               | None, _ | Some DocumentNode, _ => Throw HierarchyRequestError
               | Some TextNode, DocumentNode => Throw HierarchyRequestError
               | Some ElementNode, DocumentNode =>
                   if existsb (is_element d) (children_of d par)
                   then Throw HierarchyRequestError
                   else
                     let ref := if option_node_eqb child (Some n) then nextSibling d n else child in
                     Ok (recorded (Inserted par n child) (attach (detach d n) par n ref))
               | Some _, _ =>
                   let ref := if option_node_eqb child (Some n) then nextSibling d n else child in
                   Ok (recorded (Inserted par n child) (attach (detach d n) par n ref))
               end
      end
  end.

Definition appendChild (d : Dom) (par : NodeId) (node : option NodeId) : Result Dom :=
  insertBefore d par node None.

(** [par.removeChild(child)] *)
Definition removeChild (d : Dom) (par : NodeId) (child : option NodeId) : Result Dom :=
  match child with
  | None => Throw TypeError
  | Some c =>
      if option_node_eqb (parent_of d c) (Some par)
      then Ok (recorded (Removed par c) (detach d c))
      else Throw NotFoundError
  end.

Definition fresh_id (d : Dom) : NodeId := length (nodes d).

Definition add_node (x : Node) (d : Dom) : Dom :=
  mkDom (nodes d ++ [x]) (document d) (body d) (mutations d).

(** The interface of the element [document.createElement] builds for a tag
    (the tags the library and the examples create; anything else is a
    plain [HTMLElement]). *)
Definition interface_of_tag (tag : string) : Interface :=
  if String.eqb tag "TR" then HTMLInterface "TableRow"
  else if String.eqb tag "TD" then HTMLInterface "TableCell"
  else if String.eqb tag "LI" then HTMLInterface "LI"
  else if String.eqb tag "UL" then HTMLInterface "UList"
  else if String.eqb tag "DIV" then HTMLInterface "Div"
  else if String.eqb tag "A" then HTMLInterface "Anchor"
  else if String.eqb tag "AREA" then HTMLInterface "Area"
  else HTMLInterface "".

(** [document.createElement(tag)]: a parentless element; its [tagName]
    reads in upper case. *)
Definition createElement (d : Dom) (tag : string) : Dom * NodeId :=
  let t := toUpperCase tag in
  (add_node (mkNode ElementNode t (interface_of_tag t) "" "" [] [] [] [] "" 0 0 None []) d,
   fresh_id d).

Definition createTextNode (d : Dom) (data : string) : Dom * NodeId :=
  (add_node (mkNode TextNode "" PlainInterface "" "" [] [] [] [] data 0 0 None []) d,
   fresh_id d).

(** [n.cloneNode(true)]: a parentless copy of the subtree at [n]. *)
Fixpoint cloneNode_upto (fuel : nat) (d : Dom) (n : NodeId) : Dom * option NodeId :=
  match fuel with
  | 0 => (d, None)
  | S f =>
      match node_at d n with
      | None => (d, None)
      | Some x =>
          let id := fresh_id d in
          let d0 := add_node (with_parentNode None (with_childNodes [] x)) d in
          (fold_left (fun acc c =>
                        match cloneNode_upto f acc c with
                        | (d1, Some c') => attach d1 id c' None
                        | (d1, None) => d1
                        end) (childNodes x) d0,
           Some id)
      end
  end.

Definition cloneNode (d : Dom) (n : NodeId) : Dom * option NodeId :=
  cloneNode_upto (S (length (nodes d))) d n.

(** *** Token lists and attributes *)

Definition check_token (c : string) : Result unit :=
  if String.eqb c "" then Throw SyntaxError
  else if has_whitespace c then Throw InvalidCharacterError
  else Ok tt.

(** [n.classList.add(c)]; a node that is not an element has no [classList]. *)
Definition classList_add (d : Dom) (n : NodeId) (c : string) : Result Dom :=
  if is_element d n then
    match check_token c with
    | Throw e => Throw e
    | Ok _ =>
        if has_class d n c then Ok d
        else Ok (update_node (fun x => with_classList (classList x ++ [c]) x) n d)
    end
  else Throw TypeError.

Definition remove_string (c : string) (l : list string) : list string :=
  List.filter (fun x => negb (String.eqb x c)) l.

(** [n.classList.remove(c)] *)
Definition classList_remove (d : Dom) (n : NodeId) (c : string) : Result Dom :=
  if is_element d n then
    match check_token c with
    | Throw e => Throw e
    | Ok _ => Ok (update_node (fun x => with_classList (remove_string c (classList x)) x) n d)
    end
  else Throw TypeError.

Fixpoint assoc_set {V : Type} (k : string) (v : V) (l : list (string * V)) : list (string * V) :=
  match l with
  | [] => [(k, v)]
  | (k', v') :: t => if String.eqb k' k then (k, v) :: t else (k', v') :: assoc_set k v t
  end.

Fixpoint assoc_get {V : Type} (k : string) (l : list (string * V)) : option V :=
  match l with
  | [] => None
  | (k', v) :: t => if String.eqb k' k then Some v else assoc_get k t
  end.

(** [n.setAttribute(k, v)] *)
Definition setAttribute (d : Dom) (n : NodeId) (k v : string) : Result Dom :=
  if is_element d n
  then Ok (update_node (fun x => with_attributes (assoc_set k v (attributes x)) x) n d)
  else Throw TypeError.

(** [n.style[k] = v] *)
Definition setStyle (d : Dom) (n : NodeId) (k v : string) : Result Dom :=
  if is_element d n
  then Ok (update_node (fun x => with_style (assoc_set k v (style x)) x) n d)
  else Throw TypeError.

(** *** Selectors

    The library hands selector strings to the browser.  What a string
    means is the selector engine's business: it either fails to parse
    (the caller sees a [SyntaxError]) or denotes a predicate on the
    elements of a document. *)

Class SelectorEngine := {
  Selector : Type;
  parseSelector : string -> option Selector;
  selectorMatches : Selector -> Dom -> NodeId -> bool
}.

Section Queries.
Context `{SelectorEngine}.

(** [n.matches(sel)]; only elements have the method. *)
Definition matches (d : Dom) (n : NodeId) (sel : string) : Result bool :=
  if is_element d n then
    match parseSelector sel with
    | Some s => Ok (selectorMatches s d n)
    | None => Throw SyntaxError
    end
  else Throw TypeError.

(** [n.closest(sel)]: the nearest inclusive ancestor element matching. *)
Definition closest (d : Dom) (n : NodeId) (sel : string) : Result (option NodeId) :=
  if is_element d n then
    match parseSelector sel with
    | Some s => Ok (find (fun a => is_element d a && selectorMatches s d a) (n :: ancestors d n))
    | None => Throw SyntaxError
    end
  else Throw TypeError.

(** [document.querySelectorAll(sel)], in tree order. *)
Definition querySelectorAll (d : Dom) (sel : string) : Result (list NodeId) :=
  match parseSelector sel with
  | Some s => Ok (List.filter (fun a => is_element d a && selectorMatches s d a) (document_order d))
  | None => Throw SyntaxError
  end.

(** [document.querySelector(sel)]: the first match, or [null]. *)
Definition querySelector (d : Dom) (sel : string) : Result (option NodeId) :=
  match querySelectorAll d sel with
  | Ok l => Ok (head l)
  | Throw e => Throw e
  end.

End Queries.

End Platform.

Import Platform.

(** ** A selector engine for the examples

    The statements about the library below are made for any selector
    engine.  To run the library on concrete pages, this module provides
    one: selector lists of compound selectors (type or [*], [.class],
    [#id], [[attr]], [[attr=value]]) joined by the descendant and child
    combinators.  Strings outside this grammar do not parse. *)
Module BasicSelectors.

Inductive Token :=
| TIdent (s : string)
| TDot | THash | TStar | TLBracket | TRBracket | TEq | TGt | TComma | TSpace
| TOther (c : ascii).

Definition symbol (c : ascii) : Token :=
  if Ascii.eqb c "."%char then TDot
  else if Ascii.eqb c "#"%char then THash
  else if Ascii.eqb c "*"%char then TStar
  else if Ascii.eqb c "["%char then TLBracket
  else if Ascii.eqb c "]"%char then TRBracket
  else if Ascii.eqb c "="%char then TEq
  else if Ascii.eqb c ">"%char then TGt
  else if Ascii.eqb c ","%char then TComma
  else TOther c.

(** The tokens of [s], in front of the tokens [rest] of what follows it. *)
Fixpoint tokenize_onto (s : string) (rest : list Token) : list Token :=
  match s with
  | EmptyString => rest
  | String c r =>
      let ts := tokenize_onto r rest in
      if is_name_char c then
        match ts with
        | TIdent w :: ts' => TIdent (String c w) :: ts'
        | _ => TIdent (String c EmptyString) :: ts
        end
      else if is_ascii_whitespace c then
        match ts with
        | TSpace :: _ => ts
        | _ => TSpace :: ts
        end
      else symbol c :: ts
  end.

Definition tokenize (s : string) : list Token := tokenize_onto s [].

(** White space inside the brackets of an attribute selector separates
    tokens and is otherwise ignored. *)
Fixpoint strip_bracket_space (inside : bool) (ts : list Token) : list Token :=
  match ts with
  | [] => []
  | TLBracket :: r => TLBracket :: strip_bracket_space true r
  | TRBracket :: r => TRBracket :: strip_bracket_space false r
  | TSpace :: r => if inside then strip_bracket_space inside r
                   else TSpace :: strip_bracket_space inside r
  | t :: r => t :: strip_bracket_space inside r
  end.

Inductive Simple :=
| SType (t : string)
| SAny
| SClass (c : string)
| SId (i : string)
| SAttr (k : string) (v : option string).

Inductive Combinator := Descendant | Child.

(** A complex selector: the compound its subject must match and, nearest
    first, the compounds required of its ancestors. *)
Record Complex := mkComplex {
  subject : list Simple;
  context : list (Combinator * list Simple)
}.

Inductive Sep := NoSep | SpaceSep | ChildSep.

(** An identifier does not start with a digit. *)
Definition valid_ident (s : string) : bool :=
  match s with
  | EmptyString => false
  | String c _ => negb (is_digit c)
  end.

Definition finish (chain : list (list Simple * Combinator)) (cur : list Simple) : Complex :=
  mkComplex cur (map (fun p => (snd p, fst p)) (rev chain)).

Section Parser.
Variable parse_rest :
  list Complex -> list (list Simple * Combinator) -> list Simple -> Sep -> option (list Complex).

(** Add one simple selector to the compound being read; a type selector
    may only open a compound. *)
Definition push (opening : bool) (x : Simple) (done : list Complex)
    (chain : list (list Simple * Combinator)) (cur : list Simple) (sep : Sep)
    : option (list Complex) :=
  match sep, cur with
  | NoSep, [] => parse_rest done chain [x] NoSep
  | NoSep, _ :: _ => if opening then None else parse_rest done chain (cur ++ [x]) NoSep
  | SpaceSep, [] => parse_rest done chain [x] NoSep
  | SpaceSep, _ :: _ => parse_rest done (chain ++ [(cur, Descendant)]) [x] NoSep
  | ChildSep, _ => parse_rest done (chain ++ [(cur, Child)]) [x] NoSep
  end.
End Parser.

Fixpoint parse_tokens (ts : list Token) (done : list Complex)
    (chain : list (list Simple * Combinator)) (cur : list Simple) (sep : Sep)
    : option (list Complex) :=
  match ts with
  | [] =>
      match cur, sep with
      | [], _ | _, ChildSep => None
      | _, _ => Some (done ++ [finish chain cur])
      end
  | TSpace :: r =>
      parse_tokens r done chain cur (match sep with NoSep => SpaceSep | s => s end)
  | TGt :: r =>
      match cur, sep with
      | [], _ | _, ChildSep => None
      | _, _ => parse_tokens r done chain cur ChildSep
      end
  | TComma :: r =>
      match cur, sep with
      | [], _ | _, ChildSep => None
      | _, _ => parse_tokens r (done ++ [finish chain cur]) [] [] NoSep
      end
  | TIdent t :: r =>
      if valid_ident t then push (parse_tokens r) true (SType t) done chain cur sep else None
  | TStar :: r => push (parse_tokens r) true SAny done chain cur sep
  | TDot :: TIdent c :: r =>
      if valid_ident c then push (parse_tokens r) false (SClass c) done chain cur sep else None
  | THash :: TIdent i :: r =>
      if valid_ident i then push (parse_tokens r) false (SId i) done chain cur sep else None
  | TLBracket :: TIdent k :: TRBracket :: r =>
      if valid_ident k then push (parse_tokens r) false (SAttr k None) done chain cur sep else None
  | TLBracket :: TIdent k :: TEq :: TIdent v :: TRBracket :: r =>
      if valid_ident k && valid_ident v
      then push (parse_tokens r) false (SAttr k (Some v)) done chain cur sep else None
  | _ => None
  end.

Definition parse (s : string) : option (list Complex) :=
  parse_tokens (strip_bracket_space false (tokenize s)) [] [] [] NoSep.

Definition attribute_of (d : Dom) (n : NodeId) (k : string) : option string :=
  match node_at d n with
  | Some x =>
      if String.eqb k "id" && negb (String.eqb (idAttr x) "") then Some (idAttr x)
      else assoc_get k (attributes x)
  | None => None
  end.

Definition simple_matches (d : Dom) (n : NodeId) (s : Simple) : bool :=
  match s with
  | SType t => match node_at d n with
               | Some x => String.eqb (toUpperCase t) (tagName x)
               | None => false
               end
  | SAny => true
  | SClass c => has_class d n c
  | SId i => match node_at d n with
             | Some x => String.eqb (idAttr x) i
             | None => false
             end
  | SAttr k None => match attribute_of d n k with Some _ => true | None => false end
  | SAttr k (Some v) => match attribute_of d n k with
                        | Some w => String.eqb w v
                        | None => false
                        end
  end.

Definition compound_matches (d : Dom) (n : NodeId) (c : list Simple) : bool :=
  is_element d n && forallb (simple_matches d n) c.

Fixpoint context_matches (d : Dom) (ctx : list (Combinator * list Simple)) (n : NodeId) : bool :=
  match ctx with
  | [] => true
  | (Child, c) :: r =>
      match parent_of d n with
      | Some p => compound_matches d p c && context_matches d r p
      | None => false
      end
  | (Descendant, c) :: r =>
      existsb (fun a => compound_matches d a c && context_matches d r a) (ancestors d n)
  end.

Definition complex_matches (d : Dom) (n : NodeId) (c : Complex) : bool :=
  compound_matches d n (subject c) && context_matches d (context c) n.

#[export] Instance engine : SelectorEngine := {|
  Selector := list Complex;
  parseSelector := parse;
  selectorMatches := fun s d n => existsb (complex_matches d n) s
|}.

End BasicSelectors.

(** ** The library's data *)

Inductive Direction := Up | Down.          (* 'up' and 'down' *)
Inductive Position := Top | Bottom.        (* 'top' and 'bottom' *)

Definition direction_eqb (a b : Direction) : bool :=
  match a, b with
  | Up, Up | Down, Down => true
  | _, _ => false
  end.

(** A drag event, as far as the handlers read it. *)
Record Event := mkEvent {
  target : NodeId;
  clientY : Z
}.

(** What [item.dataset[attr]] evaluates to: the string of a data
    attribute, [undefined], or the property the dataset object inherits
    under that name (a function, or the prototype object). *)
Inductive DataValue :=
| DataString (s : string)
| DataUndefined
| DataInherited (name : string).

(** The object [getItemData] builds, by its own properties: a value per
    name, the names in the order they were first set. *)
Definition DataRecord := list (string * DataValue).

(** JavaScript values that cross the callback boundary. *)
Inductive Value :=
| VUndefined
| VNull
| VBool (b : bool)
| VNum (z : Z)
| VStr (s : string)
| VNode (n : NodeId)
| VData (r : DataRecord)
| VEvent (e : Event).

(** A user callback.  Callbacks are observers here: they see their
    arguments and return a value; they neither touch the page nor throw. *)
Definition Callback := list Value -> Value.

Inductive CallbackName := CbPickup | CbDrag | CbBeforeDrop | CbDrop.

(** [options.pickup], [options.drop], [options.callbacks]: a field the
    caller left out reads [undefined] ([None]); [null] is [None] too. *)
Record Pickup := mkPickup {
  pickup_parent : option string;
  pickup_disabledClass : option string;
  pickup_addClass : option string;
  pickup_removeClass : option string
}.

Record Drop := mkDrop {
  drop_parent : option string;
  drop_addClass : option string;
  drop_removeClass : option string
}.

Record Callbacks := mkCallbacks {
  cb_pickup : option Callback;
  cb_drag : option Callback;
  cb_drop : option Callback;
  cb_beforeDrop : option Callback
}.

Record Options := mkOptions {
  pickup : Pickup;
  drop : Drop;
  callbacks : Callbacks;
  dataAttributes : list string;
  dropIndicatorClass : string;
  dropIndicator : bool;
  dragImageClass : string;
  placeholderClass : string;
  debug : bool;
  allowDuplicateCallbacks : bool
}.

(** [DomMover.defaults] *)
Definition defaults : Options := {|
  pickup := mkPickup None (Some "sortable-disabled") (Some "sortable-dragging") (Some "");
  drop := mkDrop None (Some "") (Some "");
  callbacks := mkCallbacks None None None None;
  dataAttributes := ["id"; "sort"];
  dropIndicatorClass := "sortable-drop-indicator";
  dropIndicator := true;
  dragImageClass := "sortable-drag-image";
  placeholderClass := "sortable-placeholder";
  debug := false;
  allowDuplicateCallbacks := false
|}.

(** The options object a caller passes: any of the top-level keys. *)
Record UserOptions := mkUserOptions {
  u_pickup : option Pickup;
  u_drop : option Drop;
  u_callbacks : option Callbacks;
  u_dataAttributes : option (list string);
  u_dropIndicatorClass : option string;
  u_dropIndicator : option bool;
  u_dragImageClass : option string;
  u_placeholderClass : option string;
  u_debug : option bool;
  u_allowDuplicateCallbacks : option bool
}.

Definition no_options : UserOptions :=
  mkUserOptions None None None None None None None None None None.

(** [Object.assign({}, DomMover.defaults, options)]: a key the caller gives
    replaces the default whole (the merge is shallow). *)
Definition assign_options (u : UserOptions) : Options := {|
  pickup := default (pickup defaults) (u_pickup u);
  drop := default (drop defaults) (u_drop u);
  callbacks := default (callbacks defaults) (u_callbacks u);
  dataAttributes := default (dataAttributes defaults) (u_dataAttributes u);
  dropIndicatorClass := default (dropIndicatorClass defaults) (u_dropIndicatorClass u);
  dropIndicator := default (dropIndicator defaults) (u_dropIndicator u);
  dragImageClass := default (dragImageClass defaults) (u_dragImageClass u);
  placeholderClass := default (placeholderClass defaults) (u_placeholderClass u);
  debug := default (debug defaults) (u_debug u);
  allowDuplicateCallbacks := default (allowDuplicateCallbacks defaults) (u_allowDuplicateCallbacks u)
|}.

(** The constructor's first argument. *)
Inductive CtorArg :=
| ArgString (s : string)
| ArgElement (n : NodeId)
| ArgNodeList (l : list NodeId)
| ArgArray (l : list NodeId)
| ArgOther.

(** The fields of a [DomMover] object. *)
Record Instance := mkInstance {
  elements : list NodeId;
  elementOrSelector : CtorArg;
  lastMouseY : Z;
  instanceId : string;
  tagNameCopy : option string;
  lastDraggedOver : option NodeId;
  lastMouseDirection : option Direction;
  options : Options;
  draggedItem : option NodeId;
  draggedItemData : option DataRecord;
  placeholder : option NodeId
}.

Definition set_elements (v : list NodeId) (i : Instance) : Instance :=
  mkInstance v (elementOrSelector i) (lastMouseY i) (instanceId i) (tagNameCopy i)
             (lastDraggedOver i) (lastMouseDirection i) (options i) (draggedItem i)
             (draggedItemData i) (placeholder i).
Definition set_lastMouseY (v : Z) (i : Instance) : Instance :=
  mkInstance (elements i) (elementOrSelector i) v (instanceId i) (tagNameCopy i)
             (lastDraggedOver i) (lastMouseDirection i) (options i) (draggedItem i)
             (draggedItemData i) (placeholder i).
Definition set_tagNameCopy (v : option string) (i : Instance) : Instance :=
  mkInstance (elements i) (elementOrSelector i) (lastMouseY i) (instanceId i) v
             (lastDraggedOver i) (lastMouseDirection i) (options i) (draggedItem i)
             (draggedItemData i) (placeholder i).
Definition set_lastDraggedOver (v : option NodeId) (i : Instance) : Instance :=
  mkInstance (elements i) (elementOrSelector i) (lastMouseY i) (instanceId i) (tagNameCopy i)
             v (lastMouseDirection i) (options i) (draggedItem i)
             (draggedItemData i) (placeholder i).
Definition set_lastMouseDirection (v : option Direction) (i : Instance) : Instance :=
  mkInstance (elements i) (elementOrSelector i) (lastMouseY i) (instanceId i) (tagNameCopy i)
             (lastDraggedOver i) v (options i) (draggedItem i)
             (draggedItemData i) (placeholder i).
Definition set_options (v : Options) (i : Instance) : Instance :=
  mkInstance (elements i) (elementOrSelector i) (lastMouseY i) (instanceId i) (tagNameCopy i)
             (lastDraggedOver i) (lastMouseDirection i) v (draggedItem i)
             (draggedItemData i) (placeholder i).
Definition set_draggedItem (v : option NodeId) (i : Instance) : Instance :=
  mkInstance (elements i) (elementOrSelector i) (lastMouseY i) (instanceId i) (tagNameCopy i)
             (lastDraggedOver i) (lastMouseDirection i) (options i) v
             (draggedItemData i) (placeholder i).
Definition set_draggedItemData (v : option DataRecord) (i : Instance) : Instance :=
  mkInstance (elements i) (elementOrSelector i) (lastMouseY i) (instanceId i) (tagNameCopy i)
             (lastDraggedOver i) (lastMouseDirection i) (options i) (draggedItem i)
             v (placeholder i).
Definition set_placeholder (v : option NodeId) (i : Instance) : Instance :=
  mkInstance (elements i) (elementOrSelector i) (lastMouseY i) (instanceId i) (tagNameCopy i)
             (lastDraggedOver i) (lastMouseDirection i) (options i) (draggedItem i)
             (draggedItemData i) v.

(** ** The world a handler runs in *)

Inductive EventType := dragstart | dragend | dragover | dragenter | dropped.

(** What a run lets the outside observe, apart from the page itself. *)
Inductive Effect :=
| PreventDefault
| ConsoleError (msg : string)
| ConsoleLog (msg : string)
| Call (name : CallbackName) (args : list Value)
| SetDragImage (image : NodeId).

Record World := mkWorld {
  dom : Dom;
  self : Instance;
  effects : list Effect;                       (* oldest first *)
  listeners : list (NodeId * EventType);       (* addEventListener calls *)
  frames : list NodeId                         (* drag images awaiting removal *)
}.

(** A computation: it may change the world, and returns or throws. *)
Definition M (A : Type) : Type := World -> World * Result A.

Definition ret {A} (a : A) : M A := fun w => (w, Ok a).
Definition throw {A} (e : JsError) : M A := fun w => (w, Throw e).
Definition bind {A B} (m : M A) (k : A -> M B) : M B :=
  fun w => match m w with
           | (w', Ok a) => k a w'
           | (w', Throw e) => (w', Throw e)
           end.

Notation "x <- m ;; k" := (bind m (fun x => k))
  (at level 100, m at next level, right associativity).
Notation "m ;; k" := (bind m (fun _ => k))
  (at level 100, right associativity).

Definition get_dom : M Dom := fun w => (w, Ok (dom w)).
Definition get_self : M Instance := fun w => (w, Ok (self w)).

Definition put_dom (d : Dom) : M unit :=
  fun w => (mkWorld d (self w) (effects w) (listeners w) (frames w), Ok tt).

Definition modify_self (f : Instance -> Instance) : M unit :=
  fun w => (mkWorld (dom w) (f (self w)) (effects w) (listeners w) (frames w), Ok tt).

Definition emit (x : Effect) : M unit :=
  fun w => (mkWorld (dom w) (self w) (effects w ++ [x]) (listeners w) (frames w), Ok tt).

Definition addEventListener (n : NodeId) (t : EventType) : M unit :=
  fun w => (mkWorld (dom w) (self w) (effects w) (listeners w ++ [(n, t)]) (frames w), Ok tt).

Definition requestAnimationFrame (image : NodeId) : M unit :=
  fun w => (mkWorld (dom w) (self w) (effects w) (listeners w) (frames w ++ [image]), Ok tt).

(** Lift a result computed from the page. *)
Definition lift {A} (r : Result A) : M A := fun w => (w, r).

(** Run a page operation and install the page it produces. *)
Definition on_dom (f : Dom -> Result Dom) : M unit :=
  d <- get_dom ;; d' <- lift (f d) ;; put_dom d'.

(** [l.forEach(f)] *)
Fixpoint forEach {A} (l : list A) (f : A -> M unit) : M unit :=
  match l with
  | [] => ret tt
  | x :: r => f x ;; forEach r f
  end.

(** Call a callback if it is a function; the call is recorded. *)
Definition invoke (name : CallbackName) (cb : option Callback) (args : list Value)
    : M (option Value) :=
  match cb with
  | Some f => emit (Call name args) ;; ret (Some (f args))
  | None => ret None
  end.

(** ** The class [DomMover] *)

Section DomMover.
Context `{SelectorEngine}.

(** A string in a condition: [null], [undefined] and [''] are falsy. *)
Definition truthy (s : option string) : option string :=
  match s with
  | Some x => if String.eqb x "" then None else Some x
  | None => None
  end.

(** A string where a string is expected: [undefined] reads "undefined". *)
Definition as_string (s : option string) : string :=
  match s with
  | Some x => x
  | None => "undefined"
  end.

Definition node_or_null (n : option NodeId) : Value :=
  match n with
  | Some x => VNode x
  | None => VNull
  end.

(** The [type] argument of [isWithinParent] and [getParentElement]:
    ['pickup'], or anything else. *)
Inductive Scope := PickupScope | DropScope.

Definition parent_selector (i : Instance) (type : Scope) : option string :=
  match type with
  | PickupScope => pickup_parent (pickup (options i))
  | DropScope => drop_parent (drop (options i))
  end.

(** The elements with a stringifier: [a] and [area]. *)
Definition is_hyperlink (x : Node) : bool :=
  match nodeKind x, interface x with
  | ElementNode, HTMLInterface stem => String.eqb stem "Anchor" || String.eqb stem "Area"
  | _, _ => false
  end.

(** What a node prints as in a template string: its [href] for an [a] or
    [area] element, [[object <interface>]] for any other node. *)
Definition object_string (d : Dom) (n : NodeId) : string :=
  match node_at d n with
  | Some x =>
      match nodeKind x with
      | ElementNode =>
          if is_hyperlink x then href x
          else ("[object " ++ interfaceName (interface x) ++ "]")%string
      | TextNode => "[object Text]"
      | DocumentNode => "[object HTMLDocument]"
      end
  | None => "[object Object]"
  end.

(** [`${this.elementOrSelector}`] *)
Definition arg_string (d : Dom) (a : CtorArg) : string :=
  match a with
  | ArgString s => s
  | ArgElement n => object_string d n
  | ArgNodeList _ => "[object NodeList]"
  | ArgArray l => join_comma (map (object_string d) l)
  | ArgOther => "[object Object]"
  end.

(** [`${this.elementOrSelector}.${this.instanceId}`] *)
Definition managed_selector (d : Dom) (i : Instance) : string :=
  (arg_string d (elementOrSelector i) ++ "." ++ instanceId i)%string.

(** [generateInstanceId]; [rnd] stands for the digits
    [Math.random().toString(36).substring(2, 9)] produced. *)
Definition generateInstanceId (rnd : string) : string := ("dm" ++ rnd)%string.

Definition log (msg : string) : M unit :=
  i <- get_self ;;
  if debug (options i) then emit (ConsoleLog msg) else ret tt.

(** *** Scoping *)

Definition isWithinParent (d : Dom) (i : Instance) (element : NodeId) (type : Scope)
    : Result bool :=
  match truthy (parent_selector i type) with
  | None => Ok true
  | Some parentSelector =>
      match querySelector d parentSelector with
      | Throw e => Throw e
      | Ok None => Ok true
      | Ok (Some parentElement) =>
          if contains d parentElement element then
            if is_element d element then Ok (has_class d element (instanceId i))
            else Throw TypeError
          else Ok false
      end
  end.

(** The [while] loop of [isDraggable] over [current] and its ancestors:
    [Ok true] when a node carrying the disabled class is met, [Ok false]
    when the loop is left otherwise. *)
Fixpoint isDraggable_loop (d : Dom) (i : Instance) (chain : list NodeId) : Result bool :=
  match chain with
  | [] => Ok false
  | current :: rest =>
      if is_element d current
         && has_class d current (as_string (pickup_disabledClass (pickup (options i))))
      then Ok true
      else
        match match truthy (pickup_parent (pickup (options i))) with
              | Some sel => matches d current sel
              | None => Ok false
              end with
        | Throw e => Throw e
        | Ok true => Ok false
        | Ok false =>
            if option_node_eqb (Some current) (body d) then Ok false
            else isDraggable_loop d i rest
        end
  end.

Definition isDraggable (d : Dom) (i : Instance) (element : NodeId) : Result bool :=
  match isDraggable_loop d i (element :: ancestors d element) with
  | Throw e => Throw e
  | Ok true => Ok false
  | Ok false => isWithinParent d i element PickupScope
  end.

(** The [for] loop of [getParentElement]: is every managed element inside
    [commonParent] and tagged? *)
Fixpoint allChildren (d : Dom) (i : Instance) (commonParent : NodeId) (els : list NodeId)
    : Result bool :=
  match els with
  | [] => Ok true
  | el :: rest =>
      if negb (contains d commonParent el) then Ok false
      else if is_element d el then
        if has_class d el (instanceId i) then allChildren d i commonParent rest
        else Ok false
      else Throw TypeError
  end.

(** The [while] loop of [getParentElement] over the ancestors of the
    first managed element. *)
Fixpoint getParentElement_loop (d : Dom) (i : Instance) (chain : list NodeId)
    : Result (option NodeId) :=
  match chain with
  | [] => Ok None
  | commonParent :: rest =>
      match allChildren d i commonParent (elements i) with
      | Throw e => Throw e
      | Ok true => Ok (Some commonParent)
      | Ok false => getParentElement_loop d i rest
      end
  end.

Definition getParentElement (d : Dom) (i : Instance) (type : Scope) : Result (option NodeId) :=
  match truthy (parent_selector i type) with
  | Some parentSelector => querySelector d parentSelector
  | None =>
      match elements i with
      | el0 :: _ => getParentElement_loop d i (ancestors d el0)
      | [] => Ok None
      end
  end.

(** *** Helpers *)

Definition dataset_of (d : Dom) (n : NodeId) : list (string * string) :=
  match node_at d n with
  | Some x => dataset x
  | None => []
  end.

(** The names under which a dataset object inherits a property: those of
    [Object.prototype] ([DOMStringMap.prototype] adds [constructor]
    again and no other string name). *)
Definition inherited_names : list string :=
  ["constructor"; "__defineGetter__"; "__defineSetter__"; "hasOwnProperty";
   "__lookupGetter__"; "__lookupSetter__"; "isPrototypeOf"; "propertyIsEnumerable";
   "toString"; "valueOf"; "__proto__"; "toLocaleString"].

(** [item.dataset[attr]]: the data attribute of that name if the element
    has one (a data attribute hides an inherited property); else the
    inherited property, if the name is one; else [undefined]. *)
Definition dataset_get (d : Dom) (item : NodeId) (attr : string) : DataValue :=
  match assoc_get attr (dataset_of d item) with
  | Some v => DataString v
  | None => if mem_string attr inherited_names then DataInherited attr else DataUndefined
  end.

(** [data[attr] = v] on the plain object [data]: an own property is set,
    except under [__proto__], the accessor of [Object.prototype], whose
    setter never adds a property. *)
Definition record_set (attr : string) (v : DataValue) (data : DataRecord) : DataRecord :=
  if String.eqb attr "__proto__" then data else assoc_set attr v data.

Definition getItemData (d : Dom) (i : Instance) (item : NodeId) : Result DataRecord :=
  fold_left (fun acc attr =>
               match acc with
               | Throw e => Throw e
               | Ok data =>
                   if is_element d item
                   then Ok (record_set attr (dataset_get d item attr) data)
                   else Throw TypeError
               end) (dataAttributes (options i)) (Ok []).

Definition addClasses (element : option NodeId) (classes : option string) : M unit :=
  match truthy classes with
  | None => ret tt
  | Some cs =>
      forEach (split_space cs)
              (fun cls => match element with
                          | Some n => on_dom (fun d => classList_add d n cls)
                          | None => throw TypeError
                          end)
  end.

Definition removeClasses (element : option NodeId) (classes : option string) : M unit :=
  match truthy classes with
  | None => ret tt
  | Some cs =>
      forEach (split_space cs)
              (fun cls => match element with
                          | Some n => on_dom (fun d => classList_remove d n cls)
                          | None => throw TypeError
                          end)
  end.

Definition isValidSortableElement (tagName : string) : bool :=
  negb (mem_string tagName
          ["TBODY"; "THEAD"; "TFOOT"; "CAPTION"; "COLGROUP"; "COL"; "HTML"; "HEAD"; "BODY"]).

(** *** Construction *)

Definition bindEvents : M unit :=
  d <- get_dom ;;
  i <- get_self ;;
  parentElement <- lift (getParentElement d i PickupScope) ;;
  match parentElement with
  | None => log "No valid parent for delegation"
  | Some p =>
      addEventListener p dragstart ;;
      addEventListener p dragend ;;
      addEventListener p dragover ;;
      addEventListener p dragenter ;;
      addEventListener p dropped
  end.

Definition init : M unit :=
  bindEvents ;;
  i <- get_self ;;
  forEach (elements i)
          (fun element =>
             on_dom (fun d => setAttribute d element "draggable" "true") ;;
             on_dom (fun d => classList_add d element (instanceId i))).

(** The object as lines 91 to 97 leave it.  The four fields assigned
    after the argument check ([options], [draggedItem], [draggedItemData],
    [placeholder]) do not exist yet; nothing reads them before they do. *)
Definition fresh_instance (elementOrSelector : CtorArg) (rnd : string) : Instance := {|
  elements := [];
  elementOrSelector := elementOrSelector;
  lastMouseY := 0;
  instanceId := generateInstanceId rnd;
  tagNameCopy := None;
  lastDraggedOver := None;
  lastMouseDirection := None;
  options := defaults;
  draggedItem := None;
  draggedItemData := None;
  placeholder := None
|}.

Definition constructor (elementOrSelector : CtorArg) (opts : UserOptions) : M unit :=
  d <- get_dom ;;
  found <- match elementOrSelector with
           | ArgString s => l <- lift (querySelectorAll d s) ;; ret (Some l)
           | ArgElement n => if is_element d n then ret (Some [n]) else ret None
           | ArgNodeList l => ret (Some l)
           | ArgArray l => ret (Some l)
           | ArgOther => ret None
           end ;;
  match found with
  | None => emit (ConsoleError "DomMover: Invalid element or selector provided.")
  | Some l =>
      modify_self (set_elements l) ;;
      modify_self (set_options (assign_options opts)) ;;
      modify_self (set_draggedItem None) ;;
      modify_self (set_draggedItemData None) ;;
      modify_self (set_placeholder None) ;;
      init
  end.

(** [new DomMover(elementOrSelector, options)] on a page. *)
Definition new_DomMover (page : Dom) (elementOrSelector : CtorArg) (opts : UserOptions)
    (rnd : string) : World * Result unit :=
  constructor elementOrSelector opts
              (mkWorld page (fresh_instance elementOrSelector rnd) [] [] []).

(** *** Pickup *)

(** [n.tagName.toUpperCase()]; only elements have a [tagName]. *)
Definition tagName_upper (d : Dom) (n : NodeId) : Result string :=
  match node_at d n with
  | Some x =>
      match nodeKind x with
      | ElementNode => Ok (toUpperCase (tagName x))
      | _ => Throw TypeError
      end
  | None => Throw TypeError
  end.

Definition createPlaceholder : M unit :=
  i <- get_self ;;
  d <- get_dom ;;
  let (d1, ph) := createElement d (as_string (tagNameCopy i)) in
  put_dom d1 ;;
  modify_self (set_placeholder (Some ph)) ;;
  (if option_eqb String.eqb (tagNameCopy i) (Some "TR") then
     d <- get_dom ;;
     let (d2, td) := createElement d "td" in
     put_dom d2 ;;
     colCount <- match draggedItem i with
                 | Some it =>
                     if is_element d2 it
                     then ret (match element_child_count d2 it with 0 => 1 | n => n end)
                     else throw TypeError
                 | None => throw TypeError
                 end ;;
     on_dom (fun d => setAttribute d td "colspan" (nat_to_string colCount)) ;;
     d <- get_dom ;;
     let (d3, txt) := createTextNode d " " in
     put_dom d3 ;;
     on_dom (fun d => appendChild d td (Some txt)) ;;
     on_dom (fun d => appendChild d ph (Some td))
   else ret tt) ;;
  on_dom (fun d => classList_add d ph (placeholderClass (options i))) ;;
  on_dom (fun d => classList_add d ph (instanceId i)) ;;
  if dropIndicator (options i)
  then on_dom (fun d => classList_add d ph (dropIndicatorClass (options i)))
  else ret tt.

Definition layout_px (d : Dom) (n : NodeId) (f : Node -> Z) : string :=
  match node_at d n with
  | Some x => (Z_to_string (f x) ++ "px")%string
  | None => "undefinedpx"
  end.

Definition setCustomDragImage (e : Event) : M unit :=
  i <- get_self ;;
  d <- get_dom ;;
  match draggedItem i with
  | None => throw TypeError
  | Some it =>
      match cloneNode d it with
      | (_, None) => throw TypeError
      | (d1, Some dragImage) =>
          put_dom d1 ;;
          on_dom (fun d => classList_add d dragImage (dragImageClass (options i))) ;;
          on_dom (fun d => classList_add d dragImage (instanceId i)) ;;
          on_dom (fun d => setStyle d dragImage "width" (layout_px d it offsetWidth)) ;;
          on_dom (fun d => setStyle d dragImage "height" (layout_px d it offsetHeight)) ;;
          d <- get_dom ;;
          match body d with
          | None => throw TypeError
          | Some b =>
              on_dom (fun d => appendChild d b (Some dragImage)) ;;
              emit (SetDragImage dragImage) ;;
              requestAnimationFrame dragImage
          end
      end
  end.

(** The callback [requestAnimationFrame] was given, for the oldest drag
    image still pending: [document.body.removeChild(dragImage)]. *)
Definition animationFrame : M unit :=
  fun w =>
    match frames w with
    | [] => (w, Ok tt)
    | dragImage :: rest =>
        (match body (dom w) with
         | None => throw TypeError
         | Some b => on_dom (fun d => removeChild d b (Some dragImage))
         end) (mkWorld (dom w) (self w) (effects w) (listeners w) rest)
    end.

Definition handleDragStart (e : Event) : M unit :=
  d <- get_dom ;;
  i <- get_self ;;
  ok <- lift (isDraggable d i (target e)) ;;
  if negb ok then ret tt
  else
    modify_self (set_draggedItem (Some (target e))) ;;
    tag <- lift (tagName_upper d (target e)) ;;
    modify_self (set_tagNameCopy (Some tag)) ;;
    if negb (isValidSortableElement tag) then
      emit (ConsoleError ("DomMover: " ++ quoted tag ++ " elements cannot be sorted.")%string) ;;
      emit PreventDefault
    else
      data <- lift (getItemData d i (target e)) ;;
      modify_self (set_draggedItemData (Some data)) ;;
      addClasses (Some (target e)) (pickup_addClass (pickup (options i))) ;;
      removeClasses (Some (target e)) (pickup_removeClass (pickup (options i))) ;;
      d <- get_dom ;;
      let prevElem := previousElementSibling d (target e) in
      let nextElem := nextElementSibling d (target e) in
      invoke CbPickup (cb_pickup (callbacks (options i)))
             [VNode (target e); VData data; node_or_null prevElem; node_or_null nextElem] ;;
      createPlaceholder ;;
      setCustomDragImage e.

(** *** Drag end *)

Definition handleDragEnd (e : Event) : M unit :=
  i <- get_self ;;
  removeClasses (draggedItem i) (pickup_addClass (pickup (options i))) ;;
  d <- get_dom ;;
  match placeholder i with
  | Some ph =>
      match parent_of d ph with
      | Some par => on_dom (fun d => removeChild d par (Some ph))
      | None => ret tt
      end
  | None => ret tt
  end ;;
  modify_self (set_draggedItem None) ;;
  modify_self (set_draggedItemData None) ;;
  modify_self (set_placeholder None) ;;
  modify_self (set_tagNameCopy None) ;;
  modify_self (set_lastDraggedOver None) ;;
  modify_self (set_lastMouseDirection None).

(** *** Continuous positioning *)

Definition position_value (p : Position) : Value :=
  match p with
  | Top => VStr "top"
  | Bottom => VStr "bottom"
  end.

(** Lines 230 to 233: the direction the pointer moved in. *)
Definition mouseDirection (i : Instance) (e : Event) : Direction :=
  if (clientY e <? lastMouseY i)%Z then Up else Down.

(** Lines 235 to 243: where the placeholder goes. *)
Definition positionPlaceholder (d : Dom) (i : Instance) (e : Event) (below : NodeId)
    : Result Dom :=
  if (lastMouseY i <? clientY e)%Z then
    if negb (option_node_eqb (nextElementSibling d below) (placeholder i)) then
      match parent_of d below with
      | Some par => insertBefore d par (placeholder i) (nextSibling d below)
      | None => Throw TypeError
      end
    else Ok d
  else if (clientY e <? lastMouseY i)%Z then
    if negb (option_node_eqb (previousElementSibling d below) (placeholder i)) then
      match parent_of d below with
      | Some par => insertBefore d par (placeholder i) (Some below)
      | None => Throw TypeError
      end
    else Ok d
  else Ok d.

(** Lines 252 and 253: is the [drag] callback due? *)
Definition dragCallbackDue (i : Instance) (below : NodeId) (dir : Direction) : bool :=
  allowDuplicateCallbacks (options i)
  || negb (option_node_eqb (Some below) (lastDraggedOver i))
  || negb (option_eqb direction_eqb (Some dir) (lastMouseDirection i)).

Definition handleDragOver (e : Event) : M unit :=
  emit PreventDefault ;;
  d <- get_dom ;;
  i <- get_self ;;
  closestManagedElement <- lift (closest d (target e) (managed_selector d i)) ;;
  match closestManagedElement with
  | None => ret tt
  | Some below =>
      if option_node_eqb (Some below) (draggedItem i)
         || option_node_eqb (Some below) (placeholder i)
      then ret tt
      else
        on_dom (fun d => positionPlaceholder d i e below) ;;
        modify_self (set_lastMouseY (clientY e)) ;;
        d <- get_dom ;;
        placeholderPosition <-
          match placeholder i with
          | Some ph =>
              ret (if option_node_eqb (previousElementSibling d ph) (Some below)
                   then Top else Bottom)
          | None => throw TypeError
          end ;;
        (if dragCallbackDue i below (mouseDirection i e)
         then
           invoke CbDrag (cb_drag (callbacks (options i)))
                  [VEvent e; node_or_null (draggedItem i); VNode below;
                   position_value placeholderPosition] ;;
           ret tt
         else ret tt) ;;
        modify_self (set_lastDraggedOver (Some below)) ;;
        modify_self (set_lastMouseDirection (Some (mouseDirection i e)))
  end.

Definition handleDragEnter (e : Event) : M unit :=
  emit PreventDefault ;;
  d <- get_dom ;;
  i <- get_self ;;
  ok <- lift (isDraggable d i (target e)) ;;
  if negb ok then ret tt
  else
    closestManagedElement <- lift (closest d (target e) (managed_selector d i)) ;;
    ret tt.

(** *** Drop *)

Definition handleDrop (e : Event) : M unit :=
  emit PreventDefault ;;
  i <- get_self ;;
  match draggedItem i with
  | None => ret tt
  | Some it =>
      d <- get_dom ;;
      ph <- match placeholder i with
            | Some ph => ret ph
            | None => throw TypeError
            end ;;
      let prevElem := previousElementSibling d ph in
      let nextElem := nextElementSibling d ph in
      beforeElementData <-
        match prevElem with
        | Some pe => r <- lift (getItemData d i pe) ;; ret (VData r)
        | None => ret VNull
        end ;;
      let args := [VNode it; node_or_null prevElem;
                   match draggedItemData i with Some r => VData r | None => VNull end;
                   beforeElementData; node_or_null nextElem] in
      verdict <- invoke CbBeforeDrop (cb_beforeDrop (callbacks (options i))) args ;;
      match verdict with
      | Some (VBool false) => ret tt
      | _ =>
          match parent_of d ph with
          | Some par => on_dom (fun d => insertBefore d par (Some it) (Some ph))
          | None => throw TypeError
          end ;;
          invoke CbDrop (cb_drop (callbacks (options i))) args ;;
          ret tt
      end
  end.

(** *** Delivery

    An event reaches the handler the instance bound for its type when the
    listener sits on the target or on one of its ancestors. *)
Definition event_type_eqb (a b : EventType) : bool :=
  match a, b with
  | dragstart, dragstart | dragend, dragend | dragover, dragover
  | dragenter, dragenter | dropped, dropped => true
  | _, _ => false
  end.

Definition handler (t : EventType) : Event -> M unit :=
  match t with
  | dragstart => handleDragStart
  | dragend => handleDragEnd
  | dragover => handleDragOver
  | dragenter => handleDragEnter
  | dropped => handleDrop
  end.

Definition dispatch (t : EventType) (e : Event) : M unit :=
  fun w =>
    if existsb (fun l => event_type_eqb (snd l) t && contains (dom w) (fst l) (target e))
               (listeners w)
    then handler t e w
    else (w, Ok tt).

End DomMover.

(** ** Reading a run *)

(** The invocations of one callback among some effects, oldest first. *)
Definition callback_name_eqb (a b : CallbackName) : bool :=
  match a, b with
  | CbPickup, CbPickup | CbDrag, CbDrag | CbBeforeDrop, CbBeforeDrop | CbDrop, CbDrop => true
  | _, _ => false
  end.

Definition calls (name : CallbackName) (l : list Effect) : list (list Value) :=
  flat_map (fun x => match x with
                     | Call n args => if callback_name_eqb n name then [args] else []
                     | _ => []
                     end) l.

(** The placeholder position a tick reports (lines 247 to 250). *)
Definition placeholderPosition (d : Dom) (ph below : NodeId) : Position :=
  if option_node_eqb (previousElementSibling d ph) (Some below) then Top else Bottom.

(** What a positioning tick over [below] dispatches. *)
Definition tick_dispatch (i : Instance) (e : Event) (below : NodeId) (pos : Position)
    : list Effect :=
  if dragCallbackDue i below (mouseDirection i e) then
    match cb_drag (callbacks (options i)) with
    | Some _ => [Call CbDrag [VEvent e; node_or_null (draggedItem i); VNode below;
                              position_value pos]]
    | None => []
    end
  else [].

(** The world a completed positioning tick over [below] leaves, [d'] being
    the page after the positioning step. *)
Definition after_tick (w : World) (e : Event) (below ph : NodeId) (d' : Dom) : World :=
  mkWorld d'
          (set_lastMouseDirection (Some (mouseDirection (self w) e))
             (set_lastDraggedOver (Some below)
                (set_lastMouseY (clientY e) (self w))))
          ((effects w ++ [PreventDefault])
             ++ tick_dispatch (self w) e below (placeholderPosition d' ph below))
          (listeners w) (frames w).

(** The arguments [beforeDrop] and [drop] are called with (lines 279 to
    288), [before] being the data record of the element before the
    placeholder. *)
Definition drop_arguments (d : Dom) (i : Instance) (it ph : NodeId) (before : Value)
    : list Value :=
  [VNode it; node_or_null (previousElementSibling d ph);
   match draggedItemData i with Some r => VData r | None => VNull end;
   before; node_or_null (nextElementSibling d ph)].

(** The data record of the element before the placeholder, if any
    (lines 282 to 285). *)
Definition before_data (d : Dom) (i : Instance) (ph : NodeId) : Result Value :=
  match previousElementSibling d ph with
  | Some pe => match getItemData d i pe with
               | Ok r => Ok (VData r)
               | Throw err => Throw err
               end
  | None => Ok VNull
  end.

(** The world [handleDragStart] leaves when it rejects the tag. *)
Definition after_rejected_pickup (w : World) (e : Event) (tag : string) : World :=
  mkWorld (dom w)
          (set_tagNameCopy (Some tag) (set_draggedItem (Some (target e)) (self w)))
          (effects w
             ++ [ConsoleError ("DomMover: " ++ quoted tag ++ " elements cannot be sorted.")%string;
                 PreventDefault])
          (listeners w) (frames w).

(** Computations that bind no listener, and computations that leave the
    recorded pointer coordinate alone. *)
Definition keeps_listeners {A : Type} (m : M A) : Prop :=
  forall w, listeners (fst (m w)) = listeners w.

Definition keeps_lastMouseY {A : Type} (m : M A) : Prop :=
  forall w, lastMouseY (self (fst (m w))) = lastMouseY (self w).

(** Computations that keep the page well formed. *)
Definition keeps_wf {A : Type} (m : M A) : Prop :=
  forall w, wf_dom (dom w) = true -> wf_dom (dom (fst (m w))) = true.

(** The inputs an instance reacts to: an event of one of the five kinds
    delivered to its target, or an animation frame. *)
Inductive Input :=
| Deliver (t : EventType) (e : Event)
| Frame.

Section Steps.
Context `{SelectorEngine}.

(** The world after one input, whether the handler returns or throws. *)
Definition step (w : World) (i : Input) : World :=
  match i with
  | Deliver t e => fst (dispatch t e w)
  | Frame => fst (animationFrame w)
  end.

Definition run (inputs : list Input) (w : World) : World := fold_left step inputs w.

End Steps.

(** A gesture is under way over [below]: the page is well formed, the
    placeholder exists and is another element than [below], and [below]
    sits in an element the placeholder is not an ancestor of. *)
Definition can_place (d : Dom) (i : Instance) (below : NodeId) : bool :=
  wf_dom d
  && match placeholder i, parent_of d below with
     | Some ph, Some par =>
         is_element d ph && is_element d par && negb (contains d ph par)
         && negb (Nat.eqb ph below)
     | _, _ => false
     end.

(** The nodes the loop of [isDraggable] visits: a chain cut after
    [document.body]. *)
Fixpoint upto_body (d : Dom) (chain : list NodeId) : list NodeId :=
  match chain with
  | [] => []
  | c :: r => if option_node_eqb (Some c) (body d) then [c] else c :: upto_body d r
  end.

Definition carries_disabled (d : Dom) (i : Instance) (n : NodeId) : bool :=
  is_element d n && has_class d n (as_string (pickup_disabledClass (pickup (options i)))).

(** The constructor was not given a selector string. *)
Definition not_a_selector_string (a : CtorArg) : bool :=
  match a with
  | ArgString _ => false
  | _ => true
  end.

(** The node is an [a] or [area] element. *)
Definition hyperlink_at (d : Dom) (n : NodeId) : bool :=
  match node_at d n with
  | Some x => is_hyperlink x
  | None => false
  end.

(** No [a] or [area] element is what the constructor was given, or in the
    array it was given. *)
Definition without_hyperlink (d : Dom) (a : CtorArg) : bool :=
  match a with
  | ArgElement n => negb (hyperlink_at d n)
  | ArgArray l => forallb (fun n => negb (hyperlink_at d n)) l
  | _ => true
  end.

(** Only nodes the instance itself put there carry its marker on the way
    up from [n]. *)
Definition marker_only_on_own (d : Dom) (i : Instance) (n : NodeId) : Prop :=
  forall a, In a (n :: ancestors d n) ->
            is_element d a = true -> has_class d a (instanceId i) = true ->
            draggedItem i = Some a \/ placeholder i = Some a.

(** ** Reading the page *)

(** A token [classList.add] and [classList.remove] accept. *)
Definition valid_token (c : string) : bool :=
  negb (String.eqb c "") && negb (has_whitespace c).

(** The tokens [addClasses] and [removeClasses] go through. *)
Definition class_tokens (classes : option string) : list string :=
  match truthy classes with
  | Some cs => split_space cs
  | None => []
  end.

(** The class list of an element after [classList.add(c)]. *)
Definition add_token_to (l : list string) (c : string) : list string :=
  if mem_string c l then l else l ++ [c].

(** The world with another page. *)
Definition with_dom (d : Dom) (w : World) : World :=
  mkWorld d (self w) (effects w) (listeners w) (frames w).

(** A node as [init] leaves a managed element: draggable, and carrying
    the instance marker. *)
Definition tagged (id : string) (x : Node) : Node :=
  with_classList (add_token_to (classList x) id)
                 (with_attributes (assoc_set "draggable" "true" (attributes x)) x).

(** The five listeners [bindEvents] binds on the delegation root. *)
Definition bound_listeners (root : NodeId) : list (NodeId * EventType) :=
  [(root, dragstart); (root, dragend); (root, dragover); (root, dragenter); (root, dropped)].

(** A node the loop of [isDraggable] does not get past when a containment
    selector is configured: it carries the disabled class, or it is not an
    element and so has no [matches] method. *)
Definition ends_walk (d : Dom) (i : Instance) (c : NodeId) : bool :=
  negb (is_element d c) || carries_disabled d i c.

(** A chain cut after its first node satisfying [stop]. *)
Fixpoint upto_boundary (stop : NodeId -> bool) (chain : list NodeId) : list NodeId :=
  match chain with
  | [] => []
  | c :: r => if stop c then [c] else c :: upto_boundary stop r
  end.

Section Boundary.
Context `{SelectorEngine}.

(** Where the loop of [isDraggable] stops when the containment selector
    [s] is configured: at a node matching it, or at [document.body]. *)
Definition pickup_boundary (s : Selector) (d : Dom) (c : NodeId) : bool :=
  selectorMatches s d c || option_node_eqb (Some c) (body d).

(** The first element of the document matching [s]: what
    [document.querySelector] returns. *)
Definition first_match (s : Selector) (d : Dom) : option NodeId :=
  find (fun a => is_element d a && selectorMatches s d a) (document_order d).

End Boundary.

(** ** Reading a gesture *)




(** The page after [n.parentNode.removeChild(n)], for a node in the page;
    a node without a parent is left where it is (lines 211 to 213). *)
Definition taken_out (d : Dom) (n : NodeId) : Dom :=
  match parent_of d n with
  | Some par => recorded (Removed par n) (detach d n)
  | None => d
  end.

(** The instance as [handleDragEnd] leaves it (lines 215 to 220). *)
Definition cleared (i : Instance) : Instance :=
  set_lastMouseDirection None
    (set_lastDraggedOver None
       (set_tagNameCopy None
          (set_placeholder None
             (set_draggedItemData None
                (set_draggedItem None i))))).

(** ** The page's own nodes *)

(** The nodes of [l] that the page [d0] already had. *)
Definition own_nodes (d0 : Dom) (l : list NodeId) : list NodeId :=
  List.filter (fun c => Nat.ltb c (length (nodes d0))) l.

(** The nodes [d0] had are still there in [d], with the parents they had
    and in the order they had among their siblings. *)
Definition same_order (d0 d : Dom) : Prop :=
  length (nodes d0) <= length (nodes d)
  /\ forall n, n < length (nodes d0) ->
               own_nodes d0 (children_of d n) = children_of d0 n
               /\ parent_of d n = parent_of d0 n.

(** The placeholder and the pending drag images are nodes created after
    [d0]. *)
Definition own_fresh (d0 : Dom) (w : World) : Prop :=
  (forall ph, placeholder (self w) = Some ph -> length (nodes d0) <= ph)
  /\ (forall f, In f (frames w) -> length (nodes d0) <= f).

(** The page is well formed and keeps the order of [d0]. *)
Definition page_kept (d0 : Dom) (w : World) : Prop :=
  wf_dom (dom w) = true /\ same_order d0 (dom w) /\ own_fresh d0 w.

(** Computations that keep a property of the world, however they end. *)
Definition keeps (P : World -> Prop) {A : Type} (m : M A) : Prop :=
  forall w, P w -> P (fst (m w)).

Definition not_drop (i : Input) : bool :=
  match i with
  | Deliver dropped _ => false
  | _ => true
  end.

(** Any node created after [d0] that sits among the children of a node of
    [d0] is one of [allowed]. *)
Definition stray_free (d0 : Dom) (allowed : list NodeId) (d : Dom) : Prop :=
  forall n c, n < length (nodes d0) -> In c (children_of d n) ->
              length (nodes d0) <= c -> In c allowed.

(** The nodes the instance holds on to: the placeholder and the drag
    images awaiting removal. *)
Definition held (w : World) : list NodeId :=
  match placeholder (self w) with
  | Some ph => [ph]
  | None => []
  end ++ frames w.

(** The pickup class string of the instance is made of valid tokens. *)
Definition pickup_class_valid (i : Instance) : bool :=
  forallb valid_token (class_tokens (pickup_addClass (pickup (options i)))).

(** Whenever a placeholder exists, drag end can take the pickup classes
    off the dragged item. *)
Definition can_end (w : World) : Prop :=
  forall ph, placeholder (self w) = Some ph ->
             exists it, draggedItem (self w) = Some it
                        /\ is_element (dom w) it = true
                        /\ pickup_class_valid (self w) = true.

(** At most one drag image is pending, and it sits in [document.body]. *)
Definition frame_ok (w : World) : Prop :=
  frames w = []
  \/ exists img b, frames w = [img] /\ body (dom w) = Some b
                   /\ parent_of (dom w) img = Some b.

(** The page during a gesture over the page [d0]: well formed, in the
    order of [d0], with no node of the library's making in it but the
    ones the instance holds on to. *)
Definition gesture_page (d0 : Dom) (w : World) : Prop :=
  page_kept d0 w /\ stray_free d0 (held w) (dom w) /\ can_end w.

(** The world a pickup leaves, however it ends. *)
Definition after_pickup (d0 : Dom) (w : World) : Prop :=
  gesture_page d0 w /\ frame_ok w.

(** A page in which the element [t] is being dragged, the placeholder
    [ph] being the only node of the library's making in it. *)
Definition dragging_page (d0 : Dom) (t ph : NodeId) (d : Dom) : Prop :=
  wf_dom d = true /\ same_order d0 d /\ stray_free d0 [ph] d /\ is_element d t = true.

(** The world between the creation of the placeholder and the end of
    pickup. *)
Definition picking_up (d0 : Dom) (t ph : NodeId) (w : World) : Prop :=
  dragging_page d0 t ph (dom w)
  /\ placeholder (self w) = Some ph /\ frames w = []
  /\ draggedItem (self w) = Some t
  /\ pickup_class_valid (self w) = true.

(** The world before a pickup: nothing of the library's making is in the
    page, no placeholder exists and no drag image is pending. *)
Definition idle_page (d0 : Dom) (w : World) : Prop :=
  page_kept d0 w /\ stray_free d0 [] (dom w)
  /\ placeholder (self w) = None /\ frames w = [].

(** The world of a gesture once the drag image is gone. *)
Definition gesture_settled (d0 : Dom) (w : World) : Prop :=
  gesture_page d0 w /\ frames w = [].

(** The inputs between the pickup and the end of a gesture that is not
    dropped: positioning ticks, drag enters and animation frames. *)
Definition moving (i : Input) : bool :=
  match i with
  | Deliver dragover _ | Deliver dragenter _ | Frame => true
  | Deliver _ _ => false
  end.

(** The page [d] with the nodes [xs] created after it. *)
Definition grown (d : Dom) (xs : list Node) : Dom :=
  mkDom (nodes d ++ xs) (document d) (body d) (mutations d).

(** The classes [createPlaceholder] gives the placeholder (lines 192 to
    196). *)
Definition placeholder_classes (i : Instance) : list string :=
  let l := add_token_to (add_token_to [] (placeholderClass (options i))) (instanceId i) in
  if dropIndicator (options i) then add_token_to l (dropIndicatorClass (options i)) else l.

Definition placeholder_classes_valid (i : Instance) : bool :=
  valid_token (placeholderClass (options i))
  && valid_token (instanceId i)
  && (negb (dropIndicator (options i)) || valid_token (dropIndicatorClass (options i))).

(** What a pickup that reaches the callback records of the gesture, and
    the calls of [pickup] made so far. *)
Definition picked (t : NodeId) (tag : string) (data : DataRecord) (l : list (list Value))
    (w : World) : Prop :=
  calls CbPickup (effects w) = l
  /\ draggedItem (self w) = Some t
  /\ draggedItemData (self w) = Some data
  /\ tagNameCopy (self w) = Some tag.

(** ** Example pages *)

Module Examples.
Import BasicSelectors.

Definition element (tag : string) (i : Interface) (id : string)
    (data : list (string * string)) (parent : NodeId) (children : list NodeId) : Node :=
  mkNode ElementNode tag i "" id [] data [] [] "" 200 24 (Some parent) children.

Definition text (s : string) (parent : NodeId) : Node :=
  mkNode TextNode "" PlainInterface "" "" [] [] [] [] s 0 0 (Some parent) [].

Definition document_node (children : list NodeId) : Node :=
  mkNode DocumentNode "" PlainInterface "" "" [] [] [] [] "" 0 0 None children.

(** The page of the README's basic usage:
    [<ul id="my-list"><li data-id="1">..</li> <li data-id="2">..</li>
    <li data-id="3">..</li></ul>].  Nodes 5, 7 and 9 are the items,
    6 and 8 the white space between them. *)
Definition list_page : Dom := mkDom
  [ document_node [1];
    element "HTML" (HTMLInterface "Html") "" [] 0 [2; 3];
    element "HEAD" (HTMLInterface "Head") "" [] 1 [];
    element "BODY" (HTMLInterface "Body") "" [] 1 [4];
    element "UL" (HTMLInterface "UList") "my-list" [] 3 [5; 6; 7; 8; 9];
    element "LI" (HTMLInterface "LI") "" [("id", "1")] 4 [];
    text " " 4;
    element "LI" (HTMLInterface "LI") "" [("id", "2")] 4 [];
    text " " 4;
    element "LI" (HTMLInterface "LI") "" [("id", "3")] 4 [] ]
  0 (Some 3) [].

(** A table whose body is handed to the library:
    [<table id="t"><tbody><tr><td></td></tr></tbody></table>]. *)
Definition table_page : Dom := mkDom
  [ document_node [1];
    element "HTML" (HTMLInterface "Html") "" [] 0 [2; 3];
    element "HEAD" (HTMLInterface "Head") "" [] 1 [];
    element "BODY" (HTMLInterface "Body") "" [] 1 [4];
    element "TABLE" (HTMLInterface "Table") "t" [] 3 [5];
    element "TBODY" (HTMLInterface "TableSection") "" [] 4 [6];
    element "TR" (HTMLInterface "TableRow") "" [] 5 [7];
    element "TD" (HTMLInterface "TableCell") "" [] 6 [] ]
  0 (Some 3) [].

(** A link without [href] in a container:
    [<div id="links"><a>one</a></div>]. *)
Definition anchor_page : Dom := mkDom
  [ document_node [1];
    element "HTML" (HTMLInterface "Html") "" [] 0 [2; 3];
    element "HEAD" (HTMLInterface "Head") "" [] 1 [];
    element "BODY" (HTMLInterface "Body") "" [] 1 [4];
    element "DIV" (HTMLInterface "Div") "links" [] 3 [5];
    element "A" (HTMLInterface "Anchor") "" [] 4 [] ]
  0 (Some 3) [].

Definition observer : Callback := fun _ => VUndefined.
Definition veto : Callback := fun _ => VBool false.

(** Options naming the container, with every callback an observer. *)
Definition scoped_options (parent : string) : UserOptions :=
  mkUserOptions
    (Some (mkPickup (Some parent) (Some "sortable-disabled") (Some "sortable-dragging")
                    (Some "")))
    None
    (Some (mkCallbacks (Some observer) (Some observer) (Some observer) (Some observer)))
    None None None None None None None.

(** [new DomMover('#my-list li')], as in the README. *)
Definition basic_usage : World * Result unit :=
  new_DomMover list_page (ArgString "#my-list li") no_options "k3x9q2a".

(** [new DomMover('#my-list li', {pickup: {parent: '#my-list', ..}, ..})] *)
Definition scoped_list : World :=
  fst (new_DomMover list_page (ArgString "#my-list li") (scoped_options "#my-list") "k3x9q2a").

(** The first item is picked up ... *)
Definition picked_up : World := fst (dispatch dragstart (mkEvent 5 10) scoped_list).

(** ... and carried over the third item, 30 pixels down the viewport. *)
Definition over_third : World := fst (dispatch dragover (mkEvent 9 30) picked_up).

(** [new DomMover(document.querySelector('#my-list li'), ..)] *)
Definition from_element : World :=
  fst (new_DomMover list_page (ArgElement 5) (scoped_options "#my-list") "k3x9q2a").

(** [new DomMover([], {pickup: {parent: '#my-list', ..}, ..})] *)
Definition from_empty_array : World :=
  fst (new_DomMover list_page (ArgArray []) (scoped_options "#my-list") "k3x9q2a").

(** [new DomMover(document.querySelector('#links a'), ..)] *)
Definition from_anchor : World :=
  fst (new_DomMover anchor_page (ArgElement 5) (scoped_options "#links") "k3x9q2a").


(** [new DomMover('#t tbody', {pickup: {parent: '#t', ..}, ..})] *)
Definition scoped_table : World :=
  fst (new_DomMover table_page (ArgString "#t tbody") (scoped_options "#t") "k3x9q2a").

End Examples.

(** * Properties *)

(** The example runs use the selector engine of [BasicSelectors]. *)
#[local] Existing Instance BasicSelectors.engine.

#[local] Arguments insertBefore : simpl never.
#[local] Arguments previousElementSibling : simpl never.
#[local] Arguments nextElementSibling : simpl never.

(** The example pages are well-formed forests. *)
Lemma example_pages_well_formed :
  wf_dom Examples.list_page = true /\ acyclic Examples.list_page = true
  /\ wf_dom Examples.table_page = true /\ acyclic Examples.table_page = true
  /\ wf_dom Examples.anchor_page = true /\ acyclic Examples.anchor_page = true.
Proof. vm_compute. repeat split. Qed.

(** ** A change on record leaves the tree as it is *)

Lemma nodes_recorded (m : Mutation) (d : Dom) : nodes (recorded m d) = nodes d.
Proof. reflexivity. Qed.

Lemma body_recorded (m : Mutation) (d : Dom) : body (recorded m d) = body d.
Proof. reflexivity. Qed.

Lemma node_at_recorded (m : Mutation) (d : Dom) (n : NodeId) :
  node_at (recorded m d) n = node_at d n.
Proof. reflexivity. Qed.

Lemma parent_of_recorded (m : Mutation) (d : Dom) (n : NodeId) :
  parent_of (recorded m d) n = parent_of d n.
Proof. reflexivity. Qed.

Lemma children_of_recorded (m : Mutation) (d : Dom) (n : NodeId) :
  children_of (recorded m d) n = children_of d n.
Proof. reflexivity. Qed.

Lemma is_element_recorded (m : Mutation) (d : Dom) (n : NodeId) :
  is_element (recorded m d) n = is_element d n.
Proof. reflexivity. Qed.

Lemma kind_of_recorded (m : Mutation) (d : Dom) (n : NodeId) :
  kind_of (recorded m d) n = kind_of d n.
Proof. reflexivity. Qed.

Lemma nextElementSibling_recorded (m : Mutation) (d : Dom) (n : NodeId) :
  nextElementSibling (recorded m d) n = nextElementSibling d n.
Proof. reflexivity. Qed.

Lemma previousElementSibling_recorded (m : Mutation) (d : Dom) (n : NodeId) :
  previousElementSibling (recorded m d) n = previousElementSibling d n.
Proof. reflexivity. Qed.

Lemma wf_dom_recorded (m : Mutation) (d : Dom) : wf_dom (recorded m d) = wf_dom d.
Proof. reflexivity. Qed.

Lemma ancestors_upto_recorded (m : Mutation) (d : Dom) (fuel : nat) (n : NodeId) :
  ancestors_upto fuel (recorded m d) n = ancestors_upto fuel d n.
Proof.
  revert n. induction fuel as [|f IH]; intros n; [reflexivity|]. simpl.
  rewrite parent_of_recorded. destruct (parent_of d n); [now rewrite IH | reflexivity].
Qed.

Lemma contains_recorded (m : Mutation) (d : Dom) (a b : NodeId) :
  contains (recorded m d) a b = contains d a b.
Proof. unfold contains, ancestors. simpl. now rewrite ancestors_upto_recorded. Qed.

Ltac off_record :=
  rewrite ?nextElementSibling_recorded, ?previousElementSibling_recorded,
    ?parent_of_recorded, ?children_of_recorded, ?is_element_recorded,
    ?kind_of_recorded, ?node_at_recorded, ?wf_dom_recorded, ?contains_recorded,
    ?nodes_recorded, ?body_recorded.

(** ** Child lists *)

Lemma mem_node_cons (n a : NodeId) (l : list NodeId) :
  mem_node n (a :: l) = Nat.eqb n a || mem_node n l.
Proof. reflexivity. Qed.

Lemma mem_node_true (n : NodeId) (l : list NodeId) :
  mem_node n l = true <-> In n l.
Proof.
  unfold mem_node. rewrite existsb_exists. split.
  - intros [x [Hin Heq]]. apply Nat.eqb_eq in Heq. now subst.
  - intros Hin. exists n. split; [assumption | apply Nat.eqb_refl].
Qed.

Lemma mem_node_false (n : NodeId) (l : list NodeId) :
  mem_node n l = false <-> ~ In n l.
Proof.
  rewrite <- mem_node_true. destruct (mem_node n l); split; intros; congruence.
Qed.

Lemma after_incl (n x : NodeId) (l : list NodeId) :
  In x (after n l) -> In x l.
Proof.
  induction l as [|a t IH]; simpl; [tauto|].
  destruct (Nat.eqb a n); intros Hin; [now right | right; now apply IH].
Qed.

Lemma head_after_in (n r : NodeId) (l : list NodeId) :
  head (after n l) = Some r -> In r l.
Proof.
  intros Hh. apply (after_incl n). destruct (after n l); simpl in Hh; [discriminate|].
  injection Hh as ->. now left.
Qed.

Lemma remove_node_notin (p : NodeId) (l : list NodeId) :
  ~ In p l -> remove_node p l = l.
Proof.
  induction l as [|a t IH]; simpl; intros Hn; [reflexivity|].
  destruct (Nat.eqb_spec a p) as [->|Hne]; [exfalso; apply Hn; now left|].
  f_equal. apply IH. intros Hin. apply Hn. now right.
Qed.

Lemma remove_node_in (p x : NodeId) (l : list NodeId) :
  In x (remove_node p l) <-> In x l /\ x <> p.
Proof.
  induction l as [|a t IH]; simpl; [tauto|].
  destruct (Nat.eqb_spec a p) as [->|Hne]; simpl; rewrite IH; intuition congruence.
Qed.

(** Placing [p] before the sibling that followed [b] puts it right after [b]. *)
Lemma after_place_following (b p : NodeId) (l : list NodeId) :
  nodup_nodes l = true -> In b l -> p <> b ->
  head (after b l) <> Some p ->
  after b (place p (head (after b l)) (remove_node p l))
  = p :: after b (remove_node p l).
Proof.
  induction l as [|a t IH]; simpl; intros Hnd Hin Hpb Hhead; [tauto|].
  apply andb_prop in Hnd as [Hna Hnd].
  apply negb_true_iff, mem_node_false in Hna.
  destruct (Nat.eqb_spec a b) as [->|Hab].
  - (* [b] heads the list *)
    destruct (Nat.eqb_spec b p) as [->|_]; [congruence|].
    destruct t as [|r t']; simpl.
    + now rewrite Nat.eqb_refl.
    + simpl in Hhead.
      destruct (Nat.eqb_spec r p) as [->|Hrp]; [congruence|].
      simpl. destruct (Nat.eqb_spec b r) as [->|Hbr]; [exfalso; apply Hna; now left|].
      rewrite Nat.eqb_refl. simpl. now rewrite Nat.eqb_refl.
  - destruct Hin as [->|Hin]; [congruence|].
    destruct (Nat.eqb_spec a p) as [->|Hap].
    + now apply IH.
    + specialize (IH Hnd Hin Hpb Hhead).
      destruct (head (after b t)) as [r|] eqn:Hr; simpl in *.
      * destruct (Nat.eqb_spec a r) as [->|Har].
        { exfalso. apply Hna. now apply (head_after_in b). }
        simpl. destruct (Nat.eqb_spec a b); [congruence|]. exact IH.
      * destruct (Nat.eqb_spec a b); [congruence|]. exact IH.
Qed.

(** Placing [p] before [b] makes it the nearest preceding sibling. *)
Lemma before_insert_before (b p : NodeId) (l acc : list NodeId) :
  In b l -> p <> b ->
  before_rev acc b (insert_before p b l) = p :: before_rev acc b l.
Proof.
  revert acc. induction l as [|a t IH]; simpl; intros acc Hin Hpb; [tauto|].
  destruct (Nat.eqb_spec a b) as [->|Hab]; simpl.
  - destruct (Nat.eqb_spec p b); [congruence|]. now rewrite Nat.eqb_refl.
  - destruct (Nat.eqb_spec a b); [congruence|].
    destruct Hin as [->|Hin]; [congruence|]. now apply IH.
Qed.

(** ** The node store *)

Lemma node_at_update_eq (f : Node -> Node) (n : NodeId) (d : Dom) :
  node_at (update_node f n d) n = f <$> node_at d n.
Proof. unfold node_at, update_node. simpl. apply list_lookup_alter_eq. Qed.

Lemma node_at_update_ne (f : Node -> Node) (n m : NodeId) (d : Dom) :
  n <> m -> node_at (update_node f n d) m = node_at d m.
Proof. intros Hne. unfold node_at, update_node. simpl. now apply list_lookup_alter_ne. Qed.

Lemma parent_of_set_children (p : NodeId) (l : list NodeId) (d : Dom) (n : NodeId) :
  parent_of (set_children p l d) n = parent_of d n.
Proof.
  unfold parent_of, set_children. destruct (Nat.eq_dec p n) as [->|Hne].
  - rewrite node_at_update_eq. now destruct (node_at d n).
  - now rewrite node_at_update_ne.
Qed.

Lemma is_element_set_children (p : NodeId) (l : list NodeId) (d : Dom) (n : NodeId) :
  is_element (set_children p l d) n = is_element d n.
Proof.
  unfold is_element, set_children. destruct (Nat.eq_dec p n) as [->|Hne].
  - rewrite node_at_update_eq. now destruct (node_at d n).
  - now rewrite node_at_update_ne.
Qed.

Lemma children_of_set_children_eq (p : NodeId) (l : list NodeId) (d : Dom) :
  node_at d p <> None -> children_of (set_children p l d) p = l.
Proof.
  intros Hex. unfold children_of, set_children. rewrite node_at_update_eq.
  destruct (node_at d p); [reflexivity | congruence].
Qed.

Lemma children_of_set_children_ne (p : NodeId) (l : list NodeId) (d : Dom) (n : NodeId) :
  p <> n -> children_of (set_children p l d) n = children_of d n.
Proof. intros Hne. unfold children_of, set_children. now rewrite node_at_update_ne. Qed.

Lemma children_of_set_parent (x : NodeId) (v : option NodeId) (d : Dom) (n : NodeId) :
  children_of (set_parent x v d) n = children_of d n.
Proof.
  unfold children_of, set_parent. destruct (Nat.eq_dec x n) as [->|Hne].
  - rewrite node_at_update_eq. now destruct (node_at d n).
  - now rewrite node_at_update_ne.
Qed.

Lemma is_element_set_parent (x : NodeId) (v : option NodeId) (d : Dom) (n : NodeId) :
  is_element (set_parent x v d) n = is_element d n.
Proof.
  unfold is_element, set_parent. destruct (Nat.eq_dec x n) as [->|Hne].
  - rewrite node_at_update_eq. now destruct (node_at d n).
  - now rewrite node_at_update_ne.
Qed.

Lemma parent_of_set_parent_ne (x : NodeId) (v : option NodeId) (d : Dom) (n : NodeId) :
  x <> n -> parent_of (set_parent x v d) n = parent_of d n.
Proof. intros Hne. unfold parent_of, set_parent. now rewrite node_at_update_ne. Qed.

Lemma node_at_set_children_some (p : NodeId) (l : list NodeId) (d : Dom) (n : NodeId) :
  node_at d n <> None -> node_at (set_children p l d) n <> None.
Proof.
  intros Hex. unfold set_children. destruct (Nat.eq_dec p n) as [->|Hne].
  - rewrite node_at_update_eq. now destruct (node_at d n).
  - now rewrite node_at_update_ne.
Qed.

Lemma node_at_set_parent_some (x : NodeId) (v : option NodeId) (d : Dom) (n : NodeId) :
  node_at d n <> None -> node_at (set_parent x v d) n <> None.
Proof.
  intros Hex. unfold set_parent. destruct (Nat.eq_dec x n) as [->|Hne].
  - rewrite node_at_update_eq. now destruct (node_at d n).
  - now rewrite node_at_update_ne.
Qed.

Lemma is_element_node (d : Dom) (n : NodeId) :
  is_element d n = true -> node_at d n <> None.
Proof. unfold is_element. destruct (node_at d n); congruence. Qed.

Lemma is_element_kind (d : Dom) (n : NodeId) :
  is_element d n = true <-> kind_of d n = Some ElementNode.
Proof.
  unfold is_element, kind_of. destruct (node_at d n) as [x|]; simpl.
  - destruct (nodeKind x); split; congruence.
  - split; congruence.
Qed.

(** *** Detaching and attaching *)

Lemma child_links_parent (d : Dom) (p c : NodeId) :
  child_links_ok d p = true -> In c (children_of d p) -> parent_of d c = Some p.
Proof.
  unfold child_links_ok. rewrite forallb_forall. intros Hall Hin.
  specialize (Hall c Hin). destruct (parent_of d c) as [q|]; [|discriminate].
  apply Nat.eqb_eq in Hall. now subst.
Qed.

Lemma detach_is_element (d : Dom) (p n : NodeId) :
  is_element (detach d p) n = is_element d n.
Proof.
  unfold detach. destruct (parent_of d p); [|reflexivity].
  now rewrite is_element_set_parent, is_element_set_children.
Qed.

Lemma detach_parent_ne (d : Dom) (p n : NodeId) :
  p <> n -> parent_of (detach d p) n = parent_of d n.
Proof.
  intros Hne. unfold detach. destruct (parent_of d p); [|reflexivity].
  now rewrite parent_of_set_parent_ne, parent_of_set_children.
Qed.

Lemma detach_node_some (d : Dom) (p n : NodeId) :
  node_at d n <> None -> node_at (detach d p) n <> None.
Proof.
  intros Hex. unfold detach. destruct (parent_of d p); [|assumption].
  now apply node_at_set_parent_some, node_at_set_children_some.
Qed.

(** Detaching [p] removes it from the child list it was in, and from no
    other. *)
Lemma detach_children (d : Dom) (p par : NodeId) :
  child_links_ok d par = true ->
  children_of (detach d p) par = remove_node p (children_of d par).
Proof.
  intros Hlinks. unfold detach. destruct (parent_of d p) as [q|] eqn:Hq.
  - rewrite children_of_set_parent. destruct (Nat.eq_dec q par) as [->|Hne].
    + unfold children_of at 1, set_children. rewrite node_at_update_eq.
      unfold children_of. destruct (node_at d par); reflexivity.
    + rewrite children_of_set_children_ne by assumption.
      symmetry. apply remove_node_notin. intros Hin.
      apply (child_links_parent d par p Hlinks) in Hin. congruence.
  - symmetry. apply remove_node_notin. intros Hin.
    apply (child_links_parent d par p Hlinks) in Hin. congruence.
Qed.

Lemma attach_children (d : Dom) (par n : NodeId) (ref : option NodeId) :
  node_at d par <> None ->
  children_of (attach d par n ref) par = place n ref (children_of d par).
Proof.
  intros Hex. unfold attach. rewrite children_of_set_parent.
  now apply children_of_set_children_eq.
Qed.

Lemma attach_parent_ne (d : Dom) (par n : NodeId) (ref : option NodeId) (m : NodeId) :
  n <> m -> parent_of (attach d par n ref) m = parent_of d m.
Proof.
  intros Hne. unfold attach. now rewrite parent_of_set_parent_ne, parent_of_set_children.
Qed.

Lemma attach_is_element (d : Dom) (par n : NodeId) (ref : option NodeId) (m : NodeId) :
  is_element (attach d par n ref) m = is_element d m.
Proof. unfold attach. now rewrite is_element_set_parent, is_element_set_children. Qed.

(** *** Well-formed documents *)

Lemma wf_dom_node (d : Dom) (n : NodeId) :
  wf_dom d = true -> node_at d n <> None -> wf_node d n = true.
Proof.
  unfold wf_dom. rewrite forallb_forall. intros Hall Hex. apply Hall.
  apply in_seq. split; [lia|]. simpl.
  unfold node_at in Hex. destruct (nodes d !! n) eqn:Hl; [|congruence].
  now apply lookup_lt_Some in Hl.
Qed.

Lemma wf_node_parts (d : Dom) (n : NodeId) :
  wf_node d n = true ->
  child_links_ok d n = true /\ parent_link_ok d n = true
  /\ nodup_nodes (children_of d n) = true.
Proof.
  unfold wf_node. intros Hwf.
  apply andb_prop in Hwf as [Hwf H3]. apply andb_prop in Hwf as [H1 H2]. auto.
Qed.

Lemma parent_of_node (d : Dom) (n p : NodeId) :
  parent_of d n = Some p -> node_at d n <> None.
Proof. unfold parent_of. destruct (node_at d n); congruence. Qed.

Lemma wf_parent_lists_child (d : Dom) (n p : NodeId) :
  wf_dom d = true -> parent_of d n = Some p -> In n (children_of d p).
Proof.
  intros Hwf Hp. pose proof (wf_dom_node d n Hwf (parent_of_node d n p Hp)) as Hn.
  apply wf_node_parts in Hn as (_ & Hlink & _).
  unfold parent_link_ok in Hlink. rewrite Hp in Hlink. now apply mem_node_true.
Qed.

Lemma children_node (d : Dom) (p c : NodeId) :
  In c (children_of d p) -> node_at d p <> None.
Proof. unfold children_of. destruct (node_at d p); simpl; [congruence | tauto]. Qed.

(** ** Where [insertBefore] leaves the inserted node *)

Lemma nextSibling_head (d : Dom) (b par : NodeId) :
  parent_of d b = Some par -> nextSibling d b = head (after b (children_of d par)).
Proof. intros Hp. unfold nextSibling, following_siblings. now rewrite Hp. Qed.

Lemma nextElementSibling_find (d : Dom) (b par : NodeId) :
  parent_of d b = Some par ->
  nextElementSibling d b = find (is_element d) (after b (children_of d par)).
Proof. intros Hp. unfold nextElementSibling, following_siblings. now rewrite Hp. Qed.

Lemma previousElementSibling_find (d : Dom) (b par : NodeId) :
  parent_of d b = Some par ->
  previousElementSibling d b = find (is_element d) (before_rev [] b (children_of d par)).
Proof. intros Hp. unfold previousElementSibling, preceding_siblings. now rewrite Hp. Qed.

Lemma option_node_eqb_eq (a b : option NodeId) :
  option_node_eqb a b = true <-> a = b.
Proof.
  destruct a as [x|], b as [y|]; simpl; try (split; congruence).
  rewrite Nat.eqb_eq. split; congruence.
Qed.

Lemma option_node_eqb_neq (a b : option NodeId) :
  option_node_eqb a b = false <-> a <> b.
Proof.
  rewrite <- option_node_eqb_eq. destruct (option_node_eqb a b); split; congruence.
Qed.

Section Placement.
Variables (d : Dom) (par b p : NodeId).
Hypothesis Hlinks : child_links_ok d par = true.
Hypothesis Hnodup : nodup_nodes (children_of d par) = true.
Hypothesis Hparent : parent_of d b = Some par.
Hypothesis Hchild : In b (children_of d par).
Hypothesis Hpar_el : is_element d par = true.
Hypothesis Hp_el : is_element d p = true.
Hypothesis Hcontains : contains d p par = false.
Hypothesis Hpb : p <> b.

(** [par.insertBefore(p, b.nextSibling)] succeeds and makes [p] the next
    element sibling of [b]. *)
Lemma insertBefore_following :
  nextElementSibling d b <> Some p ->
  exists d',
    insertBefore d par (Some p) (nextSibling d b) = Ok d'
    /\ nextElementSibling d' b = Some p
    /\ parent_of d' b = Some par
    /\ (forall n, is_element d' n = is_element d n).
Proof.
  intros Hnot.
  assert (Hhead : head (after b (children_of d par)) <> Some p).
  { intros Hh. apply Hnot. rewrite (nextElementSibling_find d b par Hparent).
    destruct (after b (children_of d par)) as [|x t]; simpl in *; [discriminate|].
    injection Hh as ->. now rewrite Hp_el. }
  rewrite (nextSibling_head d b par Hparent).
  set (ref := head (after b (children_of d par))) in *.
  exists (recorded (Inserted par p ref) (attach (detach d p) par p ref)).
  assert (Hex : node_at d par <> None) by now apply is_element_node.
  split; [|split; [|split]]; off_record.
  - unfold insertBefore.
    apply is_element_kind in Hpar_el as Hk. rewrite Hk, Hcontains.
    assert (Href : match ref with
                   | Some c => negb (option_node_eqb (parent_of d c) (Some par))
                   | None => false
                   end = false).
    { destruct ref as [c|] eqn:Hc; [|reflexivity].
      apply negb_false_iff, option_node_eqb_eq.
      apply (child_links_parent d par c Hlinks). now apply (head_after_in b). }
    rewrite Href. apply is_element_kind in Hp_el as Hk'. rewrite Hk'.
    assert (Hne : option_node_eqb ref (Some p) = false) by now apply option_node_eqb_neq.
    now rewrite Hne.
  - assert (Hpb' : parent_of (attach (detach d p) par p ref) b = Some par).
    { rewrite attach_parent_ne, detach_parent_ne by assumption. exact Hparent. }
    rewrite (nextElementSibling_find _ b par Hpb').
    rewrite attach_children by now apply detach_node_some.
    rewrite detach_children by assumption.
    unfold ref. rewrite after_place_following by assumption.
    simpl. now rewrite attach_is_element, detach_is_element, Hp_el.
  - rewrite attach_parent_ne, detach_parent_ne by assumption. exact Hparent.
  - intros n. off_record. now rewrite attach_is_element, detach_is_element.
Qed.

(** [par.insertBefore(p, b)] succeeds and makes [p] the previous element
    sibling of [b]. *)
Lemma insertBefore_preceding :
  exists d',
    insertBefore d par (Some p) (Some b) = Ok d'
    /\ previousElementSibling d' b = Some p
    /\ parent_of d' b = Some par
    /\ (forall n, is_element d' n = is_element d n).
Proof.
  exists (recorded (Inserted par p (Some b)) (attach (detach d p) par p (Some b))).
  assert (Hex : node_at d par <> None) by now apply is_element_node.
  split; [|split; [|split]]; off_record.
  - unfold insertBefore.
    apply is_element_kind in Hpar_el as Hk. rewrite Hk, Hcontains.
    assert (Href : negb (option_node_eqb (parent_of d b) (Some par)) = false).
    { apply negb_false_iff. now apply option_node_eqb_eq. }
    rewrite Href. apply is_element_kind in Hp_el as Hk'. rewrite Hk'.
    assert (Hne : option_node_eqb (Some b) (Some p) = false).
    { apply option_node_eqb_neq. congruence. }
    now rewrite Hne.
  - assert (Hpb' : parent_of (attach (detach d p) par p (Some b)) b = Some par).
    { rewrite attach_parent_ne, detach_parent_ne by assumption. exact Hparent. }
    rewrite (previousElementSibling_find _ b par Hpb').
    rewrite attach_children by now apply detach_node_some.
    rewrite detach_children by assumption.
    simpl. rewrite before_insert_before.
    + simpl. now rewrite attach_is_element, detach_is_element, Hp_el.
    + apply remove_node_in. split; [assumption | congruence].
    + assumption.
  - rewrite attach_parent_ne, detach_parent_ne by assumption. exact Hparent.
  - intros n. off_record. now rewrite attach_is_element, detach_is_element.
Qed.

End Placement.

(** ** Well-formedness is kept *)

Lemma wf_dom_all (d : Dom) : wf_dom d = true <-> forall n, wf_node d n = true.
Proof.
  split.
  - intros Hwf n. destruct (node_at d n) eqn:Hn.
    + apply wf_dom_node; [assumption | congruence].
    + unfold wf_node, child_links_ok, parent_link_ok, children_of, parent_of.
      now rewrite Hn.
  - intros Hall. unfold wf_dom. apply forallb_forall. intros n _. apply Hall.
Qed.

Lemma child_links_ok_iff (d : Dom) (p : NodeId) :
  child_links_ok d p = true <-> forall c, In c (children_of d p) -> parent_of d c = Some p.
Proof.
  split; [intros H c; now apply child_links_parent|].
  intros Hall. unfold child_links_ok. apply forallb_forall. intros c Hin.
  rewrite (Hall c Hin). apply Nat.eqb_refl.
Qed.

Lemma parent_link_ok_iff (d : Dom) (n : NodeId) :
  parent_link_ok d n = true <-> forall p, parent_of d n = Some p -> In n (children_of d p).
Proof.
  unfold parent_link_ok. destruct (parent_of d n) as [q|].
  - rewrite mem_node_true. split; [intros H p Hp; congruence | intros H; now apply H].
  - split; [intros _ p Hp; discriminate | reflexivity].
Qed.

Lemma wf_node_iff (d : Dom) (n : NodeId) :
  wf_node d n = true
  <-> (forall c, In c (children_of d n) -> parent_of d c = Some n)
      /\ (forall p, parent_of d n = Some p -> In n (children_of d p))
      /\ nodup_nodes (children_of d n) = true.
Proof.
  unfold wf_node. rewrite !andb_true_iff, child_links_ok_iff, parent_link_ok_iff. tauto.
Qed.

Lemma nodup_remove_node (p : NodeId) (l : list NodeId) :
  nodup_nodes l = true -> nodup_nodes (remove_node p l) = true.
Proof.
  induction l as [|a t IH]; simpl; [reflexivity|]. intros Hnd.
  apply andb_prop in Hnd as [Ha Hnd]. destruct (Nat.eqb a p); [now apply IH|].
  simpl. rewrite IH by assumption. rewrite andb_true_r.
  apply negb_true_iff, mem_node_false. apply negb_true_iff, mem_node_false in Ha.
  intros Hin. apply remove_node_in in Hin. tauto.
Qed.

Lemma place_in (x : NodeId) (ref : option NodeId) (l : list NodeId) (y : NodeId) :
  In y (place x ref l) <-> y = x \/ In y l.
Proof.
  destruct ref as [r|]; simpl.
  - induction l as [|a t IH]; simpl; [intuition congruence|].
    destruct (Nat.eqb a r); simpl; [intuition congruence|]. rewrite IH. intuition congruence.
  - rewrite in_app_iff. simpl. intuition congruence.
Qed.

Lemma nodup_place (x : NodeId) (ref : option NodeId) (l : list NodeId) :
  nodup_nodes l = true -> ~ In x l -> nodup_nodes (place x ref l) = true.
Proof.
  intros Hnd Hx. destruct ref as [r|]; simpl.
  - induction l as [|a t IH]; simpl; [reflexivity|].
    simpl in Hnd. apply andb_prop in Hnd as [Ha Hnd].
    destruct (Nat.eqb a r); simpl.
    + rewrite Ha, Hnd. simpl.
      assert (Hm : mem_node x (a :: t) = false) by now apply mem_node_false.
      simpl in Hm. now rewrite Hm.
    + rewrite IH; [|assumption | intros Hin; apply Hx; now right].
      rewrite andb_true_r. apply negb_true_iff, mem_node_false.
      apply negb_true_iff, mem_node_false in Ha. intros Hin.
      apply (place_in x (Some r)) in Hin. destruct Hin as [->|Hin]; [|tauto].
      apply Hx. now left.
  - induction l as [|a t IH]; simpl; [reflexivity|].
    simpl in Hnd. apply andb_prop in Hnd as [Ha Hnd].
    rewrite IH; [|assumption | intros Hin; apply Hx; now right].
    rewrite andb_true_r. apply negb_true_iff, mem_node_false.
    apply negb_true_iff, mem_node_false in Ha. intros Hin.
    apply in_app_iff in Hin. destruct Hin as [Hin|[->|[]]]; [tauto|].
    apply Hx. now left.
Qed.

Lemma parent_of_set_parent_eq (x : NodeId) (v : option NodeId) (d : Dom) :
  node_at d x <> None -> parent_of (set_parent x v d) x = v.
Proof.
  intros Hex. unfold parent_of, set_parent. rewrite node_at_update_eq.
  destruct (node_at d x); [reflexivity | congruence].
Qed.

Lemma detach_parent_eq (d : Dom) (p : NodeId) : parent_of (detach d p) p = None.
Proof.
  unfold detach. destruct (parent_of d p) as [q|] eqn:Hq; [|exact Hq].
  apply parent_of_set_parent_eq, node_at_set_children_some.
  now apply (parent_of_node d p q).
Qed.

(** Taking a node out of its parent keeps the store well formed. *)
Lemma detach_wf (d : Dom) (p : NodeId) : wf_dom d = true -> wf_dom (detach d p) = true.
Proof.
  rewrite !wf_dom_all. intros Hwf n.
  assert (Hch : forall m, children_of (detach d p) m = remove_node p (children_of d m)).
  { intros m. apply detach_children. specialize (Hwf m). unfold wf_node in Hwf.
    apply andb_prop in Hwf as [Hwf _]. now apply andb_prop in Hwf as [Hwf _]. }
  apply wf_node_iff. pose proof (Hwf n) as Hn. apply wf_node_iff in Hn as (Hc & Hp & Hnd).
  split; [|split].
  - intros c Hin. rewrite Hch in Hin. apply remove_node_in in Hin as [Hin Hne].
    rewrite detach_parent_ne by congruence. now apply Hc.
  - intros q Hq. destruct (Nat.eq_dec p n) as [->|Hne].
    + rewrite detach_parent_eq in Hq. discriminate.
    + rewrite detach_parent_ne in Hq by assumption. rewrite Hch.
      apply remove_node_in. split; [now apply Hp | congruence].
  - rewrite Hch. now apply nodup_remove_node.
Qed.

Lemma attach_parent_eq (d : Dom) (par n : NodeId) (ref : option NodeId) :
  node_at d n <> None -> parent_of (attach d par n ref) n = Some par.
Proof.
  intros Hex. unfold attach. now apply parent_of_set_parent_eq, node_at_set_children_some.
Qed.

Lemma attach_children_ne (d : Dom) (par n : NodeId) (ref : option NodeId) (m : NodeId) :
  par <> m -> children_of (attach d par n ref) m = children_of d m.
Proof.
  intros Hne. unfold attach. rewrite children_of_set_parent.
  now apply children_of_set_children_ne.
Qed.

(** Putting a parentless node into a child list keeps it well formed. *)
Lemma attach_wf (d : Dom) (par p : NodeId) (ref : option NodeId) :
  wf_dom d = true -> parent_of d p = None ->
  node_at d p <> None -> node_at d par <> None ->
  wf_dom (attach d par p ref) = true.
Proof.
  rewrite !wf_dom_all. intros Hwf Hnone Hp Hpar n.
  assert (Hfree : forall m, ~ In p (children_of d m)).
  { intros m Hin. pose proof (Hwf m) as Hm. apply wf_node_iff in Hm as (Hc & _).
    rewrite (Hc p Hin) in Hnone. discriminate. }
  apply wf_node_iff. pose proof (Hwf n) as Hn. apply wf_node_iff in Hn as (Hc & Hpl & Hnd).
  split; [|split].
  - intros c Hin. destruct (Nat.eq_dec par n) as [->|Hne].
    + rewrite attach_children in Hin by assumption. apply place_in in Hin as [->|Hin].
      * now apply attach_parent_eq.
      * rewrite attach_parent_ne; [now apply Hc|]. intros ->. now apply (Hfree n).
    + rewrite attach_children_ne in Hin by assumption.
      rewrite attach_parent_ne; [now apply Hc|]. intros ->. now apply (Hfree n).
  - intros q Hq. destruct (Nat.eq_dec p n) as [->|Hne].
    + rewrite attach_parent_eq in Hq by assumption. injection Hq as <-.
      rewrite attach_children by assumption. apply place_in. now left.
    + rewrite attach_parent_ne in Hq by assumption.
      destruct (Nat.eq_dec par q) as [->|Hne'].
      * rewrite attach_children by assumption. apply place_in. right. now apply Hpl.
      * rewrite attach_children_ne by assumption. now apply Hpl.
  - destruct (Nat.eq_dec par n) as [->|Hne].
    + rewrite attach_children by assumption. apply nodup_place; [assumption | apply Hfree].
    + now rewrite attach_children_ne.
Qed.

Lemma kind_of_node (d : Dom) (n : NodeId) (k : NodeKind) :
  kind_of d n = Some k -> node_at d n <> None.
Proof. unfold kind_of. destruct (node_at d n); simpl; congruence. Qed.

(** [insertBefore] and [removeChild] keep the store well formed. *)
Lemma insertBefore_wf (d d' : Dom) (par : NodeId) (node child : option NodeId) :
  wf_dom d = true -> insertBefore d par node child = Ok d' -> wf_dom d' = true.
Proof.
  intros Hwf. unfold insertBefore. destruct node as [n|]; [|discriminate].
  destruct (kind_of d par) as [pk|] eqn:Hpk; [|discriminate].
  assert (Hpar : node_at d par <> None) by now apply (kind_of_node d par pk).
  assert (Hdone : forall ref, kind_of d n <> None ->
                              wf_dom (attach (detach d n) par n ref) = true).
  { intros ref Hk. apply attach_wf.
    - now apply detach_wf.
    - apply detach_parent_eq.
    - apply detach_node_some. destruct (kind_of d n) eqn:Hkn; [|congruence].
      now apply (kind_of_node d n n0).
    - now apply detach_node_some. }
  destruct pk; try discriminate;
    destruct (contains d n par); try discriminate;
    destruct (match child with Some c => _ | None => false end); try discriminate;
    destruct (kind_of d n) as [[]|] eqn:Hk; try discriminate;
    try (destruct (existsb (is_element d) (children_of d par)); try discriminate);
    intros Hok; injection Hok as <-; apply Hdone; congruence.
Qed.

Lemma removeChild_wf (d d' : Dom) (par : NodeId) (child : option NodeId) :
  wf_dom d = true -> removeChild d par child = Ok d' -> wf_dom d' = true.
Proof.
  intros Hwf. unfold removeChild. destruct child as [c|]; [|discriminate].
  destruct (option_node_eqb (parent_of d c) (Some par)); [|discriminate].
  intros Hok. injection Hok as <-. now apply detach_wf.
Qed.

(** A positioning tick keeps the page well formed, however it ends. *)
Lemma handleDragOver_wf `{SelectorEngine} (e : Event) (w : World) :
  wf_dom (dom w) = true -> wf_dom (dom (fst (handleDragOver e w))) = true.
Proof.
  intros Hwf.
  unfold handleDragOver, bind, emit, get_dom, get_self, lift, on_dom, bind, get_dom, lift,
    put_dom, modify_self. simpl.
  destruct (closest (dom w) (target e) (managed_selector (dom w) (self w)))
    as [[below|]|err]; simpl; try assumption.
  destruct (_ || _); simpl; [assumption|].
  destruct (positionPlaceholder (dom w) (self w) e below) as [d'|err] eqn:Hpos; simpl;
    [|assumption].
  assert (Hwf' : wf_dom d' = true).
  { unfold positionPlaceholder in Hpos.
    repeat match type of Hpos with
           | (if ?c then _ else _) = _ => destruct c
           | match ?x with _ => _ end = _ => destruct x
           end;
      try discriminate;
      try (injection Hpos as <-; assumption);
      now apply (insertBefore_wf _ _ _ _ _ Hwf Hpos). }
  destruct (placeholder (self w)); simpl; [|assumption].
  destruct (dragCallbackDue (self w) below (mouseDirection (self w) e)); simpl;
    [|assumption].
  unfold invoke. destruct (cb_drag (callbacks (options (self w)))); simpl; assumption.
Qed.

(** *** Nodes that are added or relabelled *)

Lemma update_node_parent (f : Node -> Node) (n : NodeId) (d : Dom) (m : NodeId) :
  (forall x, parentNode (f x) = parentNode x) ->
  parent_of (update_node f n d) m = parent_of d m.
Proof.
  intros Hf. unfold parent_of. destruct (Nat.eq_dec n m) as [->|Hne].
  - rewrite node_at_update_eq. destruct (node_at d m); simpl; [apply Hf | reflexivity].
  - now rewrite node_at_update_ne.
Qed.

Lemma update_node_children (f : Node -> Node) (n : NodeId) (d : Dom) (m : NodeId) :
  (forall x, childNodes (f x) = childNodes x) ->
  children_of (update_node f n d) m = children_of d m.
Proof.
  intros Hf. unfold children_of. destruct (Nat.eq_dec n m) as [->|Hne].
  - rewrite node_at_update_eq. destruct (node_at d m); simpl; [apply Hf | reflexivity].
  - now rewrite node_at_update_ne.
Qed.

Lemma wf_dom_same_tree (d d' : Dom) :
  (forall m, parent_of d' m = parent_of d m) ->
  (forall m, children_of d' m = children_of d m) ->
  wf_dom d = true -> wf_dom d' = true.
Proof.
  intros Hp Hc. rewrite !wf_dom_all. intros Hwf n.
  specialize (Hwf n). apply wf_node_iff in Hwf as (H1 & H2 & H3).
  apply wf_node_iff. rewrite Hc. split; [|split].
  - intros c Hin. rewrite Hp. now apply H1.
  - intros p. rewrite Hp, Hc. apply H2.
  - exact H3.
Qed.

Lemma update_node_wf (f : Node -> Node) (n : NodeId) (d : Dom) :
  (forall x, parentNode (f x) = parentNode x) ->
  (forall x, childNodes (f x) = childNodes x) ->
  wf_dom d = true -> wf_dom (update_node f n d) = true.
Proof.
  intros Hp Hc. apply wf_dom_same_tree; intros m;
    [now apply update_node_parent | now apply update_node_children].
Qed.

Lemma classList_add_wf (d d' : Dom) (n : NodeId) (c : string) :
  wf_dom d = true -> classList_add d n c = Ok d' -> wf_dom d' = true.
Proof.
  intros Hwf. unfold classList_add. destruct (is_element d n); [|discriminate].
  destruct (check_token c); [|discriminate].
  destruct (has_class d n c); intros Hok; injection Hok as <-; [assumption|].
  now apply update_node_wf.
Qed.

Lemma classList_remove_wf (d d' : Dom) (n : NodeId) (c : string) :
  wf_dom d = true -> classList_remove d n c = Ok d' -> wf_dom d' = true.
Proof.
  intros Hwf. unfold classList_remove. destruct (is_element d n); [|discriminate].
  destruct (check_token c); [|discriminate].
  intros Hok; injection Hok as <-. now apply update_node_wf.
Qed.

Lemma setAttribute_wf (d d' : Dom) (n : NodeId) (k v : string) :
  wf_dom d = true -> setAttribute d n k v = Ok d' -> wf_dom d' = true.
Proof.
  intros Hwf. unfold setAttribute. destruct (is_element d n); [|discriminate].
  intros Hok; injection Hok as <-. now apply update_node_wf.
Qed.

Lemma setStyle_wf (d d' : Dom) (n : NodeId) (k v : string) :
  wf_dom d = true -> setStyle d n k v = Ok d' -> wf_dom d' = true.
Proof.
  intros Hwf. unfold setStyle. destruct (is_element d n); [|discriminate].
  intros Hok; injection Hok as <-. now apply update_node_wf.
Qed.

Lemma node_at_add_old (x : Node) (d : Dom) (m : NodeId) :
  node_at d m <> None -> node_at (add_node x d) m = node_at d m.
Proof.
  intros Hex. unfold node_at, add_node in *. simpl.
  destruct (nodes d !! m) eqn:Hm; [|congruence].
  apply lookup_app_l_Some. exact Hm.
Qed.

Lemma node_at_add_new (x : Node) (d : Dom) :
  node_at (add_node x d) (fresh_id d) = Some x.
Proof.
  unfold node_at, add_node, fresh_id. simpl.
  rewrite lookup_app_r by lia. now rewrite Nat.sub_diag.
Qed.

Lemma node_at_add_beyond (x : Node) (d : Dom) (m : NodeId) :
  node_at d m = None -> m <> fresh_id d -> node_at (add_node x d) m = None.
Proof.
  intros Hm Hne. unfold node_at, add_node, fresh_id in *. simpl.
  apply lookup_ge_None. apply lookup_ge_None in Hm. rewrite length_app. simpl. lia.
Qed.

Lemma fresh_id_free (d : Dom) : node_at d (fresh_id d) = None.
Proof. unfold node_at, fresh_id. now apply lookup_ge_None. Qed.

(** Adding a node without parent or children keeps the store well formed. *)
Lemma add_node_wf (x : Node) (d : Dom) :
  parentNode x = None -> childNodes x = [] ->
  wf_dom d = true -> wf_dom (add_node x d) = true.
Proof.
  intros Hxp Hxc.
  assert (Hlook : forall m,
             (node_at d m <> None /\ node_at (add_node x d) m = node_at d m)
             \/ (node_at d m = None /\ m = fresh_id d /\ node_at (add_node x d) m = Some x)
             \/ (node_at d m = None /\ node_at (add_node x d) m = None)).
  { intros m. destruct (node_at d m) eqn:Hm.
    - left. split; [congruence|]. rewrite node_at_add_old; congruence.
    - destruct (Nat.eq_dec m (fresh_id d)) as [->|Hne].
      + right. left. repeat split. apply node_at_add_new.
      + right. right. split; [reflexivity|]. now apply node_at_add_beyond. }
  apply wf_dom_same_tree; intros m.
  - unfold parent_of. destruct (Hlook m) as [[_ ->]|[(-> & _ & ->)|[-> ->]]];
      [reflexivity | exact Hxp | reflexivity].
  - unfold children_of. destruct (Hlook m) as [[_ ->]|[(-> & _ & ->)|[-> ->]]];
      [reflexivity | exact Hxc | reflexivity].
Qed.

Lemma createElement_wf (d : Dom) (tag : string) :
  wf_dom d = true -> wf_dom (fst (createElement d tag)) = true.
Proof. intros Hwf. unfold createElement. simpl. now apply add_node_wf. Qed.

Lemma createTextNode_wf (d : Dom) (data : string) :
  wf_dom d = true -> wf_dom (fst (createTextNode d data)) = true.
Proof. intros Hwf. unfold createTextNode. simpl. now apply add_node_wf. Qed.

Lemma attach_node_other (d : Dom) (par n : NodeId) (ref : option NodeId) (m : NodeId) :
  par <> m -> n <> m -> node_at (attach d par n ref) m = node_at d m.
Proof.
  intros H1 H2. unfold attach, set_parent, set_children.
  now rewrite !node_at_update_ne.
Qed.

Lemma attach_node_some (d : Dom) (par n : NodeId) (ref : option NodeId) (m : NodeId) :
  node_at d m <> None -> node_at (attach d par n ref) m <> None.
Proof.
  intros Hex. unfold attach. now apply node_at_set_parent_some, node_at_set_children_some.
Qed.

(** Cloning a subtree keeps the store well formed, leaves the nodes that
    were there as they were, and yields a new node without a parent. *)
Lemma cloneNode_upto_wf (fuel : nat) :
  forall (d : Dom) (n : NodeId),
    wf_dom d = true ->
    wf_dom (fst (cloneNode_upto fuel d n)) = true
    /\ (forall m, node_at d m <> None ->
                  node_at (fst (cloneNode_upto fuel d n)) m = node_at d m)
    /\ (forall c, snd (cloneNode_upto fuel d n) = Some c ->
                  node_at d c = None
                  /\ node_at (fst (cloneNode_upto fuel d n)) c <> None
                  /\ parent_of (fst (cloneNode_upto fuel d n)) c = None).
Proof.
  induction fuel as [|f IH]; intros d n Hwf; cbn [cloneNode_upto].
  - simpl. repeat split; try assumption; intros; discriminate.
  - destruct (node_at d n) as [x|] eqn:Hx.
    2:{ simpl. repeat split; try assumption; intros; discriminate. }
    set (id := fresh_id d).
    set (d0 := add_node (with_parentNode None (with_childNodes [] x)) d).
    set (step := fun (acc : Dom) (c : NodeId) =>
                   match cloneNode_upto f acc c with
                   | (d1, Some c') => attach d1 id c' None
                   | (d1, None) => d1
                   end).
    assert (Hfold : forall (l : list NodeId) (acc : Dom),
               wf_dom acc = true ->
               (forall m, node_at d m <> None -> node_at acc m = node_at d m) ->
               node_at acc id <> None -> parent_of acc id = None ->
               wf_dom (fold_left step l acc) = true
               /\ (forall m, node_at d m <> None ->
                             node_at (fold_left step l acc) m = node_at d m)
               /\ node_at (fold_left step l acc) id <> None
               /\ parent_of (fold_left step l acc) id = None).
    { induction l as [|c l IHl]; intros acc Hacc Hold Hid Hidp; [simpl; auto|].
      cbn [fold_left]. unfold step at 2 4 6 8.
      destruct (IH acc c Hacc) as (Hw1 & Hold1 & Hnew1).
      destruct (cloneNode_upto f acc c) as [d1 [c'|]]; simpl in *.
      - destruct (Hnew1 c' eq_refl) as (Hfresh & Hex & Hpar).
        assert (Hid1 : node_at d1 id = node_at acc id) by now apply Hold1.
        apply IHl.
        + apply attach_wf; try assumption. congruence.
        + intros m Hm. rewrite attach_node_other.
          * rewrite Hold1 by (rewrite Hold; assumption). now apply Hold.
          * intros <-. apply Hm. apply fresh_id_free.
          * intros <-. rewrite <- Hold in Hm by assumption. congruence.
        + apply attach_node_some. congruence.
        + rewrite attach_parent_ne; [|intros ->; congruence].
          unfold parent_of in *. now rewrite Hid1.
      - assert (Hid1 : node_at d1 id = node_at acc id) by now apply Hold1.
        apply IHl.
        + assumption.
        + intros m Hm. rewrite Hold1 by (rewrite Hold; assumption). now apply Hold.
        + congruence.
        + unfold parent_of in *. now rewrite Hid1. }
    assert (Hid0 : node_at d0 id = Some (with_parentNode None (with_childNodes [] x))).
    { apply node_at_add_new. }
    destruct (Hfold (childNodes x) d0) as (Hw & Hold & Hid & Hidp).
    + now apply add_node_wf.
    + intros m Hm. now apply node_at_add_old.
    + congruence.
    + unfold parent_of. now rewrite Hid0.
    + simpl. split; [exact Hw|]. split; [exact Hold|].
      intros c Hc. injection Hc as <-. split; [apply fresh_id_free | split; assumption].
Qed.

Lemma cloneNode_wf (d : Dom) (n : NodeId) :
  wf_dom d = true -> wf_dom (fst (cloneNode d n)) = true.
Proof. intros Hwf. unfold cloneNode. now apply cloneNode_upto_wf. Qed.

(** *** Every transition keeps the page well formed *)

Lemma keeps_wf_bind {A B : Type} (m : M A) (k : A -> M B) :
  keeps_wf m -> (forall a, keeps_wf (k a)) -> keeps_wf (bind m k).
Proof.
  intros Hm Hk w Hw. unfold bind. specialize (Hm w Hw).
  destruct (m w) as [w' [a|err]]; simpl in *; [|exact Hm].
  now apply Hk.
Qed.

Lemma keeps_wf_get_dom {B : Type} (k : Dom -> M B) :
  (forall d, wf_dom d = true -> keeps_wf (k d)) -> keeps_wf (bind get_dom k).
Proof. intros Hk w Hw. unfold bind, get_dom. now apply Hk. Qed.

Lemma keeps_wf_same {A : Type} (m : M A) :
  (forall w, dom (fst (m w)) = dom w) -> keeps_wf m.
Proof. intros Hm w Hw. now rewrite Hm. Qed.

Lemma keeps_wf_put_dom (d : Dom) : wf_dom d = true -> keeps_wf (put_dom d).
Proof. intros Hd w _. exact Hd. Qed.

Lemma keeps_wf_on_dom (f : Dom -> Result Dom) :
  (forall d d', wf_dom d = true -> f d = Ok d' -> wf_dom d' = true) ->
  keeps_wf (on_dom f).
Proof.
  intros Hf w Hw. unfold on_dom, bind, get_dom, lift, put_dom. simpl.
  destruct (f (dom w)) as [d'|err] eqn:Hfd; simpl; [|exact Hw].
  now apply (Hf (dom w)).
Qed.

Lemma keeps_wf_forEach {A : Type} (l : list A) (f : A -> M unit) :
  (forall x, keeps_wf (f x)) -> keeps_wf (forEach l f).
Proof.
  intros Hf. induction l as [|x r IH]; [now intros w|].
  cbn [forEach]. apply keeps_wf_bind; [apply Hf | intros _; exact IH].
Qed.

Ltac same_page := apply keeps_wf_same; intros ?; reflexivity.

Lemma keeps_wf_invoke (name : CallbackName) (cb : option Callback) (args : list Value) :
  keeps_wf (invoke name cb args).
Proof.
  unfold invoke. destruct cb; [|same_page].
  apply keeps_wf_bind; [same_page | intros _; same_page].
Qed.

Lemma keeps_wf_log (msg : string) : keeps_wf (log msg).
Proof.
  unfold log. apply keeps_wf_bind; [same_page|]. intros i.
  destruct (debug (options i)); same_page.
Qed.

Lemma keeps_wf_addClasses (element : option NodeId) (classes : option string) :
  keeps_wf (addClasses element classes).
Proof.
  unfold addClasses. destruct (truthy classes); [|same_page].
  apply keeps_wf_forEach. intros cls. destruct element; [|same_page].
  apply keeps_wf_on_dom. intros d d' Hd. now apply classList_add_wf.
Qed.

Lemma keeps_wf_removeClasses (element : option NodeId) (classes : option string) :
  keeps_wf (removeClasses element classes).
Proof.
  unfold removeClasses. destruct (truthy classes); [|same_page].
  apply keeps_wf_forEach. intros cls. destruct element; [|same_page].
  apply keeps_wf_on_dom. intros d d' Hd. now apply classList_remove_wf.
Qed.

Section Transitions.
Context `{SelectorEngine}.

Lemma keeps_wf_bindEvents : keeps_wf bindEvents.
Proof.
  unfold bindEvents. apply keeps_wf_get_dom. intros d _.
  apply keeps_wf_bind; [same_page|]. intros i.
  apply keeps_wf_bind; [same_page|]. intros [p|]; [|apply keeps_wf_log].
  repeat (apply keeps_wf_bind; [same_page | intros _]). same_page.
Qed.

Lemma keeps_wf_init : keeps_wf init.
Proof.
  unfold init. apply keeps_wf_bind; [apply keeps_wf_bindEvents | intros _].
  apply keeps_wf_bind; [same_page|]. intros i.
  apply keeps_wf_forEach. intros element.
  apply keeps_wf_bind; [|intros _];
    apply keeps_wf_on_dom; intros d d' Hd;
    [now apply setAttribute_wf | now apply classList_add_wf].
Qed.

Lemma keeps_wf_constructor (elementOrSelector : CtorArg) (opts : UserOptions) :
  keeps_wf (constructor elementOrSelector opts).
Proof.
  unfold constructor. apply keeps_wf_get_dom. intros d _.
  apply keeps_wf_bind.
  - destruct elementOrSelector; try same_page.
    + apply keeps_wf_bind; [same_page | intros l; same_page].
    + destruct (is_element d n); same_page.
  - intros [l|]; [|same_page].
    repeat (apply keeps_wf_bind; [same_page | intros _]). apply keeps_wf_init.
Qed.

Lemma keeps_wf_createPlaceholder : keeps_wf createPlaceholder.
Proof.
  unfold createPlaceholder. apply keeps_wf_bind; [same_page|]. intros i.
  apply keeps_wf_get_dom. intros d Hd.
  pose proof (createElement_wf d (as_string (tagNameCopy i)) Hd) as Hd1.
  destruct (createElement d (as_string (tagNameCopy i))) as [d1 ph]. simpl in Hd1.
  apply keeps_wf_bind; [now apply keeps_wf_put_dom | intros _].
  apply keeps_wf_bind; [same_page | intros _].
  apply keeps_wf_bind.
  - destruct (option_eqb String.eqb (tagNameCopy i) (Some "TR")); [|same_page].
    apply keeps_wf_get_dom. intros d' Hd'.
    pose proof (createElement_wf d' "td" Hd') as Hd2.
    destruct (createElement d' "td") as [d2 td]. simpl in Hd2.
    apply keeps_wf_bind; [now apply keeps_wf_put_dom | intros _].
    apply keeps_wf_bind.
    { destruct (draggedItem i); [|same_page]. destruct (is_element d2 n); same_page. }
    intros colCount.
    apply keeps_wf_bind;
      [apply keeps_wf_on_dom; intros x y Hx; now apply setAttribute_wf | intros _].
    apply keeps_wf_get_dom. intros d'' Hd''.
    pose proof (createTextNode_wf d'' " " Hd'') as Hd3.
    destruct (createTextNode d'' " ") as [d3 txt]. simpl in Hd3.
    apply keeps_wf_bind; [now apply keeps_wf_put_dom | intros _].
    apply keeps_wf_bind; [|intros _];
      apply keeps_wf_on_dom; intros x y Hx; unfold appendChild; now apply insertBefore_wf.
  - intros _.
    apply keeps_wf_bind;
      [apply keeps_wf_on_dom; intros x y Hx; now apply classList_add_wf | intros _].
    apply keeps_wf_bind;
      [apply keeps_wf_on_dom; intros x y Hx; now apply classList_add_wf | intros _].
    destruct (dropIndicator (options i)); [|same_page].
    apply keeps_wf_on_dom; intros x y Hx; now apply classList_add_wf.
Qed.

Lemma keeps_wf_setCustomDragImage (e : Event) : keeps_wf (setCustomDragImage e).
Proof.
  unfold setCustomDragImage. apply keeps_wf_bind; [same_page|]. intros i.
  apply keeps_wf_get_dom. intros d Hd.
  destruct (draggedItem i) as [it|]; [|same_page].
  pose proof (cloneNode_wf d it Hd) as Hd1.
  destruct (cloneNode d it) as [d1 [dragImage|]]; [|same_page]. simpl in Hd1.
  apply keeps_wf_bind; [now apply keeps_wf_put_dom | intros _].
  apply keeps_wf_bind;
    [apply keeps_wf_on_dom; intros x y Hx; now apply classList_add_wf | intros _].
  apply keeps_wf_bind;
    [apply keeps_wf_on_dom; intros x y Hx; now apply classList_add_wf | intros _].
  apply keeps_wf_bind;
    [apply keeps_wf_on_dom; intros x y Hx; now apply setStyle_wf | intros _].
  apply keeps_wf_bind;
    [apply keeps_wf_on_dom; intros x y Hx; now apply setStyle_wf | intros _].
  apply keeps_wf_get_dom. intros d' Hd'.
  destruct (body d') as [b|]; [|same_page].
  apply keeps_wf_bind;
    [apply keeps_wf_on_dom; intros x y Hx; unfold appendChild; now apply insertBefore_wf
    | intros _].
  apply keeps_wf_bind; [same_page | intros _; same_page].
Qed.

Lemma keeps_wf_animationFrame : keeps_wf animationFrame.
Proof.
  intros w Hw. unfold animationFrame. destruct (frames w) as [|dragImage rest]; [exact Hw|].
  destruct (body (dom w)) as [b|]; [|exact Hw].
  now apply (keeps_wf_on_dom (fun d => removeChild d b (Some dragImage))
               (fun x y Hx => removeChild_wf x y b (Some dragImage) Hx)).
Qed.

Lemma keeps_wf_handleDragStart (e : Event) : keeps_wf (handleDragStart e).
Proof.
  unfold handleDragStart. apply keeps_wf_get_dom. intros d _.
  apply keeps_wf_bind; [same_page|]. intros i.
  apply keeps_wf_bind; [same_page|]. intros ok.
  destruct (negb ok); [same_page|].
  apply keeps_wf_bind; [same_page | intros _].
  apply keeps_wf_bind; [same_page | intros tag].
  apply keeps_wf_bind; [same_page | intros _].
  destruct (negb (isValidSortableElement tag)).
  - apply keeps_wf_bind; [same_page | intros _; same_page].
  - apply keeps_wf_bind; [same_page | intros data].
    apply keeps_wf_bind; [same_page | intros _].
    apply keeps_wf_bind; [apply keeps_wf_addClasses | intros _].
    apply keeps_wf_bind; [apply keeps_wf_removeClasses | intros _].
    apply keeps_wf_get_dom. intros d' _.
    apply keeps_wf_bind; [apply keeps_wf_invoke | intros _].
    apply keeps_wf_bind; [apply keeps_wf_createPlaceholder | intros _].
    apply keeps_wf_setCustomDragImage.
Qed.

Lemma keeps_wf_handleDragEnd (e : Event) : keeps_wf (handleDragEnd e).
Proof.
  unfold handleDragEnd. apply keeps_wf_bind; [same_page|]. intros i.
  apply keeps_wf_bind; [apply keeps_wf_removeClasses | intros _].
  apply keeps_wf_get_dom. intros d _.
  apply keeps_wf_bind.
  - destruct (placeholder i) as [ph|]; [|same_page].
    destruct (parent_of d ph) as [par|]; [|same_page].
    apply keeps_wf_on_dom. intros x y Hx. now apply removeChild_wf.
  - intros _. repeat (apply keeps_wf_bind; [same_page | intros _]). same_page.
Qed.

Lemma keeps_wf_handleDragOver (e : Event) : keeps_wf (handleDragOver e).
Proof. intros w. apply handleDragOver_wf. Qed.

Lemma keeps_wf_handleDragEnter (e : Event) : keeps_wf (handleDragEnter e).
Proof.
  unfold handleDragEnter. apply keeps_wf_bind; [same_page | intros _].
  apply keeps_wf_get_dom. intros d _.
  apply keeps_wf_bind; [same_page|]. intros i.
  apply keeps_wf_bind; [same_page|]. intros ok.
  destruct (negb ok); [same_page|].
  apply keeps_wf_bind; [same_page | intros _; same_page].
Qed.

Lemma keeps_wf_handleDrop (e : Event) : keeps_wf (handleDrop e).
Proof.
  unfold handleDrop. apply keeps_wf_bind; [same_page | intros _].
  apply keeps_wf_bind; [same_page|]. intros i.
  destruct (draggedItem i) as [it|]; [|same_page].
  apply keeps_wf_get_dom. intros d _.
  apply keeps_wf_bind; [destruct (placeholder i); same_page|]. intros ph.
  apply keeps_wf_bind.
  { destruct (previousElementSibling d ph); [|same_page].
    apply keeps_wf_bind; [same_page | intros r; same_page]. }
  intros beforeElementData.
  apply keeps_wf_bind; [apply keeps_wf_invoke|]. intros verdict.
  assert (Hgo : keeps_wf
                  (bind match parent_of d ph with
                        | Some par => on_dom (fun d0 => insertBefore d0 par (Some it) (Some ph))
                        | None => throw TypeError
                        end
                        (fun _ => bind (invoke CbDrop (cb_drop (callbacks (options i)))
                                          [VNode it; node_or_null (previousElementSibling d ph);
                                           match draggedItemData i with
                                           | Some r => VData r
                                           | None => VNull
                                           end; beforeElementData;
                                           node_or_null (nextElementSibling d ph)])
                                       (fun _ => ret tt)))).
  { apply keeps_wf_bind.
    - destruct (parent_of d ph); [|same_page].
      apply keeps_wf_on_dom. intros x y Hx. now apply insertBefore_wf.
    - intros _. apply keeps_wf_bind; [apply keeps_wf_invoke | intros _; same_page]. }
  destruct verdict as [[| |[|]| | | | |]|]; try exact Hgo. same_page.
Qed.

Lemma keeps_wf_dispatch (t : EventType) (e : Event) : keeps_wf (dispatch t e).
Proof.
  intros w Hw. unfold dispatch. destruct (existsb _ _); [|exact Hw].
  destruct t; simpl;
    [apply keeps_wf_handleDragStart | apply keeps_wf_handleDragEnd
    | apply keeps_wf_handleDragOver | apply keeps_wf_handleDragEnter
    | apply keeps_wf_handleDrop]; exact Hw.
Qed.

(** Starting from a well-formed page, the page stays well formed through
    construction and every sequence of events and animation frames,
    whether handlers return or throw. *)
Theorem page_stays_well_formed (page : Dom) (elementOrSelector : CtorArg)
    (opts : UserOptions) (rnd : string) (inputs : list Input) :
  wf_dom page = true ->
  wf_dom (dom (run inputs (fst (new_DomMover page elementOrSelector opts rnd)))) = true.
Proof.
  intros Hpage.
  assert (Hstart : wf_dom (dom (fst (new_DomMover page elementOrSelector opts rnd))) = true).
  { unfold new_DomMover. now apply keeps_wf_constructor. }
  revert Hstart. generalize (fst (new_DomMover page elementOrSelector opts rnd)).
  unfold run. induction inputs as [|i inputs IH]; intros w Hw; [exact Hw|].
  cbn [fold_left]. apply IH. destruct i as [t e|]; simpl.
  - now apply keeps_wf_dispatch.
  - now apply keeps_wf_animationFrame.
Qed.

End Transitions.

(** ** Positioning ticks *)

Section Ticks.
Context `{SelectorEngine}.

(** A tick that resolves an element below, distinct from the dragged item
    and the placeholder, and whose positioning step succeeds, completes. *)
Lemma handleDragOver_resolved (e : Event) (w : World) (below ph : NodeId) (d' : Dom) :
  closest (dom w) (target e) (managed_selector (dom w) (self w)) = Ok (Some below) ->
  draggedItem (self w) <> Some below ->
  placeholder (self w) = Some ph ->
  ph <> below ->
  positionPlaceholder (dom w) (self w) e below = Ok d' ->
  handleDragOver e w = (after_tick w e below ph d', Ok tt).
Proof.
  intros Hclosest Hdragged Hph Hne Hpos.
  unfold handleDragOver, bind, emit, get_dom, get_self, lift, on_dom, bind, get_dom, lift,
    put_dom, modify_self. simpl.
  rewrite Hclosest.
  assert (H1 : option_node_eqb (Some below) (draggedItem (self w)) = false).
  { apply option_node_eqb_neq. congruence. }
  assert (H2 : option_node_eqb (Some below) (placeholder (self w)) = false).
  { apply option_node_eqb_neq. rewrite Hph. congruence. }
  simpl in H1, H2. rewrite H1, H2. simpl. rewrite Hpos, Hph. simpl.
  unfold after_tick, tick_dispatch, placeholderPosition.
  destruct (dragCallbackDue (self w) below (mouseDirection (self w) e)); simpl.
  - unfold invoke. destruct (cb_drag (callbacks (options (self w)))); simpl.
    + unfold bind, emit, ret. simpl. reflexivity.
    + now rewrite app_nil_r.
  - now rewrite app_nil_r.
Qed.

(** What [can_place] provides. *)
Lemma can_place_parts (d : Dom) (i : Instance) (below : NodeId) :
  can_place d i below = true ->
  exists ph par,
    placeholder i = Some ph /\ parent_of d below = Some par
    /\ wf_dom d = true /\ is_element d ph = true /\ is_element d par = true
    /\ contains d ph par = false /\ ph <> below.
Proof.
  unfold can_place. intros Hc. apply andb_prop in Hc as [Hwf Hc].
  destruct (placeholder i) as [ph|]; [|discriminate].
  destruct (parent_of d below) as [par|]; [|discriminate].
  apply andb_prop in Hc as [Hc H4]. apply andb_prop in Hc as [Hc H3].
  apply andb_prop in Hc as [H1 H2].
  exists ph, par. repeat split; try assumption.
  - now apply negb_true_iff in H3.
  - apply negb_true_iff in H4. now apply Nat.eqb_neq in H4.
Qed.

(** The positioning step of a tick under way: it succeeds; moving down it
    leaves the placeholder right after [below], moving up right before,
    and without vertical movement it leaves the page alone. *)
Lemma positionPlaceholder_places (d : Dom) (i : Instance) (e : Event) (below ph : NodeId) :
  can_place d i below = true ->
  placeholder i = Some ph ->
  exists d',
    positionPlaceholder d i e below = Ok d'
    /\ ((lastMouseY i < clientY e)%Z -> nextElementSibling d' below = Some ph)
    /\ ((clientY e < lastMouseY i)%Z -> previousElementSibling d' below = Some ph)
    /\ (clientY e = lastMouseY i -> d' = d).
Proof.
  intros Hc Hph.
  destruct (can_place_parts d i below Hc)
    as (ph' & par & Hph' & Hpar & Hwf & Hel & Hpel & Hcont & Hne).
  rewrite Hph in Hph'. injection Hph' as <-.
  pose proof (wf_parent_lists_child d below par Hwf Hpar) as Hin.
  pose proof (wf_dom_node d par Hwf (is_element_node d par Hpel)) as Hwfp.
  apply wf_node_parts in Hwfp as (Hlinks & _ & Hnodup).
  unfold positionPlaceholder. rewrite Hph, Hpar.
  destruct (Z.ltb_spec (lastMouseY i) (clientY e)) as [Hdown|Hnd].
  - destruct (option_node_eqb (nextElementSibling d below) (Some ph)) eqn:Hthere; simpl.
    + apply option_node_eqb_eq in Hthere.
      exists d. split; [reflexivity | split; [|split]]; [now intros _ | lia | reflexivity].
    + apply option_node_eqb_neq in Hthere.
      destruct (insertBefore_following d par below ph Hlinks Hnodup Hpar Hin Hpel Hel
                  Hcont Hne Hthere) as (d' & Hins & Hnext & _ & _).
      exists d'. split; [assumption | split; [|split]]; [now intros _ | lia | lia].
  - destruct (Z.ltb_spec (clientY e) (lastMouseY i)) as [Hup|Hnu].
    + destruct (option_node_eqb (previousElementSibling d below) (Some ph)) eqn:Hthere; simpl.
      * apply option_node_eqb_eq in Hthere.
        exists d. split; [reflexivity | split; [|split]]; [lia | now intros _ | reflexivity].
      * destruct (insertBefore_preceding d par below ph Hlinks Hpar Hin Hpel Hel
                    Hcont Hne) as (d' & Hins & Hprev & _ & _).
        exists d'. split; [assumption | split; [|split]]; [lia | now intros _ | lia].
    + exists d. split; [reflexivity | split; [|split]]; [lia | lia | reflexivity].
Qed.

(** A positioning tick of a gesture under way completes, in the world
    [after_tick] describes. *)
Lemma handleDragOver_places (e : Event) (w : World) (below ph : NodeId) :
  closest (dom w) (target e) (managed_selector (dom w) (self w)) = Ok (Some below) ->
  draggedItem (self w) <> Some below ->
  can_place (dom w) (self w) below = true ->
  placeholder (self w) = Some ph ->
  exists d',
    handleDragOver e w = (after_tick w e below ph d', Ok tt)
    /\ ((lastMouseY (self w) < clientY e)%Z -> nextElementSibling d' below = Some ph)
    /\ ((clientY e < lastMouseY (self w))%Z -> previousElementSibling d' below = Some ph)
    /\ (clientY e = lastMouseY (self w) -> d' = dom w).
Proof.
  intros Hclosest Hdragged Hc Hph.
  destruct (positionPlaceholder_places (dom w) (self w) e below ph Hc Hph)
    as (d' & Hpos & Hdown & Hup & Hsame).
  exists d'. split; [|auto].
  destruct (can_place_parts _ _ _ Hc) as (ph' & par & Hph' & _ & _ & _ & _ & _ & Hne).
  rewrite Hph in Hph'. injection Hph' as <-.
  now apply handleDragOver_resolved.
Qed.

End Ticks.

(** ** Reading a run *)

Lemma calls_app (name : CallbackName) (l1 l2 : list Effect) :
  calls name (l1 ++ l2) = calls name l1 ++ calls name l2.
Proof. unfold calls. apply flat_map_app. Qed.

Lemma direction_eqb_eq (a b : Direction) : direction_eqb a b = true <-> a = b.
Proof. destruct a, b; simpl; split; congruence. Qed.

(** With duplicates suppressed, the callback is due exactly when the
    element below or the direction differs from the stored ones. *)
Lemma option_direction_eqb_neq (a b : option Direction) :
  option_eqb direction_eqb a b = false <-> a <> b.
Proof.
  destruct a as [x|], b as [y|]; simpl; try (split; congruence).
  destruct (direction_eqb x y) eqn:Hxy.
  - apply direction_eqb_eq in Hxy. subst. split; congruence.
  - split; [|reflexivity]. intros _ Heq. injection Heq as ->.
    assert (direction_eqb y y = true) by now apply direction_eqb_eq.
    congruence.
Qed.

Lemma dragCallbackDue_iff (i : Instance) (below : NodeId) (dir : Direction) :
  allowDuplicateCallbacks (options i) = false ->
  dragCallbackDue i below dir = true
  <-> (lastDraggedOver i <> Some below \/ lastMouseDirection i <> Some dir).
Proof.
  intros Hoff. unfold dragCallbackDue.
  rewrite Hoff, orb_false_l, orb_true_iff, !negb_true_iff.
  rewrite option_node_eqb_neq, option_direction_eqb_neq.
  split; intros [Hn|Hn]; solve [left; congruence | right; congruence].
Qed.


(** ** C1: the delegation root *)

Section DelegationRoot.
Context `{SelectorEngine}.

(** While the first managed element is untagged no ancestor qualifies. *)
Lemma allChildren_untagged (d : Dom) (i : Instance) (commonParent el0 : NodeId)
    (rest : list NodeId) :
  is_element d el0 = true ->
  has_class d el0 (instanceId i) = false ->
  allChildren d i commonParent (el0 :: rest) = Ok false.
Proof.
  intros Hel Hcls. cbn [allChildren]. rewrite Hel, Hcls.
  now destruct (negb (contains d commonParent el0)).
Qed.

Lemma getParentElement_untagged (d : Dom) (i : Instance) (el0 : NodeId) (rest : list NodeId) :
  truthy (pickup_parent (pickup (options i))) = None ->
  elements i = el0 :: rest ->
  is_element d el0 = true ->
  has_class d el0 (instanceId i) = false ->
  getParentElement d i PickupScope = Ok None.
Proof.
  intros Hnone Hels Hel Hcls. unfold getParentElement, parent_selector.
  rewrite Hnone, Hels.
  induction (ancestors d el0) as [|commonParent chain IH]; [reflexivity|].
  cbn [getParentElement_loop]. rewrite Hels.
  now rewrite (allChildren_untagged d i commonParent el0 rest Hel Hcls).
Qed.

Lemma keeps_bind {A B : Type} (m : M A) (k : A -> M B) :
  keeps_listeners m -> (forall a, keeps_listeners (k a)) -> keeps_listeners (bind m k).
Proof.
  intros Hm Hk w. unfold bind. specialize (Hm w).
  destruct (m w) as [w' [a|err]]; simpl in *; [|exact Hm].
  now rewrite Hk.
Qed.

Lemma keeps_forEach {A : Type} (l : list A) (f : A -> M unit) :
  (forall x, keeps_listeners (f x)) -> keeps_listeners (forEach l f).
Proof.
  intros Hf. induction l as [|x r IH]; [now intros w|].
  cbn [forEach]. apply keeps_bind; [apply Hf | intros _; exact IH].
Qed.

Lemma keeps_on_dom (f : Dom -> Result Dom) : keeps_listeners (on_dom f).
Proof.
  intros w. unfold on_dom, bind, get_dom, lift, put_dom. simpl. now destruct (f (dom w)).
Qed.

Lemma keeps_modify_self (f : Instance -> Instance) : keeps_listeners (modify_self f).
Proof. now intros w. Qed.

Lemma keeps_log (msg : string) : keeps_listeners (log msg).
Proof.
  intros w. unfold log, bind, get_self. simpl. now destruct (debug (options (self w))).
Qed.

(** [bindEvents] binds nothing when no root is found. *)
Lemma bindEvents_without_root (w : World) :
  getParentElement (dom w) (self w) PickupScope = Ok None ->
  listeners (fst (bindEvents w)) = listeners w.
Proof.
  intros Hroot. unfold bindEvents, bind, get_dom, get_self, lift. simpl.
  rewrite Hroot. apply keeps_log.
Qed.

Lemma init_without_root (w : World) :
  getParentElement (dom w) (self w) PickupScope = Ok None ->
  listeners (fst (init w)) = listeners w.
Proof.
  intros Hroot. unfold init. unfold bind at 1.
  pose proof (bindEvents_without_root w Hroot) as Hb.
  destruct (bindEvents w) as [w' [[]|err]]; simpl in *; [|exact Hb].
  rewrite <- Hb. apply keeps_bind; [now intros w0|].
  intros i. apply keeps_forEach. intros x.
  apply keeps_bind; [apply keeps_on_dom | intros _; apply keeps_on_dom].
Qed.

(** Without a containment selector, a constructor given a selector string
    whose first match does not carry the marker yet binds no listener. *)
Lemma constructor_binds_nothing (page : Dom) (s : string) (opts : UserOptions)
    (rnd : string) (el0 : NodeId) (rest : list NodeId) :
  truthy (pickup_parent (pickup (assign_options opts))) = None ->
  querySelectorAll page s = Ok (el0 :: rest) ->
  has_class page el0 (generateInstanceId rnd) = false ->
  listeners (fst (new_DomMover page (ArgString s) opts rnd)) = [].
Proof.
  intros Hnone Hsel Hcls.
  assert (Hel : is_element page el0 = true).
  { unfold querySelectorAll in Hsel. destruct (parseSelector s); [|discriminate].
    injection Hsel as Hsel.
    assert (Hin : In el0 (el0 :: rest)) by now left.
    rewrite <- Hsel in Hin. apply filter_In in Hin as [_ Hm].
    now apply andb_prop in Hm as [Hm _]. }
  unfold new_DomMover, constructor, bind, get_dom, lift, ret, modify_self. simpl.
  rewrite Hsel. simpl.
  rewrite init_without_root; [reflexivity|]. simpl.
  now apply (getParentElement_untagged page _ el0 rest).
Qed.

(** An instance without listeners receives no event. *)
Lemma dispatch_inert (t : EventType) (e : Event) (w : World) :
  listeners w = [] -> dispatch t e w = (w, Ok tt).
Proof. intros Hl. unfold dispatch. now rewrite Hl. Qed.

End DelegationRoot.

(** C1 fails on the code: [new DomMover('#my-list li')], the README's
    basic usage, on the README's list.  No containment selector is
    configured and the three items share the list as their nearest common
    ancestor, yet the constructor returns with no listener bound:
    [init] binds the events before it tags the elements, so
    [getParentElement] finds no tagged element and no root.  Asked again
    once the elements are tagged, it does return the list (node 4). *)
Theorem C1_basic_usage_binds_nothing :
  let w := fst Examples.basic_usage in
  snd Examples.basic_usage = Ok tt
  /\ pickup_parent (pickup (options (self w))) = None
  /\ elements (self w) = [5; 7; 9]
  /\ forallb (fun n => has_class (dom w) n (instanceId (self w))) (elements (self w)) = true
  /\ listeners w = []
  /\ getParentElement (dom w) (self w) PickupScope = Ok (Some 4)
  /\ dispatch dragstart (mkEvent 5 10) w = (w, Ok tt).
Proof. vm_compute. repeat split. Qed.

(** ** C2: ownership without a containment selector *)

(** C2, as stated, fails: after [new DomMover('#my-list li')] with the
    default options ([pickup.parent] is [null]) the list itself (node 4)
    does not carry the instance marker, and yet [isWithinParent] accepts
    it and [isDraggable] does too. *)
Lemma C2_unmarked_element_is_accepted :
  let w := fst Examples.basic_usage in
  pickup_parent (pickup (options (self w))) = None
  /\ has_class (dom w) 4 (instanceId (self w)) = false
  /\ isWithinParent (dom w) (self w) 4 PickupScope = Ok true
  /\ isDraggable (dom w) (self w) 4 = Ok true.
Proof. vm_compute. repeat split. Qed.

Section Ownership.
Context `{SelectorEngine}.

(** Without a containment selector the loop of [isDraggable] asks each
    node up to [document.body] for the disabled class, and nothing else. *)
Lemma isDraggable_loop_without_selector (d : Dom) (i : Instance) (chain : list NodeId) :
  truthy (pickup_parent (pickup (options i))) = None ->
  isDraggable_loop d i chain = Ok (existsb (carries_disabled d i) (upto_body d chain)).
Proof.
  intros Hnone. induction chain as [|current rest IH]; [reflexivity|].
  cbn [isDraggable_loop upto_body]. rewrite Hnone.
  fold (carries_disabled d i current).
  destruct (option_node_eqb (Some current) (body d));
    cbn [existsb]; destruct (carries_disabled d i current); cbn [orb];
    try reflexivity.
  exact IH.
Qed.

End Ownership.

(** C2, amended: when no containment selector is configured
    ([pickup.parent] is [null], or another falsy value), [isWithinParent]
    returns true for every element, whether it carries the instance
    marker or not; [isDraggable] then rejects an element exactly when the
    element or one of its ancestors up to [document.body] carries the
    disabled class. *)
Theorem C2_ownership_without_selector `{SelectorEngine} (d : Dom) (i : Instance)
    (element : NodeId) :
  truthy (pickup_parent (pickup (options i))) = None ->
  isWithinParent d i element PickupScope = Ok true
  /\ isDraggable d i element
     = Ok (negb (existsb (carries_disabled d i)
                         (upto_body d (element :: ancestors d element)))).
Proof.
  intros Hnone.
  assert (Hwithin : isWithinParent d i element PickupScope = Ok true).
  { unfold isWithinParent, parent_selector. now rewrite Hnone. }
  split; [exact Hwithin|].
  unfold isDraggable. rewrite (isDraggable_loop_without_selector d i _ Hnone).
  destruct (existsb (carries_disabled d i) (upto_body d (element :: ancestors d element)));
    [reflexivity | exact Hwithin].
Qed.

Lemma C2_ownership_without_selector_witness :
  isWithinParent (dom (fst Examples.basic_usage)) (self (fst Examples.basic_usage)) 4
                 PickupScope = Ok true
  /\ isDraggable (dom (fst Examples.basic_usage)) (self (fst Examples.basic_usage)) 4
     = Ok (negb (existsb (carries_disabled (dom (fst Examples.basic_usage))
                                           (self (fst Examples.basic_usage)))
                         (upto_body (dom (fst Examples.basic_usage))
                                    (4 :: ancestors (dom (fst Examples.basic_usage)) 4)))).
Proof.
  apply (C2_ownership_without_selector (dom (fst Examples.basic_usage))
           (self (fst Examples.basic_usage)) 4).
  vm_compute. reflexivity.
Defined.

(** ** C3: where a tick leaves the placeholder *)

(** C3, as stated, fails: in [Examples.over_third] the pointer, 30 pixels
    down the viewport, moves sideways from the third item to the second.
    The tick resolves the second item (node 7), which is neither the
    dragged item nor the placeholder, and infers [down]; it completes, and
    the placeholder (node 10) still follows the third item, not the one
    below the pointer. *)
Lemma C3_sideways_tick_leaves_placeholder :
  let w := Examples.over_third in
  let e := mkEvent 7 30 in
  let r := handleDragOver e w in
  closest (dom w) (target e) (managed_selector (dom w) (self w)) = Ok (Some 7)
  /\ draggedItem (self w) = Some 5
  /\ placeholder (self w) = Some 10
  /\ mouseDirection (self w) e = Down
  /\ snd r = Ok tt
  /\ lastMouseDirection (self (fst r)) = Some Down
  /\ nextElementSibling (dom (fst r)) 7 = Some 9
  /\ nextElementSibling (dom (fst r)) 9 = Some 10
  /\ nextElementSibling (dom (fst r)) 7 <> placeholder (self (fst r)).
Proof. vm_compute. repeat split. discriminate. Qed.

(** C3, amended: a tick of a gesture under way over an element below that
    is neither the dragged item nor the placeholder completes; if the
    pointer's coordinate is greater than the recorded one the placeholder
    ends up as the next element sibling of the element below, if it is
    smaller as the previous element sibling, and if it is equal the page
    is left as it was.  The direction recorded is [up] exactly when the
    coordinate is smaller than the recorded one, [down] otherwise, and the
    coordinate becomes the recorded one. *)
Theorem C3_tick_places_placeholder `{SelectorEngine} (e : Event) (w : World) (below : NodeId) :
  closest (dom w) (target e) (managed_selector (dom w) (self w)) = Ok (Some below) ->
  draggedItem (self w) <> Some below ->
  can_place (dom w) (self w) below = true ->
  exists w',
    handleDragOver e w = (w', Ok tt)
    /\ placeholder (self w') = placeholder (self w)
    /\ ((lastMouseY (self w) < clientY e)%Z ->
        nextElementSibling (dom w') below = placeholder (self w')
        /\ lastMouseDirection (self w') = Some Down)
    /\ ((clientY e < lastMouseY (self w))%Z ->
        previousElementSibling (dom w') below = placeholder (self w')
        /\ lastMouseDirection (self w') = Some Up)
    /\ (clientY e = lastMouseY (self w) ->
        dom w' = dom w /\ lastMouseDirection (self w') = Some Down)
    /\ lastMouseY (self w') = clientY e.
Proof.
  intros Hclosest Hdragged Hc.
  destruct (can_place_parts _ _ _ Hc) as (ph & par & Hph & _).
  destruct (handleDragOver_places e w below ph Hclosest Hdragged Hc Hph)
    as (d' & Hrun & Hdown & Hup & Hsame).
  exists (after_tick w e below ph d'). split; [exact Hrun|].
  unfold after_tick, mouseDirection; simpl. rewrite Hph.
  split; [reflexivity|]. split; [|split; [|split]].
  - intros Hlt. split; [now apply Hdown|].
    destruct (Z.ltb_spec (clientY e) (lastMouseY (self w))); [lia | reflexivity].
  - intros Hlt. split; [now apply Hup|].
    destruct (Z.ltb_spec (clientY e) (lastMouseY (self w))); [reflexivity | lia].
  - intros Heq. split; [now apply Hsame|].
    destruct (Z.ltb_spec (clientY e) (lastMouseY (self w))); [lia | reflexivity].
  - reflexivity.
Qed.

Lemma C3_tick_places_placeholder_witness :
  exists w',
    handleDragOver (mkEvent 7 20) Examples.over_third = (w', Ok tt)
    /\ placeholder (self w') = placeholder (self Examples.over_third)
    /\ ((lastMouseY (self Examples.over_third) < 20)%Z ->
        nextElementSibling (dom w') 7 = placeholder (self w')
        /\ lastMouseDirection (self w') = Some Down)
    /\ ((20 < lastMouseY (self Examples.over_third))%Z ->
        previousElementSibling (dom w') 7 = placeholder (self w')
        /\ lastMouseDirection (self w') = Some Up)
    /\ (20%Z = lastMouseY (self Examples.over_third) ->
        dom w' = dom Examples.over_third /\ lastMouseDirection (self w') = Some Down)
    /\ lastMouseY (self w') = 20%Z.
Proof.
  apply (C3_tick_places_placeholder (mkEvent 7 20) Examples.over_third 7).
  - vm_compute. reflexivity.
  - vm_compute. discriminate.
  - vm_compute. reflexivity.
Defined.

(** ** C4: duplicate suppression *)

Section Duplicates.
Context `{SelectorEngine}.

(** A tick over the stored element below, in the stored direction,
    dispatches nothing, however it ends. *)
Lemma handleDragOver_duplicate_silent (e : Event) (w : World) (below : NodeId) :
  allowDuplicateCallbacks (options (self w)) = false ->
  closest (dom w) (target e) (managed_selector (dom w) (self w)) = Ok (Some below) ->
  lastDraggedOver (self w) = Some below ->
  lastMouseDirection (self w) = Some (mouseDirection (self w) e) ->
  calls CbDrag (effects (fst (handleDragOver e w))) = calls CbDrag (effects w).
Proof.
  intros Hoff Hclosest Hlast Hdir.
  assert (Hdue : dragCallbackDue (self w) below (mouseDirection (self w) e) = false).
  { destruct (dragCallbackDue (self w) below (mouseDirection (self w) e)) eqn:Hd;
      [|reflexivity].
    apply dragCallbackDue_iff in Hd; [|assumption]. destruct Hd; congruence. }
  unfold handleDragOver, bind, emit, get_dom, get_self, lift, on_dom, bind, get_dom, lift,
    put_dom, modify_self. simpl.
  rewrite Hclosest, Hdue.
  destruct (_ || _); simpl.
  - rewrite calls_app. simpl. now rewrite app_nil_r.
  - destruct (positionPlaceholder (dom w) (self w) e below); simpl.
    + destruct (placeholder (self w)); simpl;
        rewrite calls_app; simpl; now rewrite app_nil_r.
    + rewrite calls_app. simpl. now rewrite app_nil_r.
Qed.

(** A tick dispatches only when the callback is due. *)
Lemma handleDragOver_dispatch_only_if_due (e : Event) (w : World) :
  calls CbDrag (effects (fst (handleDragOver e w))) <> calls CbDrag (effects w) ->
  exists below,
    closest (dom w) (target e) (managed_selector (dom w) (self w)) = Ok (Some below)
    /\ dragCallbackDue (self w) below (mouseDirection (self w) e) = true.
Proof.
  unfold handleDragOver, bind, emit, get_dom, get_self, lift, on_dom, bind, get_dom, lift,
    put_dom, modify_self. simpl.
  destruct (closest (dom w) (target e) (managed_selector (dom w) (self w)))
    as [[below|]|err]; simpl;
    try (rewrite calls_app; simpl; rewrite app_nil_r; congruence).
  intros Hcalls. exists below. split; [reflexivity|].
  destruct (dragCallbackDue (self w) below (mouseDirection (self w) e)); [reflexivity|].
  exfalso. apply Hcalls.
  destruct (_ || _); simpl.
  - rewrite calls_app. simpl. now rewrite app_nil_r.
  - destruct (positionPlaceholder (dom w) (self w) e below); simpl.
    + destruct (placeholder (self w)); simpl;
        rewrite calls_app; simpl; now rewrite app_nil_r.
    + rewrite calls_app. simpl. now rewrite app_nil_r.
Qed.

End Duplicates.

(** C4, as stated, fails: in [Examples.over_third] the tick before has
    stored the third item and [down].  Two more ticks over the third item
    (node 9), each lower than the one before, resolve the same element
    below and infer the same direction; with duplicates suppressed and a
    [drag] callback configured, neither dispatches: no call across the
    two, where the claim says one. *)
Lemma C4_pair_dispatches_nothing :
  let w := Examples.over_third in
  let e1 := mkEvent 9 40 in
  let e2 := mkEvent 9 50 in
  let r1 := handleDragOver e1 w in
  let r2 := handleDragOver e2 (fst r1) in
  allowDuplicateCallbacks (options (self w)) = false
  /\ cb_drag (callbacks (options (self w))) = Some Examples.observer
  /\ closest (dom w) (target e1) (managed_selector (dom w) (self w)) = Ok (Some 9)
  /\ closest (dom (fst r1)) (target e2) (managed_selector (dom (fst r1)) (self (fst r1)))
     = Ok (Some 9)
  /\ mouseDirection (self w) e1 = Down
  /\ mouseDirection (self (fst r1)) e2 = Down
  /\ snd r1 = Ok tt /\ snd r2 = Ok tt
  /\ length (calls CbDrag (effects (fst r2))) = length (calls CbDrag (effects w)).
Proof. vm_compute. repeat split. Qed.

(** C4, amended: with [allowDuplicateCallbacks] off, of two consecutive
    ticks of a gesture under way that resolve the same element below and
    infer the same direction, the second dispatches nothing; the first
    completes and dispatches once if a [drag] callback is configured and
    the element below or the direction differs from the values the tick
    before stored, and nothing otherwise; it stores its own element below
    and direction after deciding.  So the two dispatch at most once.  A
    tick that dispatches finds the callback due: duplicates allowed, or
    the element below or the direction differing from the stored values. *)
Theorem C4_duplicate_ticks `{SelectorEngine} (e1 e2 : Event) (w : World) (below : NodeId) :
  let w1 := fst (handleDragOver e1 w) in
  let w2 := fst (handleDragOver e2 w1) in
  allowDuplicateCallbacks (options (self w)) = false ->
  closest (dom w) (target e1) (managed_selector (dom w) (self w)) = Ok (Some below) ->
  draggedItem (self w) <> Some below ->
  can_place (dom w) (self w) below = true ->
  closest (dom w1) (target e2) (managed_selector (dom w1) (self w1)) = Ok (Some below) ->
  mouseDirection (self w1) e2 = mouseDirection (self w) e1 ->
  snd (handleDragOver e1 w) = Ok tt
  /\ (lastDraggedOver (self w1) = Some below
      /\ lastMouseDirection (self w1) = Some (mouseDirection (self w) e1))
  /\ calls CbDrag (effects w2) = calls CbDrag (effects w1)
  /\ ((lastDraggedOver (self w) <> Some below
       \/ lastMouseDirection (self w) <> Some (mouseDirection (self w) e1)) ->
      cb_drag (callbacks (options (self w))) <> None ->
      exists pos,
        calls CbDrag (effects w2)
        = calls CbDrag (effects w)
          ++ [[VEvent e1; node_or_null (draggedItem (self w)); VNode below;
               position_value pos]])
  /\ ((lastDraggedOver (self w) = Some below
       /\ lastMouseDirection (self w) = Some (mouseDirection (self w) e1))
      \/ cb_drag (callbacks (options (self w))) = None ->
      calls CbDrag (effects w2) = calls CbDrag (effects w))
  /\ (forall e' w',
        calls CbDrag (effects (fst (handleDragOver e' w'))) <> calls CbDrag (effects w') ->
        exists below',
          closest (dom w') (target e') (managed_selector (dom w') (self w')) = Ok (Some below')
          /\ (allowDuplicateCallbacks (options (self w')) = true
              \/ lastDraggedOver (self w') <> Some below'
              \/ lastMouseDirection (self w') <> Some (mouseDirection (self w') e'))).
Proof.
  intros w1 w2 Hoff Hclosest Hdragged Hc.
  destruct (can_place_parts _ _ _ Hc) as (ph & par & Hph & _).
  destruct (handleDragOver_places e1 w below ph Hclosest Hdragged Hc Hph)
    as (d' & Hrun & _).
  subst w2 w1. rewrite Hrun. simpl. intros Hclosest2 Hdir.
  assert (Hsilent :
            calls CbDrag (effects (fst (handleDragOver e2 (after_tick w e1 below ph d'))))
            = calls CbDrag (effects (after_tick w e1 below ph d'))).
  { apply (handleDragOver_duplicate_silent e2 _ below);
      [exact Hoff | exact Hclosest2 | reflexivity | simpl; now rewrite Hdir]. }
  assert (Hfirst :
            calls CbDrag (effects (after_tick w e1 below ph d'))
            = calls CbDrag (effects w)
              ++ calls CbDrag (tick_dispatch (self w) e1 below
                                 (placeholderPosition d' ph below))).
  { unfold after_tick; simpl. rewrite !calls_app. simpl. now rewrite app_nil_r. }
  split; [reflexivity|]. split; [split; reflexivity|].
  split; [exact Hsilent|]. split; [|split].
  - intros Hdiff Hcb. exists (placeholderPosition d' ph below).
    rewrite Hsilent, Hfirst. f_equal. unfold tick_dispatch.
    apply (dragCallbackDue_iff _ _ _ Hoff) in Hdiff. rewrite Hdiff.
    destruct (cb_drag (callbacks (options (self w)))); [reflexivity | congruence].
  - intros Hsame. rewrite Hsilent, Hfirst. unfold tick_dispatch.
    destruct Hsame as [[Hl Hd]|Hnone].
    + destruct (dragCallbackDue (self w) below (mouseDirection (self w) e1)) eqn:Hdue.
      * apply (dragCallbackDue_iff _ _ _ Hoff) in Hdue. destruct Hdue; congruence.
      * simpl. now rewrite app_nil_r.
    + rewrite Hnone. destruct (dragCallbackDue _ _ _); simpl; now rewrite app_nil_r.
  - intros e' w' Hcalls.
    destruct (handleDragOver_dispatch_only_if_due e' w' Hcalls) as (below' & Hcl & Hdue).
    exists below'. split; [exact Hcl|].
    destruct (allowDuplicateCallbacks (options (self w'))) eqn:Hallow; [now left|].
    right. now apply (dragCallbackDue_iff _ _ _ Hallow).
Qed.

Lemma C4_duplicate_ticks_witness :
  snd (handleDragOver (mkEvent 9 30) Examples.picked_up) = Ok tt
  /\ calls CbDrag (effects (fst (handleDragOver (mkEvent 9 40)
                                   (fst (handleDragOver (mkEvent 9 30) Examples.picked_up)))))
     = calls CbDrag (effects (fst (handleDragOver (mkEvent 9 30) Examples.picked_up))).
Proof.
  pose proof (C4_duplicate_ticks (mkEvent 9 30) (mkEvent 9 40) Examples.picked_up 9) as T.
  cbv zeta in T.
  assert (H1 : allowDuplicateCallbacks (options (self Examples.picked_up)) = false)
    by (vm_compute; reflexivity).
  assert (H2 : closest (dom Examples.picked_up) 9
                 (managed_selector (dom Examples.picked_up) (self Examples.picked_up))
               = Ok (Some 9)) by (vm_compute; reflexivity).
  assert (H3 : draggedItem (self Examples.picked_up) <> Some 9)
    by (vm_compute; discriminate).
  assert (H4 : can_place (dom Examples.picked_up) (self Examples.picked_up) 9 = true)
    by (vm_compute; reflexivity).
  specialize (T H1 H2 H3 H4).
  assert (H5 : closest (dom (fst (handleDragOver (mkEvent 9 30) Examples.picked_up))) 9
                 (managed_selector
                    (dom (fst (handleDragOver (mkEvent 9 30) Examples.picked_up)))
                    (self (fst (handleDragOver (mkEvent 9 30) Examples.picked_up))))
               = Ok (Some 9)) by (vm_compute; reflexivity).
  assert (H6 : mouseDirection (self (fst (handleDragOver (mkEvent 9 30) Examples.picked_up)))
                 (mkEvent 9 40)
               = mouseDirection (self Examples.picked_up) (mkEvent 9 30))
    by (vm_compute; reflexivity).
  destruct (T H5 H6) as (T1 & _ & T2 & _).
  split; [exact T1 | exact T2].
Defined.

(** ** C5: the drop *)

Section DropTransition.
Context `{SelectorEngine}.

(** A drop [beforeDrop] answers [false] to changes nothing on the page
    and calls [drop] not. *)
Lemma handleDrop_vetoed (e : Event) (w : World) (it ph : NodeId) (before : Value)
    (f : Callback) :
  draggedItem (self w) = Some it ->
  placeholder (self w) = Some ph ->
  before_data (dom w) (self w) ph = Ok before ->
  cb_beforeDrop (callbacks (options (self w))) = Some f ->
  f (drop_arguments (dom w) (self w) it ph before) = VBool false ->
  handleDrop e w
  = (mkWorld (dom w) (self w)
             (effects w ++ [PreventDefault]
                ++ [Call CbBeforeDrop (drop_arguments (dom w) (self w) it ph before)])
             (listeners w) (frames w), Ok tt).
Proof.
  intros Hit Hph Hbefore Hcb Hveto.
  unfold handleDrop, bind, emit, get_self, get_dom, ret, lift. simpl.
  rewrite Hit, Hph. simpl. unfold before_data in Hbefore.
  unfold drop_arguments in *.
  destruct (previousElementSibling (dom w) ph) as [pe|]; simpl.
  - destruct (getItemData (dom w) (self w) pe) as [r|err]; [|discriminate].
    injection Hbefore as <-. simpl. rewrite Hcb. unfold invoke, bind, emit, ret. simpl.
    simpl in Hveto. rewrite Hveto. now rewrite <- app_assoc.
  - injection Hbefore as <-. rewrite Hcb. unfold invoke, bind, emit, ret. simpl.
    simpl in Hveto. rewrite Hveto. now rewrite <- app_assoc.
Qed.

(** A drop on an attached placeholder that [beforeDrop] does not veto
    moves the dragged element right before the placeholder and calls
    [drop] with the arguments [beforeDrop] got. *)
Lemma handleDrop_completes (e : Event) (w : World) (it ph par : NodeId) (before : Value) :
  draggedItem (self w) = Some it ->
  placeholder (self w) = Some ph ->
  before_data (dom w) (self w) ph = Ok before ->
  match cb_beforeDrop (callbacks (options (self w))) with
  | Some f => f (drop_arguments (dom w) (self w) it ph before) <> VBool false
  | None => True
  end ->
  wf_dom (dom w) = true ->
  parent_of (dom w) ph = Some par ->
  is_element (dom w) par = true -> is_element (dom w) it = true ->
  contains (dom w) it par = false -> it <> ph ->
  exists w',
    handleDrop e w = (w', Ok tt)
    /\ previousElementSibling (dom w') ph = Some it
    /\ self w' = self w
    /\ calls CbDrop (effects w')
       = calls CbDrop (effects w)
         ++ match cb_drop (callbacks (options (self w))) with
            | Some _ => [drop_arguments (dom w) (self w) it ph before]
            | None => []
            end.
Proof.
  intros Hit Hph Hbefore Hverdict Hwf Hpar Hpel Hiel Hcont Hne.
  pose proof (wf_parent_lists_child _ ph par Hwf Hpar) as Hin.
  pose proof (wf_dom_node _ par Hwf (is_element_node _ par Hpel)) as Hwfp.
  apply wf_node_parts in Hwfp as (Hlinks & _ & Hnodup).
  destruct (insertBefore_preceding (dom w) par ph it Hlinks Hpar Hin Hpel Hiel Hcont Hne)
    as (d' & Hins & Hprev & _ & _).
  unfold handleDrop, bind, emit, get_self, get_dom, ret, lift. simpl.
  rewrite Hit, Hph. simpl. unfold before_data in Hbefore. unfold drop_arguments in *.
  assert (Hcalls : forall l x, calls CbDrop (l ++ [PreventDefault] ++ x)
                               = calls CbDrop l ++ calls CbDrop x).
  { intros l x. now rewrite !calls_app. }
  destruct (previousElementSibling (dom w) ph) as [pe|]; simpl.
  - destruct (getItemData (dom w) (self w) pe) as [r|err]; [|discriminate].
    injection Hbefore as <-. simpl.
    destruct (cb_beforeDrop (callbacks (options (self w)))) as [f|];
      unfold invoke, bind, emit, ret; simpl.
    + simpl in Hverdict. destruct (f _) as [| |[|]| | | | |] eqn:Hf; try congruence;
        rewrite Hpar; unfold on_dom, bind, get_dom, lift, put_dom; simpl; rewrite Hins; simpl;
        destruct (cb_drop (callbacks (options (self w)))); simpl;
        eexists; (split; [reflexivity|]); simpl;
        (split; [exact Hprev|]); (split; [reflexivity|]);
        rewrite ?calls_app; simpl; now rewrite ?app_nil_r.
    + rewrite Hpar; unfold on_dom, bind, get_dom, lift, put_dom; simpl; rewrite Hins; simpl;
        destruct (cb_drop (callbacks (options (self w)))); simpl;
        eexists; (split; [reflexivity|]); simpl;
        (split; [exact Hprev|]); (split; [reflexivity|]);
        rewrite ?calls_app; simpl; now rewrite ?app_nil_r.
  - injection Hbefore as <-.
    destruct (cb_beforeDrop (callbacks (options (self w)))) as [f|];
      unfold invoke, bind, emit, ret; simpl.
    + simpl in Hverdict. destruct (f _) as [| |[|]| | | | |] eqn:Hf; try congruence;
        rewrite Hpar; unfold on_dom, bind, get_dom, lift, put_dom; simpl; rewrite Hins; simpl;
        destruct (cb_drop (callbacks (options (self w)))); simpl;
        eexists; (split; [reflexivity|]); simpl;
        (split; [exact Hprev|]); (split; [reflexivity|]);
        rewrite ?calls_app; simpl; now rewrite ?app_nil_r.
    + rewrite Hpar; unfold on_dom, bind, get_dom, lift, put_dom; simpl; rewrite Hins; simpl;
        destruct (cb_drop (callbacks (options (self w)))); simpl;
        eexists; (split; [reflexivity|]); simpl;
        (split; [exact Hprev|]); (split; [reflexivity|]);
        rewrite ?calls_app; simpl; now rewrite ?app_nil_r.
Qed.

(** A drop with no dragged item only suppresses the event's default. *)
Lemma handleDrop_idle (e : Event) (w : World) :
  draggedItem (self w) = None ->
  handleDrop e w
  = (mkWorld (dom w) (self w) (effects w ++ [PreventDefault]) (listeners w) (frames w),
     Ok tt).
Proof.
  intros Hnone. unfold handleDrop, bind, emit, get_self, ret. simpl. now rewrite Hnone.
Qed.

End DropTransition.

(** C5 fails on the code: in [Examples.picked_up] the first item has been
    picked up and no tick has placed the placeholder yet (it has no
    parent).  The pointer is released at once.  A dragged item is active,
    [beforeDrop] is called and returns [undefined], and then the handler
    throws a [TypeError] on the placeholder's missing parent: the element
    is not moved and [drop] is never called. *)
Theorem C5_drop_before_positioning_throws :
  let w := Examples.picked_up in
  let r := dispatch dropped (mkEvent 5 10) w in
  draggedItem (self w) = Some 5
  /\ placeholder (self w) = Some 10
  /\ parent_of (dom w) 10 = None
  /\ cb_beforeDrop (callbacks (options (self w))) = Some Examples.observer
  /\ Examples.observer [VNode 5; VNull; VData [("id", DataString "1"); ("sort", DataUndefined)];
                        VNull; VNull] = VUndefined
  /\ snd r = Throw TypeError
  /\ calls CbBeforeDrop (effects (fst r))
     = [[VNode 5; VNull; VData [("id", DataString "1"); ("sort", DataUndefined)]; VNull; VNull]]
  /\ calls CbDrop (effects (fst r)) = []
  /\ dom (fst r) = dom w.
Proof. vm_compute. repeat split. Qed.

(** ** C6: a pickup of an element that cannot be sorted *)

Section RejectedPickup.
Context `{SelectorEngine}.

(** Every rejected pickup cancels the native gesture, creates no
    placeholder and calls no callback, and leaves the target recorded as
    the dragged item. *)
Lemma handleDragStart_rejected (e : Event) (w : World) (tag : string) :
  isDraggable (dom w) (self w) (target e) = Ok true ->
  tagName_upper (dom w) (target e) = Ok tag ->
  isValidSortableElement tag = false ->
  handleDragStart e w = (after_rejected_pickup w e tag, Ok tt).
Proof.
  intros Hdrag Htag Hinvalid.
  unfold handleDragStart, bind, get_dom, get_self, lift, modify_self, emit. simpl.
  rewrite Hdrag. simpl. rewrite Htag. simpl. rewrite Hinvalid. simpl.
  unfold after_rejected_pickup. now rewrite <- app_assoc.
Qed.

End RejectedPickup.

(** C6 fails on the code: [new DomMover('#t tbody', ..)] on a table, and
    a pickup of the table body (node 5).  The native gesture is cancelled,
    no placeholder is created and [pickup] is not called, as claimed; but
    the handler has recorded the body as the dragged item and its tag
    before checking the tag, and nothing clears them: gesture state stays
    live.  A drop event reaching the table afterwards finds a dragged item
    without a placeholder and throws. *)
Theorem C6_rejected_pickup_leaves_dragged_item :
  let w := Examples.scoped_table in
  let e := mkEvent 5 10 in
  let r := dispatch dragstart e w in
  tagName_upper (dom w) 5 = Ok "TBODY"
  /\ draggedItem (self w) = None
  /\ snd r = Ok tt
  /\ effects (fst r) = effects w
                       ++ [ConsoleError ("DomMover: " ++ quoted "TBODY"
                                         ++ " elements cannot be sorted.")%string;
                           PreventDefault]
  /\ placeholder (self (fst r)) = None
  /\ calls CbPickup (effects (fst r)) = []
  /\ draggedItem (self (fst r)) = Some 5
  /\ tagNameCopy (self (fst r)) = Some "TBODY"
  /\ snd (dispatch dropped e (fst r)) = Throw TypeError.
Proof. vm_compute. repeat split. Qed.

(** ** C7: drag end *)

Section DragEnd.
Context `{SelectorEngine}.

Lemma keeps_lastMouseY_bind {A B : Type} (m : M A) (k : A -> M B) :
  keeps_lastMouseY m -> (forall a, keeps_lastMouseY (k a)) -> keeps_lastMouseY (bind m k).
Proof.
  intros Hm Hk w. unfold bind. specialize (Hm w).
  destruct (m w) as [w' [a|err]]; simpl in *; [|exact Hm].
  now rewrite Hk.
Qed.

Lemma keeps_lastMouseY_forEach {A : Type} (l : list A) (f : A -> M unit) :
  (forall x, keeps_lastMouseY (f x)) -> keeps_lastMouseY (forEach l f).
Proof.
  intros Hf. induction l as [|x r IH]; [now intros w|].
  cbn [forEach]. apply keeps_lastMouseY_bind; [apply Hf | intros _; exact IH].
Qed.

Lemma keeps_lastMouseY_on_dom (f : Dom -> Result Dom) : keeps_lastMouseY (on_dom f).
Proof.
  intros w. unfold on_dom, bind, get_dom, lift, put_dom. simpl. now destruct (f (dom w)).
Qed.

Lemma keeps_lastMouseY_removeClasses (element : option NodeId) (classes : option string) :
  keeps_lastMouseY (removeClasses element classes).
Proof.
  unfold removeClasses. destruct (truthy classes); [|now intros w].
  apply keeps_lastMouseY_forEach. intros cls.
  destruct element; [apply keeps_lastMouseY_on_dom | now intros w].
Qed.

(** No run of [handleDragEnd] touches the recorded pointer coordinate. *)
Lemma handleDragEnd_keeps_lastMouseY (e : Event) : keeps_lastMouseY (handleDragEnd e).
Proof.
  unfold handleDragEnd.
  apply keeps_lastMouseY_bind; [now intros w|]. intros i.
  apply keeps_lastMouseY_bind; [apply keeps_lastMouseY_removeClasses|]. intros _.
  apply keeps_lastMouseY_bind; [now intros w|]. intros d.
  apply keeps_lastMouseY_bind.
  { destruct (placeholder i); [|now intros w].
    destruct (parent_of d n); [apply keeps_lastMouseY_on_dom | now intros w]. }
  intros _. repeat (apply keeps_lastMouseY_bind; [now intros w | intros _]).
  now intros w.
Qed.

End DragEnd.

(** C7 fails on the code: in [Examples.over_third] the last tick recorded
    the pointer 30 pixels down.  Drag end removes the decoration, detaches
    the placeholder and clears the dragged item, its data, the placeholder,
    the last element below and the last direction, but not the last
    pointer coordinate: it still reads 30, not the 0 the constructor set.
    The next gesture's first tick, 20 pixels down, is compared with it and
    infers [up]. *)
Theorem C7_drag_end_keeps_pointer_coordinate :
  let w := Examples.over_third in
  let r := dispatch dragend (mkEvent 5 30) w in
  let again := fst (dispatch dragstart (mkEvent 5 10) (fst r)) in
  let tick := dispatch dragover (mkEvent 9 20) again in
  lastMouseY (self Examples.scoped_list) = 0%Z
  /\ lastMouseY (self w) = 30%Z
  /\ snd r = Ok tt
  /\ has_class (dom (fst r)) 5 "sortable-dragging" = false
  /\ children_of (dom (fst r)) 4 = [5; 6; 7; 8; 9]
  /\ draggedItem (self (fst r)) = None
  /\ draggedItemData (self (fst r)) = None
  /\ placeholder (self (fst r)) = None
  /\ lastDraggedOver (self (fst r)) = None
  /\ lastMouseDirection (self (fst r)) = None
  /\ lastMouseY (self (fst r)) = 30%Z
  /\ snd tick = Ok tt
  /\ lastMouseDirection (self (fst tick)) = Some Up.
Proof. vm_compute. repeat split. Qed.

(** ** C8: handlers that throw *)

Section Throwing.
Context `{SelectorEngine}.

Lemma split_space_nonempty (s : string) : split_space s <> [].
Proof.
  destruct s as [|c r]; simpl; [discriminate|].
  destruct (Ascii.eqb c " "); [discriminate|]. destruct (split_space r); discriminate.
Qed.

(** Drag end with no dragged item throws whenever a pickup class is
    configured, as it is by default. *)
Lemma handleDragEnd_idle_throws (e : Event) (w : World) (classes : string) :
  draggedItem (self w) = None ->
  truthy (pickup_addClass (pickup (options (self w)))) = Some classes ->
  handleDragEnd e w = (w, Throw TypeError).
Proof.
  intros Hnone Hcls. unfold handleDragEnd, bind, get_self. simpl.
  rewrite Hnone. unfold removeClasses. rewrite Hcls.
  pose proof (split_space_nonempty classes) as Hne.
  destruct (split_space classes) as [|cls rest]; [congruence|].
  reflexivity.
Qed.

End Throwing.

(** C8 fails on the code: on [Examples.scoped_list], right after
    construction with the default pickup class, no gesture is active.  A
    drop event changes nothing and returns, as claimed; a drag end event
    (for instance of a drag that [handleDragStart] declined) throws a
    [TypeError], reading the class list of the missing dragged item. *)
Theorem C8_drag_end_without_gesture_throws :
  let w := Examples.scoped_list in
  draggedItem (self w) = None
  /\ pickup_addClass (pickup (options (self w))) = Some "sortable-dragging"
  /\ dispatch dropped (mkEvent 7 10) w
     = (mkWorld (dom w) (self w) (effects w ++ [PreventDefault]) (listeners w) (frames w),
        Ok tt)
  /\ snd (dispatch dragend (mkEvent 7 10) w) = Throw TypeError.
Proof. vm_compute. repeat split. Qed.

(** ** C9: repeated ticks *)

(** C9, as stated, fails: in [Examples.over_third] a tick over the second
    item with the coordinate unchanged infers [down] and moves nothing; the
    next tick over the same item, ten pixels lower, infers [down] again and
    moves the placeholder (node 10) from the end of the list to right
    after the second item (node 7). *)
Lemma C9_second_tick_moves_placeholder :
  let w := Examples.over_third in
  let e1 := mkEvent 7 30 in
  let e2 := mkEvent 7 40 in
  let r1 := handleDragOver e1 w in
  let r2 := handleDragOver e2 (fst r1) in
  closest (dom w) (target e1) (managed_selector (dom w) (self w)) = Ok (Some 7)
  /\ closest (dom (fst r1)) (target e2) (managed_selector (dom (fst r1)) (self (fst r1)))
     = Ok (Some 7)
  /\ mouseDirection (self w) e1 = Down
  /\ mouseDirection (self (fst r1)) e2 = Down
  /\ snd r1 = Ok tt /\ snd r2 = Ok tt
  /\ children_of (dom (fst r1)) 4 = [5; 6; 7; 8; 9; 10]
  /\ children_of (dom (fst r2)) 4 = [5; 6; 7; 10; 8; 9]
  /\ dom (fst r2) <> dom (fst r1)
  /\ mutations (dom (fst r1)) = mutations (dom w)
  /\ mutations (dom (fst r2)) = mutations (dom (fst r1)) ++ [Inserted 4 10 (Some 8)].
Proof. vm_compute. repeat split. discriminate. Qed.

(** C9, amended: in a gesture under way, after a tick whose coordinate
    differed from the recorded one, a tick that resolves the same element
    below and infers the same direction completes without a change of the
    tree: it makes no call of [insertBefore], so the record of the changes
    made to the tree is as it was, and so is the page. *)
Theorem C9_repeated_tick_keeps_page `{SelectorEngine} (e1 e2 : Event) (w : World)
    (below : NodeId) :
  let w1 := fst (handleDragOver e1 w) in
  closest (dom w) (target e1) (managed_selector (dom w) (self w)) = Ok (Some below) ->
  draggedItem (self w) <> Some below ->
  can_place (dom w) (self w) below = true ->
  clientY e1 <> lastMouseY (self w) ->
  closest (dom w1) (target e2) (managed_selector (dom w1) (self w1)) = Ok (Some below) ->
  mouseDirection (self w1) e2 = mouseDirection (self w) e1 ->
  snd (handleDragOver e1 w) = Ok tt
  /\ snd (handleDragOver e2 w1) = Ok tt
  /\ mutations (dom (fst (handleDragOver e2 w1))) = mutations (dom w1)
  /\ dom (fst (handleDragOver e2 w1)) = dom w1.
Proof.
  intros w1 Hclosest Hdragged Hc Hmoved.
  destruct (can_place_parts _ _ _ Hc) as (ph & par & Hph & _ & _ & _ & _ & _ & Hne).
  destruct (handleDragOver_places e1 w below ph Hclosest Hdragged Hc Hph)
    as (d' & Hrun & Hdown & Hup & _).
  subst w1. rewrite Hrun. simpl. intros Hclosest2 Hdir.
  split; [reflexivity|].
  assert (Hpos : positionPlaceholder d'
                   (set_lastMouseDirection (Some (mouseDirection (self w) e1))
                      (set_lastDraggedOver (Some below)
                         (set_lastMouseY (clientY e1) (self w)))) e2 below = Ok d').
  { unfold positionPlaceholder; simpl. rewrite Hph.
    unfold mouseDirection in Hdir; simpl in Hdir.
    destruct (Z.ltb_spec (clientY e1) (lastMouseY (self w))) as [Hu|Hd].
    - destruct (Z.ltb_spec (clientY e2) (clientY e1)) as [Hu2|]; [|discriminate].
      destruct (Z.ltb_spec (clientY e1) (clientY e2)); [lia|].
      rewrite (Hup Hu). simpl. now rewrite Nat.eqb_refl.
    - destruct (Z.ltb_spec (clientY e2) (clientY e1)) as [|Hd2]; [discriminate|].
      destruct (Z.ltb_spec (clientY e1) (clientY e2)); [|reflexivity].
      rewrite Hdown by lia. simpl. now rewrite Nat.eqb_refl. }
  rewrite (handleDragOver_resolved e2 (after_tick w e1 below ph d') below ph d');
    [repeat split; reflexivity
    | exact Hclosest2 | exact Hdragged | exact Hph | exact Hne | exact Hpos].
Qed.

Lemma C9_repeated_tick_keeps_page_witness :
  mutations (dom (fst (handleDragOver (mkEvent 7 40) Examples.over_third)))
  = mutations (dom Examples.over_third) ++ [Inserted 4 10 (Some 8)]
  /\ snd (handleDragOver (mkEvent 7 40) Examples.over_third) = Ok tt
  /\ snd (handleDragOver (mkEvent 7 50)
            (fst (handleDragOver (mkEvent 7 40) Examples.over_third))) = Ok tt
  /\ mutations (dom (fst (handleDragOver (mkEvent 7 50)
                            (fst (handleDragOver (mkEvent 7 40) Examples.over_third)))))
     = mutations (dom (fst (handleDragOver (mkEvent 7 40) Examples.over_third)))
  /\ dom (fst (handleDragOver (mkEvent 7 50)
                 (fst (handleDragOver (mkEvent 7 40) Examples.over_third))))
     = dom (fst (handleDragOver (mkEvent 7 40) Examples.over_third)).
Proof.
  split; [vm_compute; reflexivity|].
  apply (C9_repeated_tick_keeps_page (mkEvent 7 40) (mkEvent 7 50) Examples.over_third 7).
  - vm_compute. reflexivity.
  - vm_compute. discriminate.
  - vm_compute. reflexivity.
  - vm_compute. discriminate.
  - vm_compute. reflexivity.
  - vm_compute. reflexivity.
Defined.

(** ** C10: the selector a tick resolves the element below with *)

(** Every node but an [a] or [area] element prints as [[object Name]],
    [Name] starting with a letter. *)
Lemma object_string_shape (d : Dom) (n : NodeId) :
  hyperlink_at d n = false ->
  exists c rest, is_letter c = true
                 /\ object_string d n = ("[object " ++ String c rest)%string.
Proof.
  unfold object_string, hyperlink_at. destruct (node_at d n) as [x|]; intros Hlink.
  - destruct (nodeKind x) eqn:Hkind.
    + exists "H"%char. eexists. split; reflexivity.
    + rewrite Hlink. destruct (interface x); simpl;
        [exists "H"%char | exists "S"%char | exists "M"%char | exists "E"%char];
        eexists; split; reflexivity.
    + exists "T"%char. eexists. split; reflexivity.
  - exists "O"%char. eexists. split; reflexivity.
Qed.

Lemma object_prefix_append (c : ascii) (rest tail : string) :
  (("[object " ++ String c rest) ++ tail)%string
  = ("[object " ++ String c (rest ++ tail))%string.
Proof. reflexivity. Qed.

(** Whatever the constructor was given that is not a string, nor the
    empty array, and holds no [a] or [area] element, prints with that shape
    too. *)
Lemma arg_string_shape (d : Dom) (a : CtorArg) :
  not_a_selector_string a = true -> without_hyperlink d a = true -> a <> ArgArray [] ->
  exists c rest, is_letter c = true
                 /\ arg_string d a = ("[object " ++ String c rest)%string.
Proof.
  intros Hns Hlink Hne. destruct a as [s|n|l|l|]; simpl in *.
  - discriminate.
  - apply object_string_shape. now apply negb_true_iff.
  - exists "N"%char. eexists. split; reflexivity.
  - destruct l as [|n l]; [congruence|]. simpl.
    cbn [forallb] in Hlink. apply andb_prop in Hlink as [Hn _].
    apply negb_true_iff in Hn.
    destruct (object_string_shape d n Hn) as (c & rest & Hc & Hs). rewrite Hs.
    destruct (map (object_string d) l).
    + now exists c, rest.
    + exists c. eexists. split; [exact Hc|]. apply object_prefix_append.
  - exists "O"%char. eexists. split; reflexivity.
Qed.

Section SelectorString.
Context `{SelectorEngine}.

(** Two facts of selector syntax.  After the name of an attribute
    selector and white space, only the closing bracket or a matching
    operator may follow, never a letter.  A class selector on its own
    matches only elements carrying the class. *)
Hypothesis attribute_syntax :
  forall (c : ascii) (rest : string),
    is_letter c = true -> parseSelector ("[object " ++ String c rest)%string = None.
Hypothesis class_selector :
  forall (c : string) (s : Selector) (d : Dom) (n : NodeId),
    is_identifier c = true ->
    parseSelector ("." ++ c)%string = Some s ->
    selectorMatches s d n = true -> has_class d n c = true.

Lemma managed_selector_invalid (d : Dom) (i : Instance) :
  not_a_selector_string (elementOrSelector i) = true ->
  without_hyperlink d (elementOrSelector i) = true ->
  elementOrSelector i <> ArgArray [] ->
  parseSelector (managed_selector d i) = None.
Proof.
  intros Hns Hlink Hne. unfold managed_selector.
  destruct (arg_string_shape d (elementOrSelector i) Hns Hlink Hne) as (c & rest & Hc & Hs).
  rewrite Hs, object_prefix_append. now apply attribute_syntax.
Qed.

(** C10, amended: for an instance constructed from an element other than
    an [a] or [area] element, from a node list, or from an array holding
    no [a] or [area] element, a positioning tick never repositions the
    placeholder: it leaves the page and the instance as they were and
    dispatches nothing, and it either throws or resolves no element below
    other than the instance's own dragged item or placeholder.  (For the
    empty array, whose selector is the bare marker class, this holds as
    long as the marker is an identifier that only the instance's own
    dragged item and placeholder carry above the target.) *)
Theorem C10_tick_without_selector_string (e : Event) (w : World) :
  not_a_selector_string (elementOrSelector (self w)) = true ->
  without_hyperlink (dom w) (elementOrSelector (self w)) = true ->
  (elementOrSelector (self w) = ArgArray [] ->
   is_identifier (instanceId (self w)) = true
   /\ marker_only_on_own (dom w) (self w) (target e)) ->
  dom (fst (handleDragOver e w)) = dom w
  /\ self (fst (handleDragOver e w)) = self w
  /\ calls CbDrag (effects (fst (handleDragOver e w))) = calls CbDrag (effects w)
  /\ ((exists err, snd (handleDragOver e w) = Throw err)
      \/ (snd (handleDragOver e w) = Ok tt
          /\ forall below,
               closest (dom w) (target e) (managed_selector (dom w) (self w))
               = Ok (Some below) ->
               draggedItem (self w) = Some below \/ placeholder (self w) = Some below)).
Proof.
  intros Hns Hlink Hempty.
  unfold handleDragOver, bind, emit, get_dom, get_self, lift. simpl.
  destruct (closest (dom w) (target e) (managed_selector (dom w) (self w)))
    as [[below|]|err] eqn:Hclosest; simpl.
  - (* an element below was resolved: the selector parsed *)
    assert (Harr : elementOrSelector (self w) = ArgArray []).
    { assert (Hdec : elementOrSelector (self w) = ArgArray []
                     \/ elementOrSelector (self w) <> ArgArray []).
      { destruct (elementOrSelector (self w)) as [s|n|l|[|n l]|];
          (now left) || (right; discriminate). }
      destruct Hdec as [Harr|Hne]; [exact Harr | exfalso].
      unfold closest in Hclosest.
      destruct (is_element (dom w) (target e)); [|discriminate].
      rewrite (managed_selector_invalid _ _ Hns Hlink Hne) in Hclosest. discriminate. }
    destruct (Hempty Harr) as [Hid Hown].
    assert (Hbelow : draggedItem (self w) = Some below \/ placeholder (self w) = Some below).
    { unfold closest in Hclosest.
      destruct (is_element (dom w) (target e)); [|discriminate].
      unfold managed_selector in Hclosest. rewrite Harr in Hclosest.
      change (arg_string (dom w) (ArgArray []) ++ "." ++ instanceId (self w))%string
        with ("." ++ instanceId (self w))%string in Hclosest.
      destruct (parseSelector ("." ++ instanceId (self w))%string) as [s|] eqn:Hparse;
        [|discriminate].
      injection Hclosest as Hfind.
      change (find (fun a => is_element (dom w) a && selectorMatches s (dom w) a)
                   (target e :: ancestors (dom w) (target e)) = Some below) in Hfind.
      apply find_some in Hfind as [Hin Hm].
      apply andb_prop in Hm as [Hel Hm].
      apply Hown; [exact Hin | exact Hel |].
      exact (class_selector _ s _ _ Hid Hparse Hm). }
    assert (Hown' : option_node_eqb (Some below) (draggedItem (self w))
                    || option_node_eqb (Some below) (placeholder (self w)) = true).
    { apply orb_true_iff. destruct Hbelow as [Hb|Hb]; [left|right];
        apply option_node_eqb_eq; congruence. }
    simpl in Hown'. rewrite Hown'. simpl.
    repeat split; try reflexivity.
    + rewrite calls_app. simpl. now rewrite app_nil_r.
    + right. split; [reflexivity|]. intros below' Heq. injection Heq as <-. exact Hbelow.
  - repeat split; try reflexivity.
    + rewrite calls_app. simpl. now rewrite app_nil_r.
    + right. split; [reflexivity|]. intros below' Heq. discriminate.
  - repeat split; try reflexivity.
    + rewrite calls_app. simpl. now rewrite app_nil_r.
    + left. now exists err.
Qed.

End SelectorString.

(** The engine of [BasicSelectors] obeys both facts. *)
Lemma is_letter_name_char (c : ascii) : is_letter c = true -> is_name_char c = true.
Proof. intros Hc. unfold is_name_char. now rewrite Hc. Qed.

Lemma tokenize_onto_app (s1 s2 : string) (rest : list BasicSelectors.Token) :
  BasicSelectors.tokenize_onto (s1 ++ s2)%string rest
  = BasicSelectors.tokenize_onto s1 (BasicSelectors.tokenize_onto s2 rest).
Proof.
  induction s1 as [|c r IH]; [reflexivity|].
  cbn [String.append BasicSelectors.tokenize_onto]. now rewrite IH.
Qed.

Lemma tokenize_letter (c : ascii) (rest : string) :
  is_letter c = true ->
  exists word ts,
    BasicSelectors.tokenize_onto (String c rest) [] = BasicSelectors.TIdent word :: ts.
Proof.
  intros Hc. cbn [BasicSelectors.tokenize_onto]. rewrite (is_letter_name_char c Hc).
  destruct (BasicSelectors.tokenize_onto rest []) as [|[]]; eauto.
Qed.

Lemma basic_attribute_syntax (c : ascii) (rest : string) :
  is_letter c = true -> BasicSelectors.parse ("[object " ++ String c rest)%string = None.
Proof.
  intros Hc. unfold BasicSelectors.parse, BasicSelectors.tokenize.
  destruct (tokenize_letter c rest Hc) as (word & ts & Htok).
  rewrite tokenize_onto_app, Htok. vm_compute. reflexivity.
Qed.

Lemma tokenize_name (s : string) :
  s <> EmptyString -> all_name_chars s = true ->
  BasicSelectors.tokenize_onto s [] = [BasicSelectors.TIdent s].
Proof.
  induction s as [|c r IH]; [congruence|]. intros _ Hall.
  cbn [all_name_chars] in Hall. apply andb_prop in Hall as [Hc Hr].
  cbn [BasicSelectors.tokenize_onto]. rewrite Hc.
  destruct r as [|c' r']; [reflexivity|].
  rewrite IH; [reflexivity | congruence | exact Hr].
Qed.

Lemma basic_class_selector (c : string) (s : list BasicSelectors.Complex) (d : Dom)
    (n : NodeId) :
  is_identifier c = true ->
  BasicSelectors.parse ("." ++ c)%string = Some s ->
  existsb (BasicSelectors.complex_matches d n) s = true -> has_class d n c = true.
Proof.
  intros Hid. unfold BasicSelectors.parse, BasicSelectors.tokenize.
  change (BasicSelectors.tokenize_onto ("." ++ c)%string [])
    with (BasicSelectors.TDot :: BasicSelectors.tokenize_onto c []).
  assert (Hc : c <> EmptyString /\ all_name_chars c = true).
  { destruct c; [discriminate|]. unfold is_identifier in Hid.
    apply andb_prop in Hid as [_ Hall]. split; [congruence | exact Hall]. }
  destruct Hc as [Hne Hall]. rewrite (tokenize_name c Hne Hall). simpl.
  destruct (BasicSelectors.valid_ident c); [|discriminate].
  simpl. intros Hs. injection Hs as <-. simpl.
  rewrite orb_false_r.
  unfold BasicSelectors.complex_matches, BasicSelectors.compound_matches. simpl.
  rewrite !andb_true_r. intros Hm. now apply andb_prop in Hm as [_ Hm].
Qed.

Lemma C10_tick_without_selector_string_witness :
  (draggedItem (self (fst (dispatch dragstart (mkEvent 5 10) Examples.from_element)))
   = Some 5
   /\ managed_selector
        (dom (fst (dispatch dragstart (mkEvent 5 10) Examples.from_element)))
        (self (fst (dispatch dragstart (mkEvent 5 10) Examples.from_element)))
      = "[object HTMLLIElement].dmk3x9q2a"
   /\ snd (handleDragOver (mkEvent 7 30)
             (fst (dispatch dragstart (mkEvent 5 10) Examples.from_element)))
      = Throw SyntaxError
   /\ dom (fst (handleDragOver (mkEvent 7 30)
                  (fst (dispatch dragstart (mkEvent 5 10) Examples.from_element))))
      = dom (fst (dispatch dragstart (mkEvent 5 10) Examples.from_element)))
  /\ (managed_selector (dom Examples.from_empty_array) (self Examples.from_empty_array)
      = ".dmk3x9q2a"
      /\ snd (handleDragOver (mkEvent 7 30) Examples.from_empty_array) = Ok tt
      /\ dom (fst (handleDragOver (mkEvent 7 30) Examples.from_empty_array))
         = dom Examples.from_empty_array).
Proof.
  split.
  - pose proof (C10_tick_without_selector_string basic_attribute_syntax
                  basic_class_selector (mkEvent 7 30)
                  (fst (dispatch dragstart (mkEvent 5 10) Examples.from_element))) as T.
    assert (H1 : not_a_selector_string
                   (elementOrSelector
                      (self (fst (dispatch dragstart (mkEvent 5 10) Examples.from_element))))
                 = true) by (vm_compute; reflexivity).
    assert (H0 : without_hyperlink
                   (dom (fst (dispatch dragstart (mkEvent 5 10) Examples.from_element)))
                   (elementOrSelector
                      (self (fst (dispatch dragstart (mkEvent 5 10) Examples.from_element))))
                 = true) by (vm_compute; reflexivity).
    assert (H2 : elementOrSelector
                   (self (fst (dispatch dragstart (mkEvent 5 10) Examples.from_element)))
                 = ArgArray [] ->
                 is_identifier
                   (instanceId
                      (self (fst (dispatch dragstart (mkEvent 5 10) Examples.from_element))))
                 = true
                 /\ marker_only_on_own
                      (dom (fst (dispatch dragstart (mkEvent 5 10) Examples.from_element)))
                      (self (fst (dispatch dragstart (mkEvent 5 10) Examples.from_element)))
                      (target (mkEvent 7 30)))
      by (vm_compute; discriminate).
    destruct (T H1 H0 H2) as (T1 & _).
    split; [vm_compute; reflexivity|]. split; [vm_compute; reflexivity|].
    split; [vm_compute; reflexivity | exact T1].
  - pose proof (C10_tick_without_selector_string basic_attribute_syntax
                  basic_class_selector (mkEvent 7 30) Examples.from_empty_array) as T.
    assert (H1 : not_a_selector_string (elementOrSelector (self Examples.from_empty_array))
                 = true) by (vm_compute; reflexivity).
    assert (H0 : without_hyperlink (dom Examples.from_empty_array)
                   (elementOrSelector (self Examples.from_empty_array)) = true)
      by (vm_compute; reflexivity).
    assert (H2 : elementOrSelector (self Examples.from_empty_array) = ArgArray [] ->
                 is_identifier (instanceId (self Examples.from_empty_array)) = true
                 /\ marker_only_on_own (dom Examples.from_empty_array)
                      (self Examples.from_empty_array) (target (mkEvent 7 30))).
    { intros _. split; [vm_compute; reflexivity|].
      intros a Hin Hel Hcls. exfalso. revert Hel Hcls.
      vm_compute in Hin.
      destruct Hin as [<-|[<-|[<-|[<-|[<-|[]]]]]]; vm_compute; discriminate. }
    destruct (T H1 H0 H2) as (T1 & _).
    split; [vm_compute; reflexivity|]. split; [vm_compute; reflexivity | exact T1].
Defined.

(** C10 as first stated fails for an instance constructed from a link.
    An [a] element without [href] prints as the empty string, so the
    selector of [new DomMover(document.querySelector('#links a'), ..)] is
    the bare marker class: it is a valid selector and matches the managed
    link.  A tick over the link before any gesture resolves it, records the
    pointer's coordinate on the instance and throws only at line 248; a tick
    over it during a gesture resolves the dragged link and returns. *)
Lemma C10_link_element_is_resolved :
  let w := Examples.from_anchor in
  let w1 := fst (dispatch dragstart (mkEvent 5 10) w) in
  elementOrSelector (self w) = ArgElement 5
  /\ elements (self w) = [5]
  /\ not_a_selector_string (elementOrSelector (self w)) = true
  /\ managed_selector (dom w) (self w) = ".dmk3x9q2a"
  /\ parseSelector (managed_selector (dom w) (self w)) <> None
  /\ closest (dom w) 5 (managed_selector (dom w) (self w)) = Ok (Some 5)
  /\ snd (handleDragOver (mkEvent 5 30) w) = Throw TypeError
  /\ lastMouseY (self w) = 0%Z
  /\ lastMouseY (self (fst (handleDragOver (mkEvent 5 30) w))) = 30%Z
  /\ self (fst (handleDragOver (mkEvent 5 30) w)) <> self w
  /\ draggedItem (self w1) = Some 5
  /\ closest (dom w1) 5 (managed_selector (dom w1) (self w1)) = Ok (Some 5)
  /\ snd (handleDragOver (mkEvent 5 30) w1) = Ok tt.
Proof.
  vm_compute. repeat split; discriminate.
Qed.

(** * Further properties of the code *)

(** ** Data records *)



Lemma mem_string_cons (x a : string) (l : list string) :
  mem_string x (a :: l) = String.eqb x a || mem_string x l.
Proof. reflexivity. Qed.





(** ** Class lists *)

Lemma alter_ext {A : Type} (f g : A -> A) (n : nat) (l : list A) :
  (forall x, l !! n = Some x -> f x = g x) -> alter f n l = alter g n l.
Proof.
  revert n. induction l as [|a t IH]; intros n Hfg; [reflexivity|].
  destruct n as [|n]; simpl.
  - f_equal. now apply Hfg.
  - f_equal. apply IH. intros x Hx. now apply Hfg.
Qed.

Lemma update_node_ext (f g : Node -> Node) (n : NodeId) (d : Dom) :
  (forall x, node_at d n = Some x -> f x = g x) -> update_node f n d = update_node g n d.
Proof. intros Hfg. unfold update_node. f_equal. now apply alter_ext. Qed.

Lemma update_node_same (f : Node -> Node) (n : NodeId) (d : Dom) :
  (forall x, node_at d n = Some x -> f x = x) -> update_node f n d = d.
Proof.
  intros Hf. rewrite (update_node_ext f (fun x => x) n d Hf).
  unfold update_node. destruct d as [l doc b]. simpl. f_equal.
  now apply list_alter_id.
Qed.

Lemma update_node_twice (f g : Node -> Node) (n : NodeId) (d : Dom) :
  update_node f n (update_node g n d) = update_node (fun x => f (g x)) n d.
Proof. unfold update_node. simpl. f_equal. apply list_alter_alter_eq. Qed.

Lemma with_classList_same (x : Node) : with_classList (classList x) x = x.
Proof. now destruct x. Qed.

Lemma classes_of_node (d : Dom) (n : NodeId) (x : Node) :
  node_at d n = Some x -> classes_of d n = classList x.
Proof. intros Hx. unfold classes_of. now rewrite Hx. Qed.

Lemma check_token_valid (c : string) : valid_token c = true -> check_token c = Ok tt.
Proof.
  unfold valid_token, check_token. intros Hv. apply andb_prop in Hv as [H1 H2].
  apply negb_true_iff in H1, H2. now rewrite H1, H2.
Qed.

Lemma check_token_invalid (c : string) :
  valid_token c = false ->
  check_token c = Throw SyntaxError \/ check_token c = Throw InvalidCharacterError.
Proof.
  unfold valid_token, check_token. intros Hv.
  destruct (String.eqb c ""); [now left|]. simpl in Hv.
  apply negb_false_iff in Hv. rewrite Hv. now right.
Qed.

Lemma is_element_update (f : Node -> Node) (n : NodeId) (d : Dom) (m : NodeId) :
  (forall x, nodeKind (f x) = nodeKind x) ->
  is_element (update_node f n d) m = is_element d m.
Proof.
  intros Hf. unfold is_element. destruct (Nat.eq_dec n m) as [->|Hne].
  - rewrite node_at_update_eq. destruct (node_at d m); simpl; [now rewrite Hf | reflexivity].
  - now rewrite node_at_update_ne.
Qed.

Lemma classes_of_update_eq (l : list string) (n : NodeId) (d : Dom) :
  node_at d n <> None -> classes_of (update_node (with_classList l) n d) n = l.
Proof.
  intros Hex. unfold classes_of. rewrite node_at_update_eq.
  destruct (node_at d n); [reflexivity | congruence].
Qed.

Lemma set_classes_twice (l1 l2 : list string) (n : NodeId) (d : Dom) :
  update_node (with_classList l2) n (update_node (with_classList l1) n d)
  = update_node (with_classList l2) n d.
Proof. rewrite update_node_twice. now apply update_node_ext. Qed.

Lemma set_classes_same (n : NodeId) (d : Dom) :
  update_node (with_classList (classes_of d n)) n d = d.
Proof.
  apply update_node_same. intros x Hx. rewrite (classes_of_node d n x Hx).
  apply with_classList_same.
Qed.

Lemma classList_add_valid (d : Dom) (n : NodeId) (c : string) :
  is_element d n = true -> valid_token c = true ->
  classList_add d n c
  = Ok (update_node (with_classList (add_token_to (classes_of d n) c)) n d).
Proof.
  intros Hel Hv. unfold classList_add. rewrite Hel, (check_token_valid c Hv).
  unfold add_token_to, has_class. destruct (mem_string c (classes_of d n)).
  - now rewrite set_classes_same.
  - f_equal. apply update_node_ext. intros x Hx. now rewrite (classes_of_node d n x Hx).
Qed.

Lemma classList_remove_valid (d : Dom) (n : NodeId) (c : string) :
  is_element d n = true -> valid_token c = true ->
  classList_remove d n c
  = Ok (update_node (with_classList (remove_string c (classes_of d n))) n d).
Proof.
  intros Hel Hv. unfold classList_remove. rewrite Hel, (check_token_valid c Hv).
  f_equal. apply update_node_ext. intros x Hx. now rewrite (classes_of_node d n x Hx).
Qed.

Lemma with_dom_same (w : World) : with_dom (dom w) w = w.
Proof. now destruct w. Qed.

(** A loop that relabels the classes of one element token by token. *)
Lemma forEach_class_step (step : list string -> string -> list string)
    (op : Dom -> NodeId -> string -> Result Dom) (n : NodeId) :
  (forall d c, is_element d n = true -> valid_token c = true ->
               op d n c = Ok (update_node (with_classList (step (classes_of d n) c)) n d)) ->
  (forall d c, is_element d n = true -> valid_token c = false ->
               exists err, op d n c = Throw err
                           /\ (err = SyntaxError \/ err = InvalidCharacterError)) ->
  forall (tokens : list string) (w : World),
    is_element (dom w) n = true ->
    (forallb valid_token tokens = true ->
     forEach tokens (fun cls => on_dom (fun d => op d n cls)) w
     = (with_dom (update_node (with_classList (fold_left step tokens (classes_of (dom w) n)))
                              n (dom w)) w, Ok tt))
    /\ (forallb valid_token tokens = false ->
        exists w' err,
          forEach tokens (fun cls => on_dom (fun d => op d n cls)) w = (w', Throw err)
          /\ (err = SyntaxError \/ err = InvalidCharacterError)).
Proof.
  intros Hok Hbad tokens. induction tokens as [|c t IH]; intros w Hel.
  - split; [|discriminate]. intros _. cbn [forEach fold_left]. unfold ret.
    now rewrite set_classes_same, with_dom_same.
  - cbn [forEach forallb fold_left]. unfold bind.
    destruct (valid_token c) eqn:Hc; cbn [andb].
    + set (w1 := with_dom (update_node (with_classList (step (classes_of (dom w) n) c))
                                       n (dom w)) w).
      assert (Hstep : on_dom (fun d => op d n c) w = (w1, Ok tt)).
      { unfold on_dom, bind, get_dom, lift, put_dom. now rewrite (Hok _ _ Hel Hc). }
      rewrite Hstep.
      assert (Hel1 : is_element (dom w1) n = true).
      { unfold w1; simpl. now rewrite is_element_update. }
      assert (Hcls : classes_of (dom w1) n = step (classes_of (dom w) n) c).
      { unfold w1; simpl. apply classes_of_update_eq. now apply is_element_node. }
      destruct (IH w1 Hel1) as [IHok IHbad]. split.
      * intros Hall. rewrite (IHok Hall), Hcls. unfold w1, with_dom; simpl.
        now rewrite set_classes_twice.
      * exact IHbad.
    + split; [discriminate|]. intros _.
      destruct (Hbad _ _ Hel Hc) as (err & Herr & Hkind).
      assert (Hstep : on_dom (fun d => op d n c) w = (w, Throw err)).
      { unfold on_dom, bind, get_dom, lift, put_dom. now rewrite Herr. }
      rewrite Hstep. now exists w, err.
Qed.

Lemma classList_add_invalid (d : Dom) (n : NodeId) (c : string) :
  is_element d n = true -> valid_token c = false ->
  exists err, classList_add d n c = Throw err
              /\ (err = SyntaxError \/ err = InvalidCharacterError).
Proof.
  intros Hel Hv. unfold classList_add. rewrite Hel.
  destruct (check_token_invalid c Hv) as [-> | ->]; eauto.
Qed.

Lemma classList_remove_invalid (d : Dom) (n : NodeId) (c : string) :
  is_element d n = true -> valid_token c = false ->
  exists err, classList_remove d n c = Throw err
              /\ (err = SyntaxError \/ err = InvalidCharacterError).
Proof.
  intros Hel Hv. unfold classList_remove. rewrite Hel.
  destruct (check_token_invalid c Hv) as [-> | ->]; eauto.
Qed.

Lemma addClasses_run (n : NodeId) (classes : option string) (w : World) :
  is_element (dom w) n = true ->
  (forallb valid_token (class_tokens classes) = true ->
   addClasses (Some n) classes w
   = (with_dom (update_node (with_classList (fold_left add_token_to (class_tokens classes)
                                                       (classes_of (dom w) n)))
                            n (dom w)) w, Ok tt))
  /\ (forallb valid_token (class_tokens classes) = false ->
      exists w' err, addClasses (Some n) classes w = (w', Throw err)
                     /\ (err = SyntaxError \/ err = InvalidCharacterError)).
Proof.
  intros Hel. unfold addClasses, class_tokens. destruct (truthy classes) as [cs|].
  - apply (forEach_class_step add_token_to classList_add n
             (fun d c => classList_add_valid d n c)
             (fun d c => classList_add_invalid d n c)); assumption.
  - split; [|discriminate]. intros _. cbn [fold_left]. unfold ret.
    now rewrite set_classes_same, with_dom_same.
Qed.

Lemma removeClasses_run (n : NodeId) (classes : option string) (w : World) :
  is_element (dom w) n = true ->
  (forallb valid_token (class_tokens classes) = true ->
   removeClasses (Some n) classes w
   = (with_dom (update_node (with_classList
                               (fold_left (fun l c => remove_string c l) (class_tokens classes)
                                          (classes_of (dom w) n)))
                            n (dom w)) w, Ok tt))
  /\ (forallb valid_token (class_tokens classes) = false ->
      exists w' err, removeClasses (Some n) classes w = (w', Throw err)
                     /\ (err = SyntaxError \/ err = InvalidCharacterError)).
Proof.
  intros Hel. unfold removeClasses, class_tokens. destruct (truthy classes) as [cs|].
  - apply (forEach_class_step (fun l c => remove_string c l) classList_remove n
             (fun d c => classList_remove_valid d n c)
             (fun d c => classList_remove_invalid d n c)); assumption.
  - split; [|discriminate]. intros _. cbn [fold_left]. unfold ret.
    now rewrite set_classes_same, with_dom_same.
Qed.

Lemma mem_string_app (c : string) (l1 l2 : list string) :
  mem_string c (l1 ++ l2) = mem_string c l1 || mem_string c l2.
Proof. unfold mem_string. apply existsb_app. Qed.

Lemma mem_string_add_tokens (c : string) (tokens l : list string) :
  mem_string c (fold_left add_token_to tokens l) = mem_string c l || mem_string c tokens.
Proof.
  revert l. induction tokens as [|t ts IH]; intros l; cbn [fold_left].
  - now rewrite orb_false_r.
  - rewrite IH, mem_string_cons. unfold add_token_to.
    destruct (mem_string t l) eqn:Ht.
    + destruct (String.eqb_spec c t) as [->|Hne]; [|reflexivity].
      now rewrite Ht.
    + rewrite mem_string_app. cbn [mem_string existsb]. rewrite orb_false_r.
      now rewrite orb_assoc.
Qed.

Lemma filter_keeps_all {A : Type} (keep : A -> bool) (l : list A) :
  (forall x, In x l -> keep x = true) -> List.filter keep l = l.
Proof.
  induction l as [|a r IH]; intros Hall; [reflexivity|]. simpl.
  rewrite (Hall a) by now left. f_equal. apply IH. intros x Hx. apply Hall. now right.
Qed.

Lemma remove_tokens_filter (tokens l : list string) :
  fold_left (fun l c => remove_string c l) tokens l
  = List.filter (fun c => negb (mem_string c tokens)) l.
Proof.
  revert l. induction tokens as [|t ts IH]; intros l; cbn [fold_left].
  - symmetry. now apply filter_keeps_all.
  - rewrite IH. unfold remove_string. clear IH.
    induction l as [|a r IHl]; [reflexivity|]. cbn [List.filter].
    rewrite mem_string_cons.
    destruct (String.eqb_spec a t) as [->|Hne]; cbn [negb orb].
    + exact IHl.
    + cbn [List.filter]. destruct (negb (mem_string a ts)); [now rewrite IHl | exact IHl].
Qed.



(** X2: [addClasses] on an element returns exactly when every piece of the
    class string between single spaces is a valid class token (not empty,
    no white space); it then leaves the element carrying every token
    besides the classes it had, and touches no other node.  A class
    string with a leading, trailing or doubled space makes it throw. *)
Theorem addClasses_tokens (n : NodeId) (classes : option string) (w : World) :
  is_element (dom w) n = true ->
  (snd (addClasses (Some n) classes w) = Ok tt
   <-> forallb valid_token (class_tokens classes) = true)
  /\ (forallb valid_token (class_tokens classes) = true ->
      (forall c, has_class (dom (fst (addClasses (Some n) classes w))) n c
                 = has_class (dom w) n c || mem_string c (class_tokens classes))
      /\ (forall m, m <> n ->
                    node_at (dom (fst (addClasses (Some n) classes w))) m = node_at (dom w) m))
  /\ (forallb valid_token (class_tokens classes) = false ->
      snd (addClasses (Some n) classes w) = Throw SyntaxError
      \/ snd (addClasses (Some n) classes w) = Throw InvalidCharacterError).
Proof.
  intros Hel. destruct (addClasses_run n classes w Hel) as [Hok Hbad].
  split; [|split].
  - split.
    + intros Hret. destruct (forallb valid_token (class_tokens classes)); [reflexivity|].
      destruct (Hbad eq_refl) as (w' & err & Hrun & _). rewrite Hrun in Hret. discriminate.
    + intros Hall. now rewrite (Hok Hall).
  - intros Hall. rewrite (Hok Hall). simpl. split.
    + intros c. unfold has_class.
      rewrite classes_of_update_eq by now apply is_element_node.
      apply mem_string_add_tokens.
    + intros m Hne. now apply node_at_update_ne.
  - intros Hall. destruct (Hbad Hall) as (w' & err & Hrun & [-> | ->]);
      rewrite Hrun; [now left | now right].
Qed.


Lemma addClasses_tokens_witness :
  snd (addClasses (Some 5) (Some "dragging lifted") Examples.scoped_list) = Ok tt
  /\ has_class (dom (fst (addClasses (Some 5) (Some "dragging lifted") Examples.scoped_list)))
               5 "lifted" = true
  /\ snd (addClasses (Some 5) (Some "dragging  lifted") Examples.scoped_list)
     = Throw SyntaxError.
Proof.
  destruct (addClasses_tokens 5 (Some "dragging lifted") Examples.scoped_list)
    as (Hiff & Hpost & _); [vm_compute; reflexivity|].
  destruct (addClasses_tokens 5 (Some "dragging  lifted") Examples.scoped_list)
    as (_ & _ & Hbad); [vm_compute; reflexivity|].
  split; [apply Hiff; vm_compute; reflexivity|]. split.
  - destruct Hpost as [Hhas _]; [vm_compute; reflexivity|]. rewrite Hhas.
    vm_compute. reflexivity.
  - destruct Hbad as [Hs|Hi]; [vm_compute; reflexivity | exact Hs |].
    exfalso. revert Hi. vm_compute. discriminate.
Defined.


(** ** The delegation root, once the elements are tagged *)

Section CommonAncestor.
Context `{SelectorEngine}.

(** The inner loop of [getParentElement] over elements. *)
Lemma allChildren_elements (d : Dom) (i : Instance) (commonParent : NodeId)
    (els : list NodeId) :
  forallb (is_element d) els = true ->
  allChildren d i commonParent els
  = Ok (forallb (fun el => contains d commonParent el && has_class d el (instanceId i)) els).
Proof.
  induction els as [|el rest IH]; intros Hels; [reflexivity|].
  cbn [forallb] in Hels. apply andb_prop in Hels as [Hel Hrest].
  cbn [allChildren forallb]. rewrite Hel.
  destruct (contains d commonParent el); cbn [negb andb]; [|reflexivity].
  destruct (has_class d el (instanceId i)); cbn [andb]; [now apply IH | reflexivity].
Qed.

Lemma getParentElement_loop_elements (d : Dom) (i : Instance) (chain : list NodeId) :
  forallb (is_element d) (elements i) = true ->
  getParentElement_loop d i chain
  = Ok (find (fun a => forallb (fun el => contains d a el && has_class d el (instanceId i))
                               (elements i)) chain).
Proof.
  intros Hels. induction chain as [|a rest IH]; [reflexivity|].
  cbn [getParentElement_loop find]. rewrite (allChildren_elements d i a _ Hels).
  destruct (forallb (fun el => contains d a el && has_class d el (instanceId i))
                    (elements i)); [reflexivity | exact IH].
Qed.

End CommonAncestor.

(** X4: with no containment selector configured for the asked scope,
    [getParentElement] returns the nearest proper ancestor of the first
    managed element that contains every managed element, all of them
    carrying the instance marker, and [null] when there is none or no
    element is managed.  (During construction the marker is not on yet;
    this is what a call after [init] returns.) *)
Theorem getParentElement_nearest_common_ancestor `{SelectorEngine} (d : Dom) (i : Instance)
    (type : Scope) :
  truthy (parent_selector i type) = None ->
  forallb (is_element d) (elements i) = true ->
  getParentElement d i type
  = Ok (match elements i with
        | el0 :: _ =>
            find (fun a => forallb (fun el => contains d a el
                                              && has_class d el (instanceId i))
                                   (elements i))
                 (ancestors d el0)
        | [] => None
        end).
Proof.
  intros Hnone Hels. unfold getParentElement. rewrite Hnone.
  destruct (elements i) as [|el0 rest] eqn:Helems; [reflexivity|].
  rewrite <- Helems in *. now apply getParentElement_loop_elements.
Qed.

Lemma getParentElement_nearest_common_ancestor_witness :
  getParentElement (dom (fst Examples.basic_usage)) (self (fst Examples.basic_usage))
                   PickupScope
  = Ok (Some 4).
Proof.
  rewrite (getParentElement_nearest_common_ancestor
             (dom (fst Examples.basic_usage)) (self (fst Examples.basic_usage)) PickupScope).
  - vm_compute. reflexivity.
  - vm_compute. reflexivity.
  - vm_compute. reflexivity.
Defined.

(** ** Construction with a containment selector *)

Lemma assoc_set_twice {V : Type} (k : string) (v : V) (l : list (string * V)) :
  assoc_set k v (assoc_set k v l) = assoc_set k v l.
Proof.
  induction l as [|[k' v'] t IH]; simpl; [now rewrite String.eqb_refl|].
  destruct (String.eqb k' k) eqn:Hk; simpl; [now rewrite String.eqb_refl|].
  now rewrite Hk, IH.
Qed.

Lemma add_token_to_twice (l : list string) (c : string) :
  add_token_to (add_token_to l c) c = add_token_to l c.
Proof.
  unfold add_token_to. destruct (mem_string c l) eqn:Hm; [now rewrite Hm|].
  rewrite mem_string_app. cbn [mem_string existsb]. now rewrite String.eqb_refl, orb_true_r.
Qed.

Lemma tagged_twice (id : string) (x : Node) : tagged id (tagged id x) = tagged id x.
Proof.
  unfold tagged, with_classList, with_attributes. cbn.
  now rewrite add_token_to_twice, assoc_set_twice.
Qed.

Lemma generateInstanceId_valid (rnd : string) :
  has_whitespace rnd = false -> valid_token (generateInstanceId rnd) = true.
Proof. intros Hws. unfold valid_token, generateInstanceId. simpl. now rewrite Hws. Qed.

Lemma classes_of_update (f : Node -> Node) (n : NodeId) (d : Dom) (m : NodeId) :
  (forall x, classList (f x) = classList x) ->
  classes_of (update_node f n d) m = classes_of d m.
Proof.
  intros Hf. unfold classes_of. destruct (Nat.eq_dec n m) as [->|Hne].
  - rewrite node_at_update_eq. destruct (node_at d m); simpl; [apply Hf | reflexivity].
  - now rewrite node_at_update_ne.
Qed.

(** What [init] does to one managed element. *)
Lemma init_element (id : string) (el : NodeId) (w : World) :
  is_element (dom w) el = true -> valid_token id = true ->
  bind (on_dom (fun d => setAttribute d el "draggable" "true"))
       (fun _ => on_dom (fun d => classList_add d el id)) w
  = (with_dom (update_node (tagged id) el (dom w)) w, Ok tt).
Proof.
  intros Hel Hid. unfold bind, on_dom, bind, get_dom, lift, put_dom. simpl.
  unfold setAttribute. rewrite Hel. simpl.
  rewrite classList_add_valid; [|now rewrite is_element_update | assumption]. simpl.
  unfold with_dom. f_equal. f_equal. rewrite update_node_twice.
  apply update_node_ext. intros x Hx. unfold tagged.
  rewrite classes_of_update by reflexivity.
  now rewrite (classes_of_node _ _ x Hx).
Qed.

Lemma init_elements (id : string) (els : list NodeId) (w : World) :
  forallb (is_element (dom w)) els = true -> valid_token id = true ->
  exists d',
    forEach els (fun element =>
                   bind (on_dom (fun d => setAttribute d element "draggable" "true"))
                        (fun _ => on_dom (fun d => classList_add d element id))) w
    = (with_dom d' w, Ok tt)
    /\ document d' = document (dom w) /\ body d' = body (dom w)
    /\ forall m, node_at d' m
                 = (if mem_node m els then tagged id else fun x => x) <$> node_at (dom w) m.
Proof.
  intros Hels Hid. revert w Hels. induction els as [|el rest IH]; intros w Hels.
  - exists (dom w). cbn [forEach]. unfold ret. rewrite with_dom_same.
    repeat split. intros m. simpl. now destruct (node_at (dom w) m).
  - cbn [forallb] in Hels. apply andb_prop in Hels as [Hel Hrest].
    cbn [forEach]. unfold bind at 1. rewrite (init_element id el w Hel Hid).
    set (w1 := with_dom (update_node (tagged id) el (dom w)) w).
    assert (Hrest1 : forallb (is_element (dom w1)) rest = true).
    { apply forallb_forall. intros m Hm. unfold w1; simpl.
      rewrite is_element_update by reflexivity.
      now apply (proj1 (forallb_forall _ _) Hrest). }
    destruct (IH w1 Hrest1) as (d' & Hrun & Hdoc & Hbody & Hnodes).
    exists d'. split; [exact Hrun|]. split; [exact Hdoc|]. split; [exact Hbody|].
    intros m. rewrite Hnodes, mem_node_cons. unfold w1, with_dom. cbn [dom].
    destruct (Nat.eqb_spec m el) as [->|Hne]; cbn [orb].
    + rewrite node_at_update_eq. destruct (node_at (dom w) el) as [x|]; simpl; [|reflexivity].
      destruct (mem_node el rest); [now rewrite tagged_twice | reflexivity].
    + rewrite node_at_update_ne by congruence. reflexivity.
Qed.

(** X5: a constructor given a selector string, and options whose
    [pickup.parent] resolves to an element, returns with the five
    listeners bound on that element (the first match in the document, as
    the page was before tagging), the matches of the selector string as
    its managed elements, and each of them made draggable and tagged with
    the instance marker; it changes nothing else on the page and reports
    nothing. *)
Theorem constructor_binds_at_root `{SelectorEngine} (page : Dom) (s : string)
    (opts : UserOptions) (rnd sel : string) (root : NodeId) (els : list NodeId) :
  truthy (pickup_parent (pickup (assign_options opts))) = Some sel ->
  querySelectorAll page s = Ok els ->
  querySelector page sel = Ok (Some root) ->
  has_whitespace rnd = false ->
  exists w,
    new_DomMover page (ArgString s) opts rnd = (w, Ok tt)
    /\ listeners w = bound_listeners root
    /\ elements (self w) = els
    /\ options (self w) = assign_options opts
    /\ effects w = [] /\ frames w = []
    /\ document (dom w) = document page /\ body (dom w) = body page
    /\ forall m, node_at (dom w) m
                 = (if mem_node m els then tagged (generateInstanceId rnd) else fun x => x)
                     <$> node_at page m.
Proof.
  intros Hsel Hels Hroot Hrnd.
  assert (Hall : forallb (is_element page) els = true).
  { unfold querySelectorAll in Hels. destruct (parseSelector s); [|discriminate].
    injection Hels as <-. apply forallb_forall. intros m Hm.
    apply filter_In in Hm as [_ Hm]. now apply andb_prop in Hm as [Hm _]. }
  remember (assign_options opts) as o eqn:Ho.
  unfold new_DomMover, constructor, bind, get_dom, lift, ret, modify_self. simpl.
  rewrite Hels. simpl. rewrite <- Ho.
  unfold init, bind at 1, bindEvents, bind, get_dom, get_self, lift. simpl.
  unfold getParentElement, parent_selector. simpl. rewrite Hsel, Hroot.
  unfold addEventListener. simpl.
  set (w0 := mkWorld _ _ _ _ _).
  destruct (init_elements (generateInstanceId rnd) els w0 Hall
              (generateInstanceId_valid rnd Hrnd)) as (d' & Hrun & Hdoc & Hbody & Hnodes).
  exists (with_dom d' w0). split; [exact Hrun|]. simpl. repeat split; assumption.
Qed.

Lemma constructor_binds_at_root_witness :
  exists w,
    new_DomMover Examples.list_page (ArgString "#my-list li")
                 (Examples.scoped_options "#my-list") "k3x9q2a" = (w, Ok tt)
    /\ listeners w = bound_listeners 4
    /\ elements (self w) = [5; 7; 9]
    /\ options (self w) = assign_options (Examples.scoped_options "#my-list")
    /\ effects w = [] /\ frames w = []
    /\ document (dom w) = document Examples.list_page
    /\ body (dom w) = body Examples.list_page
    /\ forall m, node_at (dom w) m
                 = (if mem_node m [5; 7; 9] then tagged (generateInstanceId "k3x9q2a")
                    else fun x => x) <$> node_at Examples.list_page m.
Proof.
  apply (constructor_binds_at_root Examples.list_page "#my-list li"
           (Examples.scoped_options "#my-list") "k3x9q2a" "#my-list" 4 [5; 7; 9]);
    vm_compute; reflexivity.
Defined.

(** ** Draggability under a containment selector *)

Lemma head_filter_find {A : Type} (P : A -> bool) (l : list A) :
  head (List.filter P l) = find P l.
Proof.
  induction l as [|a t IH]; [reflexivity|]. simpl. destruct (P a); [reflexivity | exact IH].
Qed.

Section Scoped.
Context `{SelectorEngine}.

Lemma querySelector_first_match (d : Dom) (sel : string) (s : Selector) :
  parseSelector sel = Some s -> querySelector d sel = Ok (first_match s d).
Proof.
  intros Hs. unfold querySelector, querySelectorAll, first_match. rewrite Hs.
  now rewrite head_filter_find.
Qed.

(** With a containment selector the loop of [isDraggable] goes up to the
    boundary, unless a node on the way ends it: an element carrying the
    disabled class, or a node that is not an element, on which [matches]
    is not a function. *)
Lemma isDraggable_loop_with_selector (d : Dom) (i : Instance) (sel : string) (s : Selector)
    (chain : list NodeId) :
  truthy (pickup_parent (pickup (options i))) = Some sel ->
  parseSelector sel = Some s ->
  isDraggable_loop d i chain
  = match find (ends_walk d i) (upto_boundary (pickup_boundary s d) chain) with
    | Some c => if is_element d c then Ok true else Throw TypeError
    | None => Ok false
    end.
Proof.
  intros Hsel Hs. induction chain as [|current rest IH]; [reflexivity|].
  cbn [isDraggable_loop upto_boundary]. rewrite Hsel.
  unfold matches. rewrite Hs. unfold pickup_boundary at 1.
  destruct (is_element d current) eqn:Hel; cbn [andb].
  - assert (Hends : ends_walk d i current
                    = has_class d current
                        (as_string (pickup_disabledClass (pickup (options i))))).
    { unfold ends_walk, carries_disabled. now rewrite Hel. }
    destruct (has_class d current (as_string (pickup_disabledClass (pickup (options i)))))
      eqn:Hdis.
    + destruct (selectorMatches s d current || option_node_eqb (Some current) (body d));
        cbn [find]; rewrite Hends, Hel; reflexivity.
    + destruct (selectorMatches s d current); cbn [orb].
      * cbn [find]. now rewrite Hends.
      * destruct (option_node_eqb (Some current) (body d)); cbn [find]; rewrite Hends;
          [reflexivity | exact IH].
  - assert (Hends : ends_walk d i current = true).
    { unfold ends_walk. now rewrite Hel. }
    destruct (selectorMatches s d current || option_node_eqb (Some current) (body d));
      cbn [find]; rewrite Hends, Hel; reflexivity.
Qed.

End Scoped.

(** X6: with a containment selector configured that parses, [isDraggable]
    walks from the element up to the first node matching the selector or
    [document.body], whichever comes first, both included.  At the first
    node on the way that carries the disabled class or is not an element
    it stops: an element carrying the class makes it return [false]; a
    node that is not an element (the document, which the walk reaches from
    an element outside [document.body] and outside every match) makes it
    throw a [TypeError].  Past the walk it accepts the element exactly
    when the first match of the selector in the document, if there is one,
    contains the element and the element carries the instance marker.  So
    an element outside the first match of the selector is never draggable,
    even within a later match. *)
Theorem isDraggable_with_selector `{SelectorEngine} (d : Dom) (i : Instance)
    (element : NodeId) (sel : string) (s : Selector) :
  truthy (pickup_parent (pickup (options i))) = Some sel ->
  parseSelector sel = Some s ->
  isDraggable d i element
  = match find (ends_walk d i)
               (upto_boundary (pickup_boundary s d) (element :: ancestors d element)) with
    | Some c => if is_element d c then Ok false else Throw TypeError
    | None =>
        Ok (match first_match s d with
            | Some parentElement =>
                contains d parentElement element && has_class d element (instanceId i)
            | None => true
            end)
    end.
Proof.
  intros Hsel Hs. unfold isDraggable.
  rewrite (isDraggable_loop_with_selector d i sel s _ Hsel Hs).
  destruct (find (ends_walk d i) _) as [c|] eqn:Hfind.
  - now destruct (is_element d c).
  - unfold isWithinParent, parent_selector. rewrite Hsel.
    rewrite (querySelector_first_match d sel s Hs).
    destruct (first_match s d) as [p|]; [|reflexivity].
    destruct (contains d p element); [|reflexivity].
    assert (Hel : is_element d element = true).
    { cbn [upto_boundary] in Hfind.
      assert (Hhead : ends_walk d i element = false).
      { destruct (pickup_boundary s d element); cbn [find] in Hfind;
          destruct (ends_walk d i element); congruence. }
      unfold ends_walk in Hhead. apply orb_false_iff in Hhead as [Hhead _].
      now apply negb_false_iff in Hhead. }
    now rewrite Hel.
Qed.

Lemma isDraggable_with_selector_witness :
  isDraggable (dom Examples.scoped_list) (self Examples.scoped_list) 5 = Ok true
  /\ isDraggable (dom Examples.scoped_list) (self Examples.scoped_list) 2
     = Throw TypeError.
Proof.
  split.
  - rewrite (isDraggable_with_selector (H := BasicSelectors.engine)
               (dom Examples.scoped_list) (self Examples.scoped_list) 5
               "#my-list"
               [BasicSelectors.mkComplex [BasicSelectors.SId "my-list"] []]).
    + vm_compute. reflexivity.
    + vm_compute. reflexivity.
    + vm_compute. reflexivity.
  - rewrite (isDraggable_with_selector (H := BasicSelectors.engine)
               (dom Examples.scoped_list) (self Examples.scoped_list) 2
               "#my-list"
               [BasicSelectors.mkComplex [BasicSelectors.SId "my-list"] []]).
    + vm_compute. reflexivity.
    + vm_compute. reflexivity.
    + vm_compute. reflexivity.
Defined.

(** ** Events that change nothing *)

(** X7: [handleDragEnter] never changes the page, the instance, the
    listeners or the pending frames, whether it returns or throws: all it
    does is suppress the event's default action. *)
Theorem handleDragEnter_changes_nothing `{SelectorEngine} (e : Event) (w : World) :
  fst (handleDragEnter e w)
  = mkWorld (dom w) (self w) (effects w ++ [PreventDefault]) (listeners w) (frames w).
Proof.
  unfold handleDragEnter, bind, emit, get_dom, get_self, lift, ret. simpl.
  destruct (isDraggable (dom w) (self w) (target e)) as [[|]|err]; simpl; try reflexivity.
  now destruct (closest (dom w) (target e) (managed_selector (dom w) (self w))).
Qed.

(** ** Siblings, by position in the child list *)

Lemma after_app (b : NodeId) (l1 l2 : list NodeId) :
  ~ In b l1 -> after b (l1 ++ b :: l2) = l2.
Proof.
  induction l1 as [|a t IH]; simpl; intros Hn; [now rewrite Nat.eqb_refl|].
  destruct (Nat.eqb_spec a b) as [->|Hne]; [exfalso; apply Hn; now left|].
  apply IH. intros Hin. apply Hn. now right.
Qed.

Lemma before_rev_app (acc : list NodeId) (b : NodeId) (l1 l2 : list NodeId) :
  ~ In b l1 -> before_rev acc b (l1 ++ b :: l2) = rev l1 ++ acc.
Proof.
  revert acc. induction l1 as [|a t IH]; simpl; intros acc Hn; [now rewrite Nat.eqb_refl|].
  destruct (Nat.eqb_spec a b) as [->|Hne]; [exfalso; apply Hn; now left|].
  rewrite IH by (intros Hin; apply Hn; now right). now rewrite <- app_assoc.
Qed.

Lemma in_split_first (b : NodeId) (l : list NodeId) :
  In b l -> exists l1 l2, l = l1 ++ b :: l2 /\ ~ In b l1.
Proof.
  induction l as [|a t IH]; simpl; [tauto|]. intros Hin.
  destruct (Nat.eq_dec a b) as [->|Hne].
  - exists [], t. split; [reflexivity | tauto].
  - destruct Hin as [->|Hin]; [congruence|].
    destruct (IH Hin) as (l1 & l2 & -> & Hn).
    exists (a :: l1), l2. split; [reflexivity|]. simpl. intros [->|Hin']; [congruence | tauto].
Qed.

Lemma find_split {A : Type} (P : A -> bool) (l : list A) (p : A) :
  find P l = Some p ->
  exists m r, l = m ++ p :: r /\ (forall x, In x m -> P x = false) /\ P p = true.
Proof.
  induction l as [|a t IH]; simpl; [discriminate|].
  destruct (P a) eqn:Ha.
  - intros Heq. injection Heq as <-. exists [], t. repeat split; [|assumption].
    intros x [].
  - intros Hf. destruct (IH Hf) as (m & r & -> & Hm & Hp).
    exists (a :: m), r. repeat split; [|assumption].
    intros x [<-|Hx]; [assumption | now apply Hm].
Qed.

Lemma find_app_skip {A : Type} (P : A -> bool) (m l : list A) :
  (forall x, In x m -> P x = false) -> find P (m ++ l) = find P l.
Proof.
  induction m as [|a t IH]; simpl; intros Hm; [reflexivity|].
  rewrite (Hm a) by now left. apply IH. intros x Hx. apply Hm. now right.
Qed.



Lemma nodup_nodes_app_cons (b : NodeId) (l1 l2 : list NodeId) :
  nodup_nodes (l1 ++ b :: l2) = true -> ~ In b l1 /\ ~ In b l2.
Proof.
  induction l1 as [|a t IH]; simpl; intros Hnd.
  - apply andb_prop in Hnd as [Hb _]. apply negb_true_iff, mem_node_false in Hb. tauto.
  - apply andb_prop in Hnd as [Ha Hnd]. apply negb_true_iff, mem_node_false in Ha.
    destruct (IH Hnd) as [H1 H2]. split; [|assumption].
    intros [->|Hin]; [|tauto]. apply Ha. apply in_or_app. right. now left.
Qed.

(** What [nextElementSibling] and [previousElementSibling] say about the
    child list of the parent. *)
Lemma nextElementSibling_split (d : Dom) (b par p : NodeId) :
  parent_of d b = Some par -> In b (children_of d par) ->
  nextElementSibling d b = Some p ->
  exists l1 m r,
    children_of d par = l1 ++ b :: m ++ p :: r
    /\ ~ In b l1 /\ (forall x, In x m -> is_element d x = false) /\ is_element d p = true.
Proof.
  intros Hpar Hin Hnext. rewrite (nextElementSibling_find d b par Hpar) in Hnext.
  destruct (in_split_first b _ Hin) as (l1 & l2 & Hl & Hn).
  rewrite Hl, (after_app b l1 l2 Hn) in Hnext.
  destruct (find_split _ _ _ Hnext) as (m & r & -> & Hm & Hp).
  now exists l1, m, r.
Qed.


Lemma previousElementSibling_joined (d : Dom) (b par p : NodeId) (l1 m r : list NodeId) :
  parent_of d b = Some par ->
  children_of d par = l1 ++ p :: m ++ b :: r ->
  ~ In b (l1 ++ p :: m) -> (forall x, In x m -> is_element d x = false) ->
  is_element d p = true ->
  previousElementSibling d b = Some p.
Proof.
  intros Hpar Hl Hn Hm Hp. rewrite (previousElementSibling_find d b par Hpar), Hl.
  replace (l1 ++ p :: m ++ b :: r) with ((l1 ++ p :: m) ++ b :: r)
    by (rewrite <- app_assoc; reflexivity).
  rewrite (before_rev_app [] b _ r Hn), app_nil_r, rev_app_distr. simpl.
  rewrite <- app_assoc. rewrite find_app_skip.
  - simpl. now rewrite Hp.
  - intros x Hx. apply Hm. now apply in_rev.
Qed.

Lemma previousElementSibling_split (d : Dom) (b par p : NodeId) :
  parent_of d b = Some par -> In b (children_of d par) ->
  previousElementSibling d b = Some p ->
  exists l1 m r,
    children_of d par = l1 ++ p :: m ++ b :: r
    /\ ~ In b (l1 ++ p :: m) /\ (forall x, In x m -> is_element d x = false)
    /\ is_element d p = true.
Proof.
  intros Hpar Hin Hprev. rewrite (previousElementSibling_find d b par Hpar) in Hprev.
  destruct (in_split_first b _ Hin) as (pre & r & Hl & Hn).
  rewrite Hl, (before_rev_app [] b pre r Hn), app_nil_r in Hprev.
  destruct (find_split _ _ _ Hprev) as (a & c & Hrev & Ha & Hp).
  assert (Hpre : pre = rev c ++ p :: rev a).
  { rewrite <- (rev_involutive pre), Hrev, rev_app_distr. simpl.
    now rewrite <- app_assoc. }
  exists (rev c), (rev a), r. split; [|split; [|split]].
  - rewrite Hl, Hpre, <- app_assoc. reflexivity.
  - now rewrite <- Hpre.
  - intros x Hx. apply Ha. now apply in_rev in Hx.
  - exact Hp.
Qed.

(** ** What [insertBefore] leaves alone *)

Lemma insertBefore_shape (d d' : Dom) (par : NodeId) (node child : option NodeId) :
  insertBefore d par node child = Ok d' ->
  exists n ref, node = Some n
                /\ d' = recorded (Inserted par n child) (attach (detach d n) par n ref)
                /\ kind_of d par <> None /\ kind_of d n <> None
                /\ contains d n par = false.
Proof.
  unfold insertBefore. destruct node as [n|]; [|discriminate].
  destruct (kind_of d par) as [pk|] eqn:Hpk; [|discriminate].
  destruct pk; try discriminate;
    destruct (contains d n par) eqn:Hc; try discriminate;
    destruct (match child with Some c => _ | None => false end); try discriminate;
    destruct (kind_of d n) as [[]|] eqn:Hk; try discriminate;
    try (destruct (existsb (is_element d) (children_of d par)); try discriminate);
    intros Hok; injection Hok as <-; eexists; eexists;
    (split; [reflexivity|]); (split; [reflexivity|]); repeat split; congruence.
Qed.

Lemma insertBefore_is_element (d d' : Dom) (par : NodeId) (node child : option NodeId) :
  insertBefore d par node child = Ok d' -> forall m, is_element d' m = is_element d m.
Proof.
  intros Hins m. destruct (insertBefore_shape _ _ _ _ _ Hins) as (n & ref & _ & -> & _).
  off_record. now rewrite attach_is_element, detach_is_element.
Qed.


Lemma positionPlaceholder_is_element (d d' : Dom) (i : Instance) (e : Event) (below : NodeId) :
  positionPlaceholder d i e below = Ok d' -> forall m, is_element d' m = is_element d m.
Proof.
  unfold positionPlaceholder. intros Hpos m.
  repeat match type of Hpos with
         | (if ?c then _ else _) = _ => destruct c
         | match ?x with _ => _ end = _ => destruct x
         end;
    try discriminate;
    try (injection Hpos as <-; reflexivity);
    now apply (insertBefore_is_element _ _ _ _ _ Hpos).
Qed.

Lemma positionPlaceholder_wf (d d' : Dom) (i : Instance) (e : Event) (below : NodeId) :
  wf_dom d = true -> positionPlaceholder d i e below = Ok d' -> wf_dom d' = true.
Proof.
  unfold positionPlaceholder. intros Hwf Hpos.
  repeat match type of Hpos with
         | (if ?c then _ else _) = _ => destruct c
         | match ?x with _ => _ end = _ => destruct x
         end;
    try discriminate;
    try (injection Hpos as <-; assumption);
    now apply (insertBefore_wf _ _ _ _ _ Hwf Hpos).
Qed.

(** ** Neighbours in a well-formed page *)

Lemma wf_children (d : Dom) (par c : NodeId) :
  wf_dom d = true -> In c (children_of d par) ->
  parent_of d c = Some par /\ nodup_nodes (children_of d par) = true.
Proof.
  intros Hwf Hin. pose proof (wf_dom_node d par Hwf (children_node d par c Hin)) as Hp.
  apply wf_node_parts in Hp as (Hlinks & _ & Hnd).
  split; [now apply (child_links_parent d par c Hlinks) | exact Hnd].
Qed.

Lemma nextElementSibling_parent (d : Dom) (b p : NodeId) :
  nextElementSibling d b = Some p -> exists par, parent_of d b = Some par.
Proof.
  unfold nextElementSibling, following_siblings.
  destruct (parent_of d b) as [par|]; [eauto | discriminate].
Qed.

Lemma previousElementSibling_parent (d : Dom) (b p : NodeId) :
  previousElementSibling d b = Some p -> exists par, parent_of d b = Some par.
Proof.
  unfold previousElementSibling, preceding_siblings.
  destruct (parent_of d b) as [par|]; [eauto | discriminate].
Qed.

(** The next element sibling of an element has that element as its
    previous element sibling. *)
Lemma next_then_previous (d : Dom) (b p : NodeId) :
  wf_dom d = true -> is_element d b = true ->
  nextElementSibling d b = Some p -> previousElementSibling d p = Some b.
Proof.
  intros Hwf Hb Hnext. destruct (nextElementSibling_parent d b p Hnext) as [par Hpar].
  pose proof (wf_parent_lists_child d b par Hwf Hpar) as Hin.
  destruct (nextElementSibling_split d b par p Hpar Hin Hnext)
    as (l1 & m & r & Hl & Hn & Hm & Hp).
  assert (Hpin : In p (children_of d par)).
  { rewrite Hl. apply in_or_app. right. right. apply in_or_app. right. now left. }
  destruct (wf_children d par p Hwf Hpin) as [Hppar Hnd].
  apply (previousElementSibling_joined d p par b l1 m r Hppar Hl); try assumption.
  rewrite Hl in Hnd.
  replace (l1 ++ b :: m ++ p :: r) with ((l1 ++ b :: m) ++ p :: r) in Hnd
    by (rewrite <- app_assoc; reflexivity).
  now apply nodup_nodes_app_cons in Hnd as [Hnd _].
Qed.

(** An element is not the previous element sibling of its own previous
    element sibling. *)
Lemma previous_not_back (d : Dom) (b p : NodeId) :
  wf_dom d = true ->
  previousElementSibling d b = Some p -> previousElementSibling d p <> Some b.
Proof.
  intros Hwf Hprev Hback.
  destruct (previousElementSibling_parent d b p Hprev) as [par Hpar].
  pose proof (wf_parent_lists_child d b par Hwf Hpar) as Hin.
  destruct (previousElementSibling_split d b par p Hpar Hin Hprev)
    as (l1 & m & r & Hl & Hn & Hm & Hp).
  assert (Hpin : In p (children_of d par)).
  { rewrite Hl. apply in_or_app. right. now left. }
  destruct (wf_children d par p Hwf Hpin) as [Hppar Hnd].
  rewrite Hl in Hnd. apply nodup_nodes_app_cons in Hnd as [Hp1 _].
  rewrite (previousElementSibling_find d p par Hppar), Hl in Hback.
  rewrite (before_rev_app [] p l1 _ Hp1), app_nil_r in Hback.
  apply find_some in Hback as [Hin' _]. apply in_rev in Hin'.
  apply Hn. apply in_or_app. now left.
Qed.

Lemma closest_is_element `{SelectorEngine} (d : Dom) (n below : NodeId) (sel : string) :
  closest d n sel = Ok (Some below) -> is_element d below = true.
Proof.
  unfold closest. destruct (is_element d n); [|discriminate].
  destruct (parseSelector sel); [|discriminate]. intros Hf. injection Hf as Hf.
  change (find (fun a => is_element d a && selectorMatches s d a) (n :: ancestors d n)
          = Some below) in Hf.
  apply find_some in Hf as [_ Hm]. now apply andb_prop in Hm as [Hm _].
Qed.

(** X8: the position a tick reports to the [drag] callback.  On a tick
    of a gesture under way that moved vertically and finds the callback
    due, the callback is called once, with the event, the dragged element,
    the element below and ['top'] when the pointer moved down (the
    placeholder then follows the element below), ['bottom'] when it moved
    up (the placeholder then precedes it). *)
Theorem drag_callback_position `{SelectorEngine} (e : Event) (w : World) (below : NodeId)
    (f : Callback) :
  closest (dom w) (target e) (managed_selector (dom w) (self w)) = Ok (Some below) ->
  draggedItem (self w) <> Some below ->
  can_place (dom w) (self w) below = true ->
  cb_drag (callbacks (options (self w))) = Some f ->
  dragCallbackDue (self w) below (mouseDirection (self w) e) = true ->
  clientY e <> lastMouseY (self w) ->
  calls CbDrag (effects (fst (handleDragOver e w)))
  = calls CbDrag (effects w)
    ++ [[VEvent e; node_or_null (draggedItem (self w)); VNode below;
         VStr (if (lastMouseY (self w) <? clientY e)%Z then "top" else "bottom")]].
Proof.
  intros Hclosest Hdragged Hc Hcb Hdue Hmoved.
  destruct (can_place_parts _ _ _ Hc) as (ph & par & Hph & _ & Hwf & _ & _ & _ & Hne).
  destruct (positionPlaceholder_places (dom w) (self w) e below ph Hc Hph)
    as (d' & Hpos & Hdown & Hup & _).
  rewrite (handleDragOver_resolved e w below ph d' Hclosest Hdragged Hph Hne Hpos).
  unfold after_tick, tick_dispatch; simpl. rewrite Hdue, Hcb, !calls_app. simpl.
  rewrite app_nil_r. do 4 f_equal.
  pose proof (positionPlaceholder_wf _ _ _ _ _ Hwf Hpos) as Hwf'.
  assert (Hel : is_element d' below = true).
  { rewrite (positionPlaceholder_is_element _ _ _ _ _ Hpos).
    exact (closest_is_element _ _ _ _ Hclosest). }
  unfold placeholderPosition.
  destruct (Z.ltb_spec (lastMouseY (self w)) (clientY e)) as [Hlt|Hge].
  - rewrite (next_then_previous d' below ph Hwf' Hel (Hdown Hlt)). simpl.
    now rewrite Nat.eqb_refl.
  - assert (Hlt : (clientY e < lastMouseY (self w))%Z) by lia.
    pose proof (previous_not_back d' below ph Hwf' (Hup Hlt)) as Hnb.
    apply option_node_eqb_neq in Hnb. now rewrite Hnb.
Qed.

Lemma drag_callback_position_witness :
  calls CbDrag (effects (fst (handleDragOver (mkEvent 9 30) Examples.picked_up)))
  = calls CbDrag (effects Examples.picked_up)
    ++ [[VEvent (mkEvent 9 30); node_or_null (draggedItem (self Examples.picked_up)); VNode 9;
         VStr (if (lastMouseY (self Examples.picked_up) <? 30)%Z
               then "top" else "bottom")]].
Proof.
  apply (drag_callback_position (mkEvent 9 30) Examples.picked_up 9 Examples.observer).
  - vm_compute. reflexivity.
  - vm_compute. discriminate.
  - vm_compute. reflexivity.
  - vm_compute. reflexivity.
  - vm_compute. reflexivity.
  - vm_compute. discriminate.
Defined.

(** ** Ancestors after a move *)

Lemma update_node_length (f : Node -> Node) (n : NodeId) (d : Dom) :
  length (nodes (update_node f n d)) = length (nodes d).
Proof. unfold update_node. simpl. apply length_alter. Qed.

Lemma detach_length (d : Dom) (n : NodeId) : length (nodes (detach d n)) = length (nodes d).
Proof.
  unfold detach. destruct (parent_of d n); [|reflexivity].
  unfold set_parent, set_children. now rewrite !update_node_length.
Qed.

Lemma attach_length (d : Dom) (par n : NodeId) (ref : option NodeId) :
  length (nodes (attach d par n ref)) = length (nodes d).
Proof. unfold attach, set_parent, set_children. now rewrite !update_node_length. Qed.



Lemma contains_false (d : Dom) (a b : NodeId) :
  contains d a b = false <-> a <> b /\ ~ In a (ancestors d b).
Proof.
  unfold contains. rewrite orb_false_iff, Nat.eqb_neq, mem_node_false. reflexivity.
Qed.



(** ** The drop and the drag end, run *)

Section Runs.
Context `{SelectorEngine}.


(** Drag end of a gesture whose dragged item is an element and whose
    pickup class string is valid: the tokens are removed, the placeholder
    is taken out of the page if it is in it, the gesture fields are
    cleared. *)
Lemma handleDragEnd_run (e : Event) (w : World) (it ph : NodeId) :
  draggedItem (self w) = Some it ->
  is_element (dom w) it = true ->
  forallb valid_token (class_tokens (pickup_addClass (pickup (options (self w))))) = true ->
  placeholder (self w) = Some ph ->
  handleDragEnd e w
  = (mkWorld (taken_out
                (update_node
                   (with_classList
                      (List.filter
                         (fun c => negb (mem_string c
                                           (class_tokens
                                              (pickup_addClass (pickup (options (self w)))))))
                         (classes_of (dom w) it)))
                   it (dom w)) ph)
             (cleared (self w)) (effects w) (listeners w) (frames w), Ok tt).
Proof.
  intros Hit Hel Htok Hph.
  unfold handleDragEnd. unfold bind at 1, get_self. rewrite Hit.
  unfold bind at 1.
  destruct (removeClasses_run it (pickup_addClass (pickup (options (self w)))) w Hel)
    as [Hrun _].
  rewrite (Hrun Htok), remove_tokens_filter.
  set (dc := update_node _ it (dom w)).
  unfold bind at 1, get_dom. cbn [dom with_dom self]. rewrite Hph.
  assert (Hpar : parent_of dc ph = parent_of (dom w) ph).
  { unfold dc. now apply update_node_parent. }
  unfold taken_out. rewrite Hpar.
  destruct (parent_of (dom w) ph) as [par|] eqn:Hp.
  - unfold bind, on_dom, bind, get_dom, lift, put_dom, modify_self, removeChild. simpl.
    rewrite Hpar. simpl. rewrite Nat.eqb_refl. reflexivity.
  - reflexivity.
Qed.

Lemma node_at_taken_out (d : Dom) (n m : NodeId) :
  node_at (taken_out d n) m = node_at (detach d n) m.
Proof. unfold taken_out, detach. now destruct (parent_of d n). Qed.

End Runs.

(** ** Where a drop and the drag end leave the dragged element *)



Lemma remove_node_subset (n x : NodeId) (l : list NodeId) :
  In x (remove_node n l) -> In x l.
Proof. intros Hin. now apply remove_node_in in Hin as [Hin _]. Qed.



Lemma detach_children_own (d : Dom) (p q : NodeId) :
  parent_of d p = Some q -> node_at d q <> None ->
  children_of (detach d p) q = remove_node p (children_of d q).
Proof.
  intros Hp Hq. unfold detach. rewrite Hp, children_of_set_parent.
  now apply children_of_set_children_eq.
Qed.










(** ** The order of the page's own nodes *)

Lemma own_nodes_remove (d0 : Dom) (n : NodeId) (l : list NodeId) :
  length (nodes d0) <= n -> own_nodes d0 (remove_node n l) = own_nodes d0 l.
Proof.
  intros Hn. unfold own_nodes. induction l as [|a t IH]; simpl; [reflexivity|].
  destruct (Nat.eqb_spec a n) as [->|Hne].
  - destruct (Nat.ltb_spec n (length (nodes d0))); [lia | exact IH].
  - simpl. now rewrite IH.
Qed.

Lemma own_nodes_place (d0 : Dom) (n : NodeId) (ref : option NodeId) (l : list NodeId) :
  length (nodes d0) <= n -> own_nodes d0 (place n ref l) = own_nodes d0 l.
Proof.
  intros Hn. unfold own_nodes.
  assert (Hout : Nat.ltb n (length (nodes d0)) = false) by (apply Nat.ltb_ge; lia).
  destruct ref as [r|]; simpl.
  - induction l as [|a t IH]; simpl; [now rewrite Hout|].
    destruct (Nat.eqb a r); simpl; [now rewrite Hout | now rewrite IH].
  - rewrite List.filter_app. simpl. rewrite Hout. apply app_nil_r.
Qed.

Lemma own_nodes_all (d0 : Dom) (l : list NodeId) :
  (forall c, In c l -> c < length (nodes d0)) -> own_nodes d0 l = l.
Proof.
  intros Hall. apply filter_keeps_all. intros c Hc. apply Nat.ltb_lt. now apply Hall.
Qed.

Lemma node_at_lt (d : Dom) (n : NodeId) : node_at d n <> None <-> n < length (nodes d).
Proof.
  unfold node_at. split.
  - intros Hn. destruct (nodes d !! n) eqn:Hl; [|congruence]. now apply lookup_lt_Some in Hl.
  - intros Hlt Hn. apply lookup_ge_None in Hn. lia.
Qed.

Lemma same_order_start (d0 : Dom) : wf_dom d0 = true -> same_order d0 d0.
Proof.
  intros Hwf. split; [lia|]. intros n Hn. split; [|reflexivity].
  apply own_nodes_all. intros c Hc.
  destruct (wf_children d0 n c Hwf Hc) as [Hp _].
  apply node_at_lt. now apply (parent_of_node d0 c n).
Qed.

(** Pages with the same tree keep the order alike. *)
Lemma same_order_same_tree (d0 d d' : Dom) :
  length (nodes d) <= length (nodes d') ->
  (forall m, m < length (nodes d0) -> children_of d' m = children_of d m) ->
  (forall m, m < length (nodes d0) -> parent_of d' m = parent_of d m) ->
  same_order d0 d -> same_order d0 d'.
Proof.
  intros Hlen Hc Hp [Hl Hsame]. split; [lia|]. intros n Hn.
  rewrite (Hc n Hn), (Hp n Hn). now apply Hsame.
Qed.

Lemma same_order_update (d0 d : Dom) (f : Node -> Node) (n : NodeId) :
  (forall x, parentNode (f x) = parentNode x) ->
  (forall x, childNodes (f x) = childNodes x) ->
  same_order d0 d -> same_order d0 (update_node f n d).
Proof.
  intros Hp Hc. apply same_order_same_tree.
  - now rewrite update_node_length.
  - intros m _. now apply update_node_children.
  - intros m _. now apply update_node_parent.
Qed.

Lemma same_order_classList_add (d0 d d' : Dom) (n : NodeId) (c : string) :
  same_order d0 d -> classList_add d n c = Ok d' -> same_order d0 d'.
Proof.
  intros Hs. unfold classList_add. destruct (is_element d n); [|discriminate].
  destruct (check_token c); [|discriminate].
  destruct (has_class d n c); intros Hok; injection Hok as <-; [assumption|].
  now apply same_order_update.
Qed.

Lemma same_order_classList_remove (d0 d d' : Dom) (n : NodeId) (c : string) :
  same_order d0 d -> classList_remove d n c = Ok d' -> same_order d0 d'.
Proof.
  intros Hs. unfold classList_remove. destruct (is_element d n); [|discriminate].
  destruct (check_token c); [|discriminate].
  intros Hok; injection Hok as <-. now apply same_order_update.
Qed.

Lemma same_order_setAttribute (d0 d d' : Dom) (n : NodeId) (k v : string) :
  same_order d0 d -> setAttribute d n k v = Ok d' -> same_order d0 d'.
Proof.
  intros Hs. unfold setAttribute. destruct (is_element d n); [|discriminate].
  intros Hok; injection Hok as <-. now apply same_order_update.
Qed.

Lemma same_order_setStyle (d0 d d' : Dom) (n : NodeId) (k v : string) :
  same_order d0 d -> setStyle d n k v = Ok d' -> same_order d0 d'.
Proof.
  intros Hs. unfold setStyle. destruct (is_element d n); [|discriminate].
  intros Hok; injection Hok as <-. now apply same_order_update.
Qed.

Lemma same_order_add_node (d0 d : Dom) (x : Node) :
  same_order d0 d -> same_order d0 (add_node x d).
Proof.
  intros Hs. pose proof Hs as [Hl _]. revert Hs. apply same_order_same_tree.
  - unfold add_node. simpl. rewrite length_app. lia.
  - intros m Hm. unfold children_of. rewrite node_at_add_old; [reflexivity|].
    apply node_at_lt. lia.
  - intros m Hm. unfold parent_of. rewrite node_at_add_old; [reflexivity|].
    apply node_at_lt. lia.
Qed.

Lemma detach_children_cases (d : Dom) (n m : NodeId) :
  children_of (detach d n) m = children_of d m
  \/ children_of (detach d n) m = remove_node n (children_of d m).
Proof.
  unfold detach. destruct (parent_of d n) as [q|]; [|now left].
  rewrite children_of_set_parent. destruct (Nat.eq_dec q m) as [->|Hne].
  - destruct (node_at d m) eqn:Hm.
    + right. apply children_of_set_children_eq. congruence.
    + left. unfold children_of, set_children. rewrite node_at_update_eq. now rewrite Hm.
  - left. now apply children_of_set_children_ne.
Qed.

Lemma attach_children_cases (d : Dom) (par n : NodeId) (ref : option NodeId) (m : NodeId) :
  children_of (attach d par n ref) m = children_of d m
  \/ children_of (attach d par n ref) m = place n ref (children_of d m).
Proof.
  unfold attach. rewrite children_of_set_parent. destruct (Nat.eq_dec par m) as [->|Hne].
  - destruct (node_at d m) eqn:Hm.
    + right. apply children_of_set_children_eq. congruence.
    + left. unfold children_of, set_children. rewrite node_at_update_eq. now rewrite Hm.
  - left. now apply children_of_set_children_ne.
Qed.

(** Taking out, or putting in, a node created after [d0] keeps the order. *)
Lemma same_order_detach (d0 d : Dom) (n : NodeId) :
  length (nodes d0) <= n -> same_order d0 d -> same_order d0 (detach d n).
Proof.
  intros Hn [Hl Hsame]. split; [rewrite detach_length; lia|]. intros m Hm.
  destruct (Hsame m Hm) as [Hc Hp]. split.
  - destruct (detach_children_cases d n m) as [-> | ->]; [assumption|].
    now rewrite own_nodes_remove.
  - rewrite detach_parent_ne by lia. exact Hp.
Qed.

Lemma same_order_attach (d0 d : Dom) (par n : NodeId) (ref : option NodeId) :
  length (nodes d0) <= n -> same_order d0 d -> same_order d0 (attach d par n ref).
Proof.
  intros Hn [Hl Hsame]. split; [rewrite attach_length; lia|]. intros m Hm.
  destruct (Hsame m Hm) as [Hc Hp]. split.
  - destruct (attach_children_cases d par n ref m) as [-> | ->]; [assumption|].
    now rewrite own_nodes_place.
  - rewrite attach_parent_ne by lia. exact Hp.
Qed.

Lemma same_order_insertBefore (d0 d d' : Dom) (par n : NodeId) (child : option NodeId) :
  length (nodes d0) <= n -> same_order d0 d ->
  insertBefore d par (Some n) child = Ok d' -> same_order d0 d'.
Proof.
  intros Hn Hs Hins. destruct (insertBefore_shape _ _ _ _ _ Hins) as (n' & ref & Heq & -> & _).
  injection Heq as <-. now apply same_order_attach, same_order_detach.
Qed.

Lemma same_order_removeChild (d0 d d' : Dom) (par n : NodeId) :
  length (nodes d0) <= n -> same_order d0 d ->
  removeChild d par (Some n) = Ok d' -> same_order d0 d'.
Proof.
  intros Hn Hs. unfold removeChild.
  destruct (option_node_eqb (parent_of d n) (Some par)); [|discriminate].
  intros Hok. injection Hok as <-. now apply same_order_detach.
Qed.

Lemma same_order_cloneNode (d0 d : Dom) (n : NodeId) :
  wf_dom d = true -> same_order d0 d ->
  same_order d0 (fst (cloneNode d n))
  /\ forall c, snd (cloneNode d n) = Some c -> length (nodes d0) <= c.
Proof.
  intros Hwf Hs. unfold cloneNode.
  destruct (cloneNode_upto_wf (S (length (nodes d))) d n Hwf) as (_ & Hold & Hnew).
  pose proof Hs as [Hl _].
  assert (Hlen : length (nodes d) <= length (nodes (fst (cloneNode_upto (S (length (nodes d))) d n)))).
  { destruct (Nat.le_gt_cases (length (nodes d))
                (length (nodes (fst (cloneNode_upto (S (length (nodes d))) d n)))))
      as [Hle|Hgt]; [exact Hle|].
    exfalso.
    set (k := length (nodes (fst (cloneNode_upto (S (length (nodes d))) d n)))) in *.
    assert (Hk : node_at d k <> None) by (apply node_at_lt; lia).
    pose proof (Hold k Hk) as Heq.
    assert (Hnone : node_at (fst (cloneNode_upto (S (length (nodes d))) d n)) k = None).
    { unfold node_at. apply lookup_ge_None. unfold k. lia. }
    congruence. }
  split.
  - revert Hs. apply same_order_same_tree; [exact Hlen | |].
    + intros m Hm. unfold children_of. rewrite Hold; [reflexivity|]. apply node_at_lt. lia.
    + intros m Hm. unfold parent_of. rewrite Hold; [reflexivity|]. apply node_at_lt. lia.
  - intros c Hc. destruct (Hnew c Hc) as (Hfree & _).
    destruct (Nat.le_gt_cases (length (nodes d0)) c) as [Hle|Hgt]; [exact Hle|].
    exfalso. revert Hfree. apply node_at_lt. lia.
Qed.

(** *** Computations that keep the order *)

Lemma keeps_bind_any (P : World -> Prop) {A B : Type} (m : M A) (k : A -> M B) :
  keeps P m -> (forall a, keeps P (k a)) -> keeps P (bind m k).
Proof.
  intros Hm Hk w Hw. unfold bind. specialize (Hm w Hw).
  destruct (m w) as [w' [a|err]]; simpl in *; [|exact Hm].
  now apply Hk.
Qed.

Lemma keeps_forEach_any (P : World -> Prop) {A : Type} (l : list A) (f : A -> M unit) :
  (forall x, keeps P (f x)) -> keeps P (forEach l f).
Proof.
  intros Hf. induction l as [|x r IH]; [now intros w|].
  cbn [forEach]. apply keeps_bind_any; [apply Hf | intros _; exact IH].
Qed.

Section Kept.
Variable d0 : Dom.

(** A computation that leaves the page, the placeholder and the pending
    frames alone keeps the order. *)
Lemma kept_aside {A : Type} (m : M A) :
  (forall w, dom (fst (m w)) = dom w
             /\ placeholder (self (fst (m w))) = placeholder (self w)
             /\ frames (fst (m w)) = frames w) ->
  keeps (page_kept d0) m.
Proof.
  intros Hm w (Hwf & Hs & Hph & Hfr). destruct (Hm w) as (Hd & Hp & Hf).
  unfold page_kept, own_fresh. now rewrite Hd, Hp, Hf.
Qed.

Lemma kept_get_dom {B : Type} (k : Dom -> M B) :
  (forall d, wf_dom d = true -> same_order d0 d -> keeps (page_kept d0) (k d)) ->
  keeps (page_kept d0) (bind get_dom k).
Proof. intros Hk w Hw. unfold bind, get_dom. destruct Hw as (Hwf & Hs & Hf). now apply Hk. Qed.

Lemma kept_get_self {B : Type} (k : Instance -> M B) :
  (forall i, (forall ph, placeholder i = Some ph -> length (nodes d0) <= ph) ->
             keeps (page_kept d0) (k i)) ->
  keeps (page_kept d0) (bind get_self k).
Proof.
  intros Hk w Hw. unfold bind, get_self. destruct Hw as (Hwf & Hs & Hph & Hfr).
  now apply Hk.
Qed.

Lemma kept_put_dom (d : Dom) :
  wf_dom d = true -> same_order d0 d -> keeps (page_kept d0) (put_dom d).
Proof. intros Hwf Hs w (_ & _ & Hf). now split. Qed.

Lemma kept_on_dom (f : Dom -> Result Dom) :
  (forall d d', wf_dom d = true -> same_order d0 d -> f d = Ok d' ->
                wf_dom d' = true /\ same_order d0 d') ->
  keeps (page_kept d0) (on_dom f).
Proof.
  intros Hf w (Hwf & Hs & Hfr). unfold on_dom, bind, get_dom, lift, put_dom. simpl.
  destruct (f (dom w)) as [d'|err] eqn:Hfd; simpl; [|now split].
  destruct (Hf _ _ Hwf Hs Hfd). now split.
Qed.

Lemma kept_set_placeholder (ph : option NodeId) :
  (forall p, ph = Some p -> length (nodes d0) <= p) ->
  keeps (page_kept d0) (modify_self (set_placeholder ph)).
Proof.
  intros Hp w (Hwf & Hs & Hph & Hfr).
  split; [exact Hwf|]. split; [exact Hs|]. split; [|exact Hfr].
  intros p Heq. simpl in Heq. now apply Hp.
Qed.

Lemma kept_requestAnimationFrame (image : NodeId) :
  length (nodes d0) <= image -> keeps (page_kept d0) (requestAnimationFrame image).
Proof.
  intros Hi w (Hwf & Hs & Hph & Hfr).
  split; [exact Hwf|]. split; [exact Hs|]. split; [exact Hph|].
  intros f Hin. simpl in Hin. apply in_app_or in Hin as [Hin|[<-|[]]]; [now apply Hfr | exact Hi].
Qed.

Ltac aside := apply kept_aside; intros ?; repeat split; reflexivity.

Lemma kept_invoke (name : CallbackName) (cb : option Callback) (args : list Value) :
  keeps (page_kept d0) (invoke name cb args).
Proof.
  unfold invoke. destruct cb; [|aside].
  apply keeps_bind_any; [aside | intros _; aside].
Qed.

Lemma kept_log (msg : string) : keeps (page_kept d0) (log msg).
Proof.
  unfold log. apply keeps_bind_any; [aside|]. intros i. destruct (debug (options i)); aside.
Qed.

Lemma kept_classList_add (n : NodeId) (c : string) :
  keeps (page_kept d0) (on_dom (fun d => classList_add d n c)).
Proof.
  apply kept_on_dom. intros d d' Hwf Hs Hok. split;
    [now apply (classList_add_wf d d' n c) | now apply (same_order_classList_add d0 d d' n c)].
Qed.

Lemma kept_classList_remove (n : NodeId) (c : string) :
  keeps (page_kept d0) (on_dom (fun d => classList_remove d n c)).
Proof.
  apply kept_on_dom. intros d d' Hwf Hs Hok. split;
    [now apply (classList_remove_wf d d' n c)
    | now apply (same_order_classList_remove d0 d d' n c)].
Qed.

Lemma kept_setAttribute (n : NodeId) (k v : string) :
  keeps (page_kept d0) (on_dom (fun d => setAttribute d n k v)).
Proof.
  apply kept_on_dom. intros d d' Hwf Hs Hok. split;
    [now apply (setAttribute_wf d d' n k v) | now apply (same_order_setAttribute d0 d d' n k v)].
Qed.

Lemma kept_setStyle (n : NodeId) (k : string) (v : Dom -> string) :
  keeps (page_kept d0) (on_dom (fun d => setStyle d n k (v d))).
Proof.
  apply kept_on_dom. intros d d' Hwf Hs Hok. split;
    [now apply (setStyle_wf d d' n k (v d))
    | now apply (same_order_setStyle d0 d d' n k (v d))].
Qed.

Lemma kept_insertBefore (par n : NodeId) (child : Dom -> option NodeId) :
  length (nodes d0) <= n ->
  keeps (page_kept d0) (on_dom (fun d => insertBefore d par (Some n) (child d))).
Proof.
  intros Hn. apply kept_on_dom. intros d d' Hwf Hs Hok. split;
    [now apply (insertBefore_wf d d' par (Some n) (child d))
    | now apply (same_order_insertBefore d0 d d' par n (child d))].
Qed.

Lemma kept_removeChild (par n : NodeId) :
  length (nodes d0) <= n ->
  keeps (page_kept d0) (on_dom (fun d => removeChild d par (Some n))).
Proof.
  intros Hn. apply kept_on_dom. intros d d' Hwf Hs Hok. split;
    [now apply (removeChild_wf d d' par (Some n))
    | now apply (same_order_removeChild d0 d d' par n)].
Qed.

Lemma kept_addClasses (element : option NodeId) (classes : option string) :
  keeps (page_kept d0) (addClasses element classes).
Proof.
  unfold addClasses. destruct (truthy classes); [|aside].
  apply keeps_forEach_any. intros cls. destruct element; [apply kept_classList_add | aside].
Qed.

Lemma kept_removeClasses (element : option NodeId) (classes : option string) :
  keeps (page_kept d0) (removeClasses element classes).
Proof.
  unfold removeClasses. destruct (truthy classes); [|aside].
  apply keeps_forEach_any. intros cls. destruct element; [apply kept_classList_remove | aside].
Qed.

Lemma fresh_id_own (d : Dom) : same_order d0 d -> length (nodes d0) <= fresh_id d.
Proof. intros [Hl _]. exact Hl. Qed.

Section KeptTransitions.
Context `{SelectorEngine}.

Lemma kept_bindEvents : keeps (page_kept d0) bindEvents.
Proof.
  unfold bindEvents. apply keeps_bind_any; [aside|]. intros d.
  apply keeps_bind_any; [aside|]. intros i.
  apply keeps_bind_any; [aside|]. intros [p|]; [|apply kept_log].
  repeat (apply keeps_bind_any; [aside | intros _]). aside.
Qed.

Lemma kept_init : keeps (page_kept d0) init.
Proof.
  unfold init. apply keeps_bind_any; [apply kept_bindEvents | intros _].
  apply keeps_bind_any; [aside|]. intros i.
  apply keeps_forEach_any. intros element.
  apply keeps_bind_any; [apply kept_setAttribute | intros _; apply kept_classList_add].
Qed.

Lemma kept_constructor (elementOrSelector : CtorArg) (opts : UserOptions) :
  keeps (page_kept d0) (constructor elementOrSelector opts).
Proof.
  unfold constructor. apply keeps_bind_any; [aside|]. intros d.
  apply keeps_bind_any.
  - destruct elementOrSelector; try aside.
    + apply keeps_bind_any; [aside | intros l; aside].
    + destruct (is_element d n); aside.
  - intros [l|]; [|aside].
    apply keeps_bind_any; [aside | intros _].
    apply keeps_bind_any; [aside | intros _].
    apply keeps_bind_any; [aside | intros _].
    apply keeps_bind_any; [aside | intros _].
    apply keeps_bind_any; [now apply kept_set_placeholder | intros _].
    apply kept_init.
Qed.

Lemma kept_createPlaceholder : keeps (page_kept d0) createPlaceholder.
Proof.
  unfold createPlaceholder. apply keeps_bind_any; [aside|]. intros i.
  apply kept_get_dom. intros d Hd Hs. unfold createElement. cbv beta iota zeta.
  set (ph := fresh_id d).
  assert (Hph : length (nodes d0) <= ph) by now apply fresh_id_own.
  apply keeps_bind_any.
  { apply kept_put_dom; [now apply add_node_wf | now apply same_order_add_node]. }
  intros _. apply keeps_bind_any.
  { apply kept_set_placeholder. intros p Hp. injection Hp as <-. exact Hph. }
  intros _. apply keeps_bind_any.
  - destruct (option_eqb String.eqb (tagNameCopy i) (Some "TR")); [|aside].
    apply kept_get_dom. intros d' Hd' Hs'.
    set (td := fresh_id d').
    assert (Htd : length (nodes d0) <= td) by now apply fresh_id_own.
    apply keeps_bind_any.
    { apply kept_put_dom; [now apply add_node_wf | now apply same_order_add_node]. }
    intros _. apply keeps_bind_any.
    { destruct (draggedItem i) as [it|]; [|aside].
      destruct (is_element _ it); aside. }
    intros colCount.
    apply keeps_bind_any; [apply kept_setAttribute | intros _].
    apply kept_get_dom. intros d'' Hd'' Hs''. unfold createTextNode. cbv beta iota zeta.
    set (txt := fresh_id d'').
    assert (Htxt : length (nodes d0) <= txt) by now apply fresh_id_own.
    apply keeps_bind_any.
    { apply kept_put_dom; [now apply add_node_wf | now apply same_order_add_node]. }
    intros _. unfold appendChild.
    apply keeps_bind_any;
      [exact (kept_insertBefore td txt (fun _ => None) Htxt)
      | intros _; exact (kept_insertBefore ph td (fun _ => None) Htd)].
  - intros _.
    apply keeps_bind_any; [apply kept_classList_add | intros _].
    apply keeps_bind_any; [apply kept_classList_add | intros _].
    destruct (dropIndicator (options i)); [apply kept_classList_add | aside].
Qed.

Lemma kept_setCustomDragImage (e : Event) : keeps (page_kept d0) (setCustomDragImage e).
Proof.
  unfold setCustomDragImage. apply keeps_bind_any; [aside|]. intros i.
  apply kept_get_dom. intros d Hd Hs.
  destruct (draggedItem i) as [it|]; [|aside].
  pose proof (cloneNode_wf d it Hd) as Hd1.
  destruct (same_order_cloneNode d0 d it Hd Hs) as [Hs1 Hfresh].
  destruct (cloneNode d it) as [d1 [dragImage|]]; [|aside]. simpl in Hd1, Hs1.
  assert (Himg : length (nodes d0) <= dragImage) by now apply Hfresh.
  apply keeps_bind_any; [now apply kept_put_dom | intros _].
  apply keeps_bind_any; [apply kept_classList_add | intros _].
  apply keeps_bind_any; [apply kept_classList_add | intros _].
  apply keeps_bind_any;
    [exact (kept_setStyle dragImage "width" (fun d => layout_px d it offsetWidth)) | intros _].
  apply keeps_bind_any;
    [exact (kept_setStyle dragImage "height" (fun d => layout_px d it offsetHeight))
    | intros _].
  apply keeps_bind_any; [aside|]. intros d'.
  destruct (body d') as [b|]; [|aside].
  apply keeps_bind_any;
    [exact (kept_insertBefore b dragImage (fun _ => None) Himg) | intros _].
  apply keeps_bind_any; [aside | intros _]. now apply kept_requestAnimationFrame.
Qed.

Lemma kept_animationFrame : keeps (page_kept d0) animationFrame.
Proof.
  intros w Hw. unfold animationFrame.
  destruct (frames w) as [|dragImage rest] eqn:Hfr; [exact Hw|].
  destruct Hw as (Hwf & Hs & Hph & Hframes).
  assert (Himg : length (nodes d0) <= dragImage).
  { apply Hframes. rewrite Hfr. now left. }
  assert (Hw' : page_kept d0 (mkWorld (dom w) (self w) (effects w) (listeners w) rest)).
  { split; [exact Hwf|]. split; [exact Hs|]. split; [exact Hph|].
    intros f Hf. apply Hframes. rewrite Hfr. now right. }
  destruct (body (dom w)) as [b|]; [|exact Hw'].
  now apply (kept_removeChild b dragImage Himg).
Qed.

Lemma kept_handleDragStart (e : Event) : keeps (page_kept d0) (handleDragStart e).
Proof.
  unfold handleDragStart. apply keeps_bind_any; [aside|]. intros d.
  apply keeps_bind_any; [aside|]. intros i.
  apply keeps_bind_any; [aside|]. intros ok.
  destruct (negb ok); [aside|].
  apply keeps_bind_any; [aside | intros _].
  apply keeps_bind_any; [aside | intros tag].
  apply keeps_bind_any; [aside | intros _].
  destruct (negb (isValidSortableElement tag)).
  - apply keeps_bind_any; [aside | intros _; aside].
  - apply keeps_bind_any; [aside | intros data].
    apply keeps_bind_any; [aside | intros _].
    apply keeps_bind_any; [apply kept_addClasses | intros _].
    apply keeps_bind_any; [apply kept_removeClasses | intros _].
    apply keeps_bind_any; [aside|]. intros d'.
    apply keeps_bind_any; [apply kept_invoke | intros _].
    apply keeps_bind_any; [apply kept_createPlaceholder | intros _].
    apply kept_setCustomDragImage.
Qed.

Lemma kept_handleDragEnd (e : Event) : keeps (page_kept d0) (handleDragEnd e).
Proof.
  unfold handleDragEnd. apply kept_get_self. intros i Hi.
  apply keeps_bind_any; [apply kept_removeClasses | intros _].
  apply keeps_bind_any; [aside|]. intros d.
  apply keeps_bind_any.
  - destruct (placeholder i) as [ph|]; [|aside].
    destruct (parent_of d ph) as [par|]; [|aside].
    apply kept_removeChild. now apply Hi.
  - intros _.
    apply keeps_bind_any; [aside | intros _].
    apply keeps_bind_any; [aside | intros _].
    apply keeps_bind_any; [now apply kept_set_placeholder | intros _].
    apply keeps_bind_any; [aside | intros _].
    apply keeps_bind_any; [aside | intros _]. aside.
Qed.

Lemma same_order_positionPlaceholder (d d' : Dom) (i : Instance) (e : Event) (below : NodeId) :
  (forall ph, placeholder i = Some ph -> length (nodes d0) <= ph) ->
  same_order d0 d -> positionPlaceholder d i e below = Ok d' -> same_order d0 d'.
Proof.
  intros Hi Hs. unfold positionPlaceholder. intros Hpos.
  destruct (placeholder i) as [ph|] eqn:Hph.
  - specialize (Hi ph eq_refl).
    repeat match type of Hpos with
           | (if ?c then _ else _) = _ => destruct c
           | match ?x with _ => _ end = _ => destruct x
           end;
      try discriminate;
      try (injection Hpos as <-; assumption);
      now apply (same_order_insertBefore d0 _ _ _ _ _ Hi Hs Hpos).
  - repeat match type of Hpos with
           | (if ?c then _ else _) = _ => destruct c
           | match ?x with _ => _ end = _ => destruct x
           end;
      try discriminate;
      try (injection Hpos as <-; assumption).
Qed.

Lemma kept_handleDragOver (e : Event) : keeps (page_kept d0) (handleDragOver e).
Proof.
  unfold handleDragOver. apply keeps_bind_any; [aside | intros _].
  apply keeps_bind_any; [aside|]. intros d.
  apply kept_get_self. intros i Hi.
  apply keeps_bind_any; [aside|]. intros [below|]; [|aside].
  destruct (_ || _); [aside|].
  apply keeps_bind_any.
  { apply kept_on_dom. intros x y Hx Hs Hok. split;
      [now apply (positionPlaceholder_wf x y i e below)
      | now apply (same_order_positionPlaceholder x y i e below)]. }
  intros _. apply keeps_bind_any; [aside | intros _].
  apply keeps_bind_any; [aside|]. intros d'.
  apply keeps_bind_any; [destruct (placeholder i); aside|]. intros pos.
  apply keeps_bind_any.
  { destruct (dragCallbackDue i below (mouseDirection i e)); [|aside].
    apply keeps_bind_any; [apply kept_invoke | intros _; aside]. }
  intros _. apply keeps_bind_any; [aside | intros _; aside].
Qed.

Lemma kept_handleDragEnter (e : Event) : keeps (page_kept d0) (handleDragEnter e).
Proof.
  unfold handleDragEnter. apply keeps_bind_any; [aside | intros _].
  apply keeps_bind_any; [aside|]. intros d.
  apply keeps_bind_any; [aside|]. intros i.
  apply keeps_bind_any; [aside|]. intros ok.
  destruct (negb ok); [aside|].
  apply keeps_bind_any; [aside | intros _; aside].
Qed.

Lemma kept_step (i : Input) (w : World) :
  not_drop i = true -> page_kept d0 w -> page_kept d0 (step w i).
Proof.
  intros Hnd Hw. destruct i as [t e|]; simpl.
  - unfold dispatch. destruct (existsb _ _); [|exact Hw].
    destruct t; simpl;
      [now apply kept_handleDragStart | now apply kept_handleDragEnd
      | now apply kept_handleDragOver | now apply kept_handleDragEnter
      | discriminate].
  - now apply kept_animationFrame.
Qed.

End KeptTransitions.
End Kept.

(** X10: only a drop reorders the page.  From a well-formed page,
    through construction and any sequence of events other than drops and
    of animation frames, whether handlers return or throw, every node the
    page had keeps its parent, and its child list holds the children it
    had in the order they had; what comes and goes besides are nodes the
    library created (the placeholder and drag images). *)
Theorem only_a_drop_reorders `{SelectorEngine} (page : Dom) (elementOrSelector : CtorArg)
    (opts : UserOptions) (rnd : string) (inputs : list Input) (n : NodeId) :
  wf_dom page = true ->
  forallb not_drop inputs = true ->
  n < length (nodes page) ->
  own_nodes page
            (children_of (dom (run inputs (fst (new_DomMover page elementOrSelector opts rnd))))
                         n)
  = children_of page n
  /\ parent_of (dom (run inputs (fst (new_DomMover page elementOrSelector opts rnd)))) n
     = parent_of page n.
Proof.
  intros Hpage Hinputs Hn.
  assert (Hstart : page_kept page (fst (new_DomMover page elementOrSelector opts rnd))).
  { unfold new_DomMover. apply kept_constructor.
    split; [exact Hpage|]. split; [now apply same_order_start|].
    split; [discriminate | intros f []]. }
  assert (Hrun : page_kept page
                   (run inputs (fst (new_DomMover page elementOrSelector opts rnd)))).
  { revert Hstart. generalize (fst (new_DomMover page elementOrSelector opts rnd)).
    unfold run. induction inputs as [|i inputs IH]; intros w Hw; [exact Hw|].
    cbn [forallb] in Hinputs. apply andb_prop in Hinputs as [Hi Hrest].
    cbn [fold_left]. apply (IH Hrest). now apply kept_step. }
  destruct Hrun as (_ & [_ Hsame] & _). now apply Hsame.
Qed.

Lemma only_a_drop_reorders_witness :
  own_nodes Examples.list_page
    (children_of
       (dom (run [Deliver dragstart (mkEvent 5 10); Deliver dragover (mkEvent 9 30);
                  Frame; Deliver dragend (mkEvent 5 30)]
                 (fst (new_DomMover Examples.list_page (ArgString "#my-list li")
                         (Examples.scoped_options "#my-list") "k3x9q2a"))))
       4)
  = children_of Examples.list_page 4
  /\ parent_of
       (dom (run [Deliver dragstart (mkEvent 5 10); Deliver dragover (mkEvent 9 30);
                  Frame; Deliver dragend (mkEvent 5 30)]
                 (fst (new_DomMover Examples.list_page (ArgString "#my-list li")
                         (Examples.scoped_options "#my-list") "k3x9q2a"))))
       4
     = parent_of Examples.list_page 4.
Proof.
  apply (only_a_drop_reorders Examples.list_page (ArgString "#my-list li")
           (Examples.scoped_options "#my-list") "k3x9q2a").
  - vm_compute. reflexivity.
  - vm_compute. reflexivity.
  - vm_compute. lia.
Defined.

(** ** What a gesture leaves in the page *)

Section Strays.
Variable d0 : Dom.

Lemma stray_free_mono (al al' : list NodeId) (d : Dom) :
  (forall c, In c al -> In c al') -> stray_free d0 al d -> stray_free d0 al' d.
Proof. intros Hincl Hs n c Hn Hc Hfresh. apply Hincl. now apply (Hs n c). Qed.

Lemma stray_free_same_children (al : list NodeId) (d d' : Dom) :
  (forall m, m < length (nodes d0) -> children_of d' m = children_of d m) ->
  stray_free d0 al d -> stray_free d0 al d'.
Proof. intros Hc Hs n c Hn Hin Hfresh. rewrite (Hc n Hn) in Hin. now apply (Hs n c). Qed.

Lemma stray_free_detach (al : list NodeId) (d : Dom) (n : NodeId) :
  stray_free d0 al d -> stray_free d0 al (detach d n).
Proof.
  intros Hs m c Hm Hin Hfresh.
  destruct (detach_children_cases d n m) as [Heq|Heq]; rewrite Heq in Hin.
  - now apply (Hs m c).
  - apply remove_node_subset in Hin. now apply (Hs m c).
Qed.

Lemma stray_free_attach (al : list NodeId) (d : Dom) (par n : NodeId) (ref : option NodeId) :
  length (nodes d0) <= par \/ In n al ->
  stray_free d0 al d -> stray_free d0 al (attach d par n ref).
Proof.
  intros Hok Hs m c Hm Hin Hfresh.
  destruct (Nat.eq_dec par m) as [->|Hne].
  - destruct Hok as [Hpar|Hal]; [lia|].
    destruct (attach_children_cases d m n ref m) as [Heq|Heq]; rewrite Heq in Hin.
    + now apply (Hs m c).
    + apply place_in in Hin as [->|Hin]; [exact Hal | now apply (Hs m c)].
  - rewrite attach_children_ne in Hin by assumption. now apply (Hs m c).
Qed.

Lemma stray_free_start : wf_dom d0 = true -> stray_free d0 [] d0.
Proof.
  intros Hwf n c Hn Hc Hfresh. exfalso.
  destruct (wf_children d0 n c Hwf Hc) as [Hp _].
  assert (c < length (nodes d0)) by (apply node_at_lt; now apply (parent_of_node d0 c n)).
  lia.
Qed.

(** With no stray node, the children of the page's own nodes are the
    ones they had. *)
Lemma stray_free_same_order (d : Dom) (n : NodeId) :
  same_order d0 d -> stray_free d0 [] d -> n < length (nodes d0) ->
  children_of d n = children_of d0 n /\ parent_of d n = parent_of d0 n.
Proof.
  intros [_ Hsame] Hs Hn. destruct (Hsame n Hn) as [Hc Hp]. split; [|exact Hp].
  rewrite <- Hc. symmetry. apply own_nodes_all. intros c Hc'.
  destruct (Nat.lt_ge_cases c (length (nodes d0))) as [Hlt|Hge]; [exact Hlt|].
  exfalso. exact (Hs n c Hn Hc' Hge).
Qed.

Section Dragging.
Variables t ph : NodeId.

Lemma dragging_update (f : Node -> Node) (n : NodeId) (d : Dom) :
  (forall x, parentNode (f x) = parentNode x) ->
  (forall x, childNodes (f x) = childNodes x) ->
  (forall x, nodeKind (f x) = nodeKind x) ->
  dragging_page d0 t ph d -> dragging_page d0 t ph (update_node f n d).
Proof.
  intros Hp Hc Hk (Hwf & Hs & Hst & Hel). split; [|split; [|split]].
  - now apply update_node_wf.
  - now apply same_order_update.
  - revert Hst. apply stray_free_same_children. intros m _. now apply update_node_children.
  - now rewrite is_element_update.
Qed.

Lemma dragging_classList_add (d d' : Dom) (n : NodeId) (c : string) :
  dragging_page d0 t ph d -> classList_add d n c = Ok d' -> dragging_page d0 t ph d'.
Proof.
  intros Hd. unfold classList_add. destruct (is_element d n); [|discriminate].
  destruct (check_token c); [|discriminate].
  destruct (has_class d n c); intros Hok; injection Hok as <-; [assumption|].
  now apply dragging_update.
Qed.

Lemma dragging_setAttribute (d d' : Dom) (n : NodeId) (k v : string) :
  dragging_page d0 t ph d -> setAttribute d n k v = Ok d' -> dragging_page d0 t ph d'.
Proof.
  intros Hd. unfold setAttribute. destruct (is_element d n); [|discriminate].
  intros Hok; injection Hok as <-. now apply dragging_update.
Qed.

Lemma dragging_setStyle (d d' : Dom) (n : NodeId) (k v : string) :
  dragging_page d0 t ph d -> setStyle d n k v = Ok d' -> dragging_page d0 t ph d'.
Proof.
  intros Hd. unfold setStyle. destruct (is_element d n); [|discriminate].
  intros Hok; injection Hok as <-. now apply dragging_update.
Qed.

Lemma is_element_add_node (x : Node) (d : Dom) (m : NodeId) :
  is_element d m = true -> is_element (add_node x d) m = true.
Proof.
  intros Hel. unfold is_element in *. rewrite node_at_add_old; [exact Hel|].
  destruct (node_at d m); congruence.
Qed.

Lemma dragging_add_node (x : Node) (d : Dom) :
  parentNode x = None -> childNodes x = [] ->
  dragging_page d0 t ph d -> dragging_page d0 t ph (add_node x d).
Proof.
  intros Hxp Hxc (Hwf & Hs & Hst & Hel). split; [|split; [|split]].
  - now apply add_node_wf.
  - now apply same_order_add_node.
  - revert Hst. apply stray_free_same_children. intros m Hm.
    unfold children_of. rewrite node_at_add_old; [reflexivity|].
    apply node_at_lt. destruct Hs as [Hl _]. lia.
  - now apply is_element_add_node.
Qed.

Lemma dragging_insertBefore (d d' : Dom) (par n : NodeId) (child : option NodeId) :
  length (nodes d0) <= n -> length (nodes d0) <= par \/ n = ph ->
  dragging_page d0 t ph d -> insertBefore d par (Some n) child = Ok d' ->
  dragging_page d0 t ph d'.
Proof.
  intros Hn Hpar (Hwf & Hs & Hst & Hel) Hins. split; [|split; [|split]].
  - now apply (insertBefore_wf _ _ _ _ _ Hwf Hins).
  - now apply (same_order_insertBefore d0 _ _ _ _ _ Hn Hs Hins).
  - destruct (insertBefore_shape _ _ _ _ _ Hins) as (n' & ref & Heq & -> & _).
    injection Heq as <-. apply stray_free_attach.
    + destruct Hpar as [Hp| ->]; [now left | right; now left].
    + now apply stray_free_detach.
  - now rewrite (insertBefore_is_element _ _ _ _ _ Hins).
Qed.

Lemma dragging_cloneNode (d : Dom) (n : NodeId) :
  dragging_page d0 t ph d ->
  dragging_page d0 t ph (fst (cloneNode d n))
  /\ forall c, snd (cloneNode d n) = Some c -> length (nodes d0) <= c.
Proof.
  intros (Hwf & Hs & Hst & Hel).
  destruct (same_order_cloneNode d0 d n Hwf Hs) as [Hs1 Hfresh].
  split; [|exact Hfresh]. split; [|split; [|split]].
  - now apply cloneNode_wf.
  - exact Hs1.
  - unfold cloneNode in *.
    destruct (cloneNode_upto_wf (S (length (nodes d))) d n Hwf) as (_ & Hold & _).
    revert Hst. apply stray_free_same_children. intros m Hm.
    unfold children_of. rewrite Hold; [reflexivity|].
    apply node_at_lt. destruct Hs as [Hl _]. lia.
  - unfold cloneNode in *.
    destruct (cloneNode_upto_wf (S (length (nodes d))) d n Hwf) as (_ & Hold & _).
    unfold is_element in *. rewrite Hold; [exact Hel|]. destruct (node_at d t); congruence.
Qed.

End Dragging.
End Strays.

Section Pickup.
Variable d0 : Dom.

Lemma insertBefore_body (d d' : Dom) (par : NodeId) (node child : option NodeId) :
  insertBefore d par node child = Ok d' -> body d' = body d.
Proof.
  intros Hins. destruct (insertBefore_shape _ _ _ _ _ Hins) as (n & ref & _ & -> & _).
  unfold attach, detach, set_parent, set_children, update_node.
  now destruct (parent_of d n).
Qed.

Lemma insertBefore_parent_eq (d d' : Dom) (par n : NodeId) (child : option NodeId) :
  insertBefore d par (Some n) child = Ok d' -> parent_of d' n = Some par.
Proof.
  intros Hins. destruct (insertBefore_shape _ _ _ _ _ Hins) as (n' & ref & Heq & -> & _ & Hk & _).
  injection Heq as <-. apply attach_parent_eq, detach_node_some.
  destruct (kind_of d n) as [k|] eqn:Hkn; [|congruence]. now apply (kind_of_node d n k).
Qed.

(** *** Computations that keep the page of a pickup under way *)

Section PickingUp.
Variables t ph : NodeId.
Hypothesis Hph : length (nodes d0) <= ph.

Lemma picking_aside {A : Type} (m : M A) :
  (forall w, dom (fst (m w)) = dom w
             /\ placeholder (self (fst (m w))) = placeholder (self w)
             /\ frames (fst (m w)) = frames w
             /\ draggedItem (self (fst (m w))) = draggedItem (self w)
             /\ options (self (fst (m w))) = options (self w)) ->
  keeps (picking_up d0 t ph) m.
Proof.
  intros Hm w (Hd & Hp & Hf & Hi & Hc). destruct (Hm w) as (H1 & H2 & H3 & H4 & H5).
  unfold picking_up, pickup_class_valid in *. now rewrite H1, H2, H3, H4, H5.
Qed.

Lemma picking_get_dom {B : Type} (k : Dom -> M B) :
  (forall d, dragging_page d0 t ph d -> keeps (picking_up d0 t ph) (k d)) ->
  keeps (picking_up d0 t ph) (bind get_dom k).
Proof. intros Hk w Hw. unfold bind, get_dom. destruct Hw as (Hd & Hrest). now apply Hk. Qed.

Lemma picking_put_dom (d : Dom) :
  dragging_page d0 t ph d -> keeps (picking_up d0 t ph) (put_dom d).
Proof. intros Hd w (_ & Hrest). now split. Qed.

Lemma picking_on_dom (f : Dom -> Result Dom) :
  (forall d d', dragging_page d0 t ph d -> f d = Ok d' -> dragging_page d0 t ph d') ->
  keeps (picking_up d0 t ph) (on_dom f).
Proof.
  intros Hf w (Hd & Hrest). unfold on_dom, bind, get_dom, lift, put_dom. simpl.
  destruct (f (dom w)) as [d'|err] eqn:Hfd; simpl; [|now split].
  split; [now apply (Hf (dom w)) | exact Hrest].
Qed.

Ltac on_the_side := apply picking_aside; intros ?; repeat split; reflexivity.

Lemma picking_classList_add (n : NodeId) (c : string) :
  keeps (picking_up d0 t ph) (on_dom (fun d => classList_add d n c)).
Proof.
  apply picking_on_dom. intros d d' Hd Hok. now apply (dragging_classList_add d0 t ph d d' n c).
Qed.

Lemma picking_setAttribute (n : NodeId) (k v : string) :
  keeps (picking_up d0 t ph) (on_dom (fun d => setAttribute d n k v)).
Proof.
  apply picking_on_dom. intros d d' Hd Hok. now apply (dragging_setAttribute d0 t ph d d' n k v).
Qed.

Lemma picking_setStyle (n : NodeId) (k : string) (v : Dom -> string) :
  keeps (picking_up d0 t ph) (on_dom (fun d => setStyle d n k (v d))).
Proof.
  apply picking_on_dom. intros d d' Hd Hok.
  now apply (dragging_setStyle d0 t ph d d' n k (v d)).
Qed.

Lemma picking_insertBefore (par n : NodeId) :
  length (nodes d0) <= n -> length (nodes d0) <= par ->
  keeps (picking_up d0 t ph) (on_dom (fun d => insertBefore d par (Some n) None)).
Proof.
  intros Hn Hpar. apply picking_on_dom. intros d d' Hd Hok.
  apply (dragging_insertBefore d0 t ph d d' par n None); try assumption. now left.
Qed.

Lemma dragging_fresh (d : Dom) : dragging_page d0 t ph d -> length (nodes d0) <= fresh_id d.
Proof. intros (_ & [Hl _] & _). exact Hl. Qed.

(** The part of [createPlaceholder] after the placeholder is recorded
    (lines 184 to 196). *)
Lemma picking_fill_placeholder (i : Instance) :
  keeps (picking_up d0 t ph)
        (bind (if option_eqb String.eqb (tagNameCopy i) (Some "TR") then
                 bind get_dom (fun d =>
                   let (d2, td) := createElement d "td" in
                   bind (put_dom d2) (fun _ =>
                   bind match draggedItem i with
                        | Some it =>
                            if is_element d2 it
                            then ret (match element_child_count d2 it with 0 => 1 | n => n end)
                            else throw TypeError
                        | None => throw TypeError
                        end (fun colCount =>
                   bind (on_dom (fun d => setAttribute d td "colspan" (nat_to_string colCount)))
                        (fun _ =>
                   bind get_dom (fun d =>
                   let (d3, txt) := createTextNode d " " in
                   bind (put_dom d3) (fun _ =>
                   bind (on_dom (fun d => appendChild d td (Some txt))) (fun _ =>
                   on_dom (fun d => appendChild d ph (Some td)))))))))
               else ret tt)
              (fun _ =>
                 bind (on_dom (fun d => classList_add d ph (placeholderClass (options i))))
                      (fun _ =>
                 bind (on_dom (fun d => classList_add d ph (instanceId i))) (fun _ =>
                 if dropIndicator (options i)
                 then on_dom (fun d => classList_add d ph (dropIndicatorClass (options i)))
                 else ret tt)))).
Proof.
  apply keeps_bind_any.
  - destruct (option_eqb String.eqb (tagNameCopy i) (Some "TR")); [|on_the_side].
    apply picking_get_dom. intros d' Hd'. unfold createElement. cbv beta iota zeta.
    set (td := fresh_id d').
    assert (Htd : length (nodes d0) <= td) by now apply dragging_fresh.
    apply keeps_bind_any.
    { apply picking_put_dom. now apply dragging_add_node. }
    intros _. apply keeps_bind_any.
    { destruct (draggedItem i) as [it|]; [|on_the_side].
      destruct (is_element _ it); on_the_side. }
    intros colCount.
    apply keeps_bind_any; [apply picking_setAttribute | intros _].
    apply picking_get_dom. intros d'' Hd''. unfold createTextNode. cbv beta iota zeta.
    set (txt := fresh_id d'').
    assert (Htxt : length (nodes d0) <= txt) by now apply dragging_fresh.
    apply keeps_bind_any.
    { apply picking_put_dom. now apply dragging_add_node. }
    intros _. unfold appendChild.
    apply keeps_bind_any;
      [now apply picking_insertBefore | intros _; now apply picking_insertBefore].
  - intros _.
    apply keeps_bind_any; [apply picking_classList_add | intros _].
    apply keeps_bind_any; [apply picking_classList_add | intros _].
    destruct (dropIndicator (options i)); [apply picking_classList_add | on_the_side].
Qed.

End PickingUp.

(** An idle page is the page of a gesture. *)
Lemma idle_gesture_page (w : World) :
  idle_page d0 w -> after_pickup d0 w.
Proof.
  intros (Hk & Hs & Hph & Hfr). split; [split; [exact Hk | split]|].
  - unfold held. now rewrite Hph, Hfr.
  - intros ph Hp. congruence.
  - now left.
Qed.

Lemma picking_gesture_page (t ph : NodeId) (w : World) :
  length (nodes d0) <= ph ->
  picking_up d0 t ph w -> after_pickup d0 w.
Proof.
  intros Hph ((Hwf & Hs & Hst & Hel) & Hp & Hfr & Hit & Htok).
  split; [split; [|split]|].
  - split; [exact Hwf|]. split; [exact Hs|]. split.
    + intros p Heq. rewrite Hp in Heq. now injection Heq as <-.
    + rewrite Hfr. intros f [].
  - unfold held. rewrite Hp, Hfr. exact Hst.
  - intros p _. exists t. auto.
  - now left.
Qed.

End Pickup.

Section PickupRuns.
Variable d0 : Dom.

(** [createPlaceholder], run where nothing of the library's making is in
    the page yet. *)
Lemma createPlaceholder_picks (t : NodeId) (w : World) :
  wf_dom (dom w) = true -> same_order d0 (dom w) -> stray_free d0 [] (dom w) ->
  frames w = [] -> draggedItem (self w) = Some t -> is_element (dom w) t = true ->
  pickup_class_valid (self w) = true ->
  exists ph, length (nodes d0) <= ph /\ picking_up d0 t ph (fst (createPlaceholder w)).
Proof.
  intros Hwf Hs Hst Hfr Hit Hel Htok.
  exists (fresh_id (dom w)).
  assert (Hph : length (nodes d0) <= fresh_id (dom w)) by now destruct Hs.
  split; [exact Hph|].
  unfold createPlaceholder. unfold bind at 1 2. unfold get_self, get_dom, createElement.
  cbv beta iota zeta. unfold bind at 1. unfold put_dom at 1. cbv beta iota zeta.
  unfold bind at 1. unfold modify_self at 1. cbv beta iota zeta.
  apply (picking_fill_placeholder d0 t (fresh_id (dom w)) Hph (self w)).
  split; [|now repeat split].
  apply dragging_add_node; [reflexivity | reflexivity|].
  split; [exact Hwf|]. split; [exact Hs|]. split; [|exact Hel].
  revert Hst. apply stray_free_mono. intros c [].
Qed.

(** [setCustomDragImage], run once the placeholder exists. *)
Lemma setCustomDragImage_picks (e : Event) (t ph : NodeId) (w : World) :
  length (nodes d0) <= ph ->
  picking_up d0 t ph w ->
  after_pickup d0 (fst (setCustomDragImage e w)).
Proof.
  intros Hph Hw. pose proof Hw as (Hd & Hp & Hfr & Hit & Htok).
  unfold setCustomDragImage. unfold bind at 1 2. unfold get_self, get_dom.
  cbv beta iota zeta. rewrite Hit.
  destruct (dragging_cloneNode d0 t ph (dom w) t Hd) as [Hd1 Hfresh].
  destruct (cloneNode (dom w) t) as [d1 [dragImage|]];
    [|now apply (picking_gesture_page d0 t ph)].
  simpl in Hd1. assert (Himg : length (nodes d0) <= dragImage) by now apply Hfresh.
  set (tail := fun b : NodeId =>
                 bind (on_dom (fun d => appendChild d b (Some dragImage)))
                      (fun _ => bind (emit (SetDragImage dragImage))
                                     (fun _ => requestAnimationFrame dragImage))).
  assert (Htail : forall b w', picking_up d0 t ph w' -> body (dom w') = Some b ->
                               after_pickup d0 (fst (tail b w'))).
  { intros b w' Hw' Hb. pose proof Hw' as ((Hwf' & Hs' & Hst' & Hel') & Hp' & Hfr' & Hit' & Htok').
    unfold tail, bind, on_dom, bind, get_dom, lift, put_dom, emit, requestAnimationFrame,
      appendChild. cbv beta iota zeta.
    destruct (insertBefore (dom w') b (Some dragImage) None) as [d2|err] eqn:Hins;
      cbn [fst snd dom self effects listeners frames];
      [|now apply (picking_gesture_page d0 t ph)].
    rewrite Hfr'. cbn [app].
    assert (Hwf2 : wf_dom d2 = true) by now apply (insertBefore_wf _ _ _ _ _ Hwf' Hins).
    assert (Hs2 : same_order d0 d2)
      by now apply (same_order_insertBefore d0 _ _ _ _ _ Himg Hs' Hins).
    split; [split; [|split]|].
    - split; [exact Hwf2|]. split; [exact Hs2|]. split; cbn [self frames].
      + intros p Heq. rewrite Hp' in Heq. now injection Heq as <-.
      + intros f [<-|[]]. exact Himg.
    - unfold held. cbn [self frames dom]. rewrite Hp'. cbn [app].
      destruct (insertBefore_shape _ _ _ _ _ Hins) as (n' & ref & Heq & -> & _).
      injection Heq as <-. apply stray_free_attach; [right; right; now left|].
      apply stray_free_detach. revert Hst'. apply stray_free_mono.
      intros c [<-|[]]. now left.
    - intros p _. exists t. cbn [self dom]. split; [exact Hit'|]. split; [|exact Htok'].
      now rewrite (insertBefore_is_element _ _ _ _ _ Hins).
    - right. exists dragImage, b. cbn [frames dom]. split; [reflexivity|]. split.
      + now rewrite (insertBefore_body _ _ _ _ _ Hins).
      + now apply (insertBefore_parent_eq _ _ _ _ _ Hins). }
  assert (Hkeep : forall (Q : World -> Prop) (pre : M unit) (w0 : World),
             (forall w', picking_up d0 t ph w' -> Q w') ->
             keeps (picking_up d0 t ph) pre ->
             picking_up d0 t ph w0 ->
             (forall w', picking_up d0 t ph w' ->
                         Q (fst (bind get_dom (fun d => match body d with
                                                        | None => throw TypeError
                                                        | Some b => tail b
                                                        end) w'))) ->
             Q (fst (bind pre (fun _ => bind get_dom (fun d => match body d with
                                                               | None => throw TypeError
                                                               | Some b => tail b
                                                               end)) w0))).
  { intros Q pre w0 HQ Hpre Hw0 Hrest. unfold bind at 1. specialize (Hpre w0 Hw0).
    destruct (pre w0) as [w' [[]|err]]; simpl in *; [now apply Hrest | now apply HQ]. }
  set (w1 := mkWorld d1 (self w) (effects w) (listeners w) (frames w)).
  assert (Hw1 : picking_up d0 t ph w1) by (split; [exact Hd1 | now repeat split]).
  unfold bind at 1. unfold put_dom at 1. cbv beta iota zeta. fold w1.
  assert (Hlast : forall w', picking_up d0 t ph w' ->
             after_pickup d0
               (fst (bind get_dom (fun d => match body d with
                                            | None => throw TypeError
                                            | Some b => tail b
                                            end) w'))).
  { intros w' Hw'. unfold bind at 1, get_dom. cbv beta iota zeta.
    destruct (body (dom w')) as [b|] eqn:Hb;
      [now apply Htail | now apply (picking_gesture_page d0 t ph)]. }
  assert (Hstyles :
            keeps (picking_up d0 t ph)
                  (bind (on_dom (fun d => classList_add d dragImage (dragImageClass (options (self w)))))
                        (fun _ =>
                   bind (on_dom (fun d => classList_add d dragImage (instanceId (self w))))
                        (fun _ =>
                   bind (on_dom (fun d => setStyle d dragImage "width"
                                                   (layout_px d t offsetWidth)))
                        (fun _ => on_dom (fun d => setStyle d dragImage "height"
                                                            (layout_px d t offsetHeight))))))).
  { apply keeps_bind_any; [now apply picking_classList_add | intros _].
    apply keeps_bind_any; [now apply picking_classList_add | intros _].
    apply keeps_bind_any;
      [exact (picking_setStyle d0 t ph dragImage "width" (fun d => layout_px d t offsetWidth))
      | intros _;
        exact (picking_setStyle d0 t ph dragImage "height"
                 (fun d => layout_px d t offsetHeight))]. }
  pose proof (Hkeep (after_pickup d0) _ w1
                (fun w' Hw' => picking_gesture_page d0 t ph w' Hph Hw')
                Hstyles Hw1 Hlast) as Hgoal.
  revert Hgoal. unfold bind. cbv beta iota zeta.
  destruct (on_dom _ w1) as [wa [[]|erra]]; cbn [fst snd]; [|exact (fun H => H)].
  destruct (on_dom _ wa) as [wb [[]|errb]]; cbn [fst snd]; [|exact (fun H => H)].
  destruct (on_dom _ wb) as [wc [[]|errc]]; cbn [fst snd]; [|exact (fun H => H)].
  destruct (on_dom _ wc) as [wd [[]|errd]]; cbn [fst snd]; exact (fun H => H).
Qed.

End PickupRuns.

Section PickupWhole.
Variable d0 : Dom.

Lemma idle_page_aside (w w' : World) :
  dom w' = dom w -> placeholder (self w') = placeholder (self w) -> frames w' = frames w ->
  idle_page d0 w -> idle_page d0 w'.
Proof.
  intros Hd Hp Hf ((Hwf & Hs & Hph & Hfr) & Hst & Hnone & Hnil).
  unfold idle_page, page_kept, own_fresh. rewrite Hd, Hp, Hf.
  split; [split; [exact Hwf | split; [exact Hs | split; [exact Hph | exact Hfr]]]|].
  split; [exact Hst | split; [exact Hnone | exact Hnil]].
Qed.

(** The page of a pickup before the placeholder exists, [t] being the
    element picked up and [i] the instance. *)
Lemma decorating_keeps (t : NodeId) (b : bool) (i : Instance) (f : Dom -> Result Dom) :
  (forall d d', f d = Ok d' ->
                (forall m, children_of d' m = children_of d m)
                /\ (forall m, parent_of d' m = parent_of d m)
                /\ (forall m, is_element d' m = is_element d m)
                /\ length (nodes d') = length (nodes d)) ->
  keeps (fun w => idle_page d0 w /\ self w = i /\ is_element (dom w) t = b) (on_dom f).
Proof.
  intros Hf w (Hidle & Hself & Hel). unfold on_dom, bind, get_dom, lift, put_dom. simpl.
  destruct (f (dom w)) as [d'|err] eqn:Hfd; simpl; [|exact (conj Hidle (conj Hself Hel))].
  destruct (Hf _ _ Hfd) as (Hc & Hp & He & Hl).
  destruct Hidle as ((Hwf & Hs & Hph & Hfr) & Hst & Hnone & Hnil).
  split; [|split; [exact Hself | now rewrite He]].
  split; [|split; [|split; assumption]].
  - split; [now apply (wf_dom_same_tree (dom w) d' Hp Hc)|]. split; [|now split].
    revert Hs. apply (same_order_same_tree d0 (dom w) d');
      [rewrite Hl; apply Nat.le_refl | intros; apply Hc | intros; apply Hp].
  - revert Hst. apply stray_free_same_children. intros m _. apply Hc.
Qed.

Lemma update_node_tree (f : Node -> Node) (n : NodeId) (d : Dom) :
  (forall x, parentNode (f x) = parentNode x) ->
  (forall x, childNodes (f x) = childNodes x) ->
  (forall x, nodeKind (f x) = nodeKind x) ->
  (forall m, children_of (update_node f n d) m = children_of d m)
  /\ (forall m, parent_of (update_node f n d) m = parent_of d m)
  /\ (forall m, is_element (update_node f n d) m = is_element d m)
  /\ length (nodes (update_node f n d)) = length (nodes d).
Proof.
  intros Hp Hc Hk. split; [|split; [|split]].
  - intros m. now apply update_node_children.
  - intros m. now apply update_node_parent.
  - intros m. now apply is_element_update.
  - apply update_node_length.
Qed.

Lemma classList_add_tree (d d' : Dom) (n : NodeId) (c : string) :
  classList_add d n c = Ok d' ->
  (forall m, children_of d' m = children_of d m)
  /\ (forall m, parent_of d' m = parent_of d m)
  /\ (forall m, is_element d' m = is_element d m)
  /\ length (nodes d') = length (nodes d).
Proof.
  unfold classList_add. destruct (is_element d n); [|discriminate].
  destruct (check_token c); [|discriminate].
  destruct (has_class d n c); intros Hok; injection Hok as <-; [now repeat split|].
  now apply update_node_tree.
Qed.

Lemma classList_remove_tree (d d' : Dom) (n : NodeId) (c : string) :
  classList_remove d n c = Ok d' ->
  (forall m, children_of d' m = children_of d m)
  /\ (forall m, parent_of d' m = parent_of d m)
  /\ (forall m, is_element d' m = is_element d m)
  /\ length (nodes d') = length (nodes d).
Proof.
  unfold classList_remove. destruct (is_element d n); [|discriminate].
  destruct (check_token c); [|discriminate].
  intros Hok; injection Hok as <-. now apply update_node_tree.
Qed.

Lemma decorating_addClasses (t : NodeId) (b : bool) (i : Instance) (element : option NodeId)
    (classes : option string) :
  keeps (fun w => idle_page d0 w /\ self w = i /\ is_element (dom w) t = b)
        (addClasses element classes).
Proof.
  unfold addClasses. destruct (truthy classes); [|now intros w].
  apply keeps_forEach_any. intros cls. destruct element as [n|]; [|now intros w].
  apply decorating_keeps. intros d d'. apply classList_add_tree.
Qed.

Lemma decorating_removeClasses (t : NodeId) (b : bool) (i : Instance) (element : option NodeId)
    (classes : option string) :
  keeps (fun w => idle_page d0 w /\ self w = i /\ is_element (dom w) t = b)
        (removeClasses element classes).
Proof.
  unfold removeClasses. destruct (truthy classes); [|now intros w].
  apply keeps_forEach_any. intros cls. destruct element as [n|]; [|now intros w].
  apply decorating_keeps. intros d d'. apply classList_remove_tree.
Qed.

Lemma tagName_upper_element (d : Dom) (n : NodeId) (tag : string) :
  tagName_upper d n = Ok tag -> is_element d n = true.
Proof.
  unfold tagName_upper, is_element. destruct (node_at d n) as [x|]; [|discriminate].
  now destruct (nodeKind x).
Qed.

Lemma addClasses_returns_valid (n : NodeId) (classes : option string) (w w' : World) :
  is_element (dom w) n = true ->
  addClasses (Some n) classes w = (w', Ok tt) ->
  forallb valid_token (class_tokens classes) = true.
Proof.
  intros Hel Hrun. destruct (addClasses_run n classes w Hel) as [_ Hbad].
  destruct (forallb valid_token (class_tokens classes)); [reflexivity|].
  destruct (Hbad eq_refl) as (w'' & err & Hthrow & _). congruence.
Qed.

(** However [handleDragStart] ends on an idle page, it leaves the page of
    a gesture. *)
Lemma handleDragStart_picks `{SelectorEngine} (e : Event) (w : World) :
  idle_page d0 w -> after_pickup d0 (fst (handleDragStart e w)).
Proof.
  intros Hidle. unfold handleDragStart.
  unfold bind at 1, get_dom at 1. cbv beta iota zeta.
  unfold bind at 1, get_self at 1. cbv beta iota zeta.
  unfold bind at 1, lift at 1. cbv beta iota zeta.
  destruct (isDraggable (dom w) (self w) (target e)) as [[|]|err];
    cbn [negb fst]; try (now apply idle_gesture_page).
  unfold bind at 1, modify_self at 1. cbv beta iota zeta.
  set (w1 := mkWorld (dom w) (set_draggedItem (Some (target e)) (self w)) (effects w)
                     (listeners w) (frames w)).
  assert (Hw1 : idle_page d0 w1) by now apply (idle_page_aside w).
  unfold bind at 1, lift at 1. cbv beta iota zeta.
  destruct (tagName_upper (dom w) (target e)) as [tag|err] eqn:Htag;
    cbn [fst]; [|now apply idle_gesture_page].
  pose proof (tagName_upper_element _ _ _ Htag) as Hel.
  unfold bind at 1, modify_self at 1. cbv beta iota zeta.
  set (w2 := mkWorld (dom w1) (set_tagNameCopy (Some tag) (self w1)) (effects w1)
                     (listeners w1) (frames w1)).
  assert (Hw2 : idle_page d0 w2) by now apply (idle_page_aside w1).
  destruct (negb (isValidSortableElement tag)).
  { unfold bind, emit. cbn [fst]. apply idle_gesture_page.
    now apply (idle_page_aside w2). }
  unfold bind at 1, lift at 1. cbv beta iota zeta.
  destruct (getItemData (dom w) (self w) (target e)) as [data|err];
    cbn [fst]; [|now apply idle_gesture_page].
  unfold bind at 1, modify_self at 1. cbv beta iota zeta.
  set (w3 := mkWorld (dom w2) (set_draggedItemData (Some data) (self w2)) (effects w2)
                     (listeners w2) (frames w2)).
  assert (Hw3 : idle_page d0 w3 /\ self w3 = self w3 /\ is_element (dom w3) (target e) = true).
  { split; [now apply (idle_page_aside w2) | split; [reflexivity | exact Hel]]. }
  unfold bind at 1.
  pose proof (decorating_addClasses (target e) true (self w3) (Some (target e))
                (pickup_addClass (pickup (options (self w)))) w3 Hw3) as HwA.
  destruct (addClasses (Some (target e)) (pickup_addClass (pickup (options (self w)))) w3)
    as [wA [[]|err]] eqn:HA; cbn [fst] in *; [|now apply idle_gesture_page].
  pose proof (addClasses_returns_valid (target e) _ w3 wA Hel HA) as Htok.
  unfold bind at 1.
  pose proof (decorating_removeClasses (target e) true (self w3) (Some (target e))
                (pickup_removeClass (pickup (options (self w)))) wA HwA) as HwB.
  destruct (removeClasses (Some (target e)) (pickup_removeClass (pickup (options (self w)))) wA)
    as [wB [[]|err]]; cbn [fst] in *; [|now apply idle_gesture_page].
  unfold bind at 1, get_dom at 1. cbv beta iota zeta.
  destruct HwB as (HidleB & HselfB & HelB).
  assert (Hsuffix : forall wC, dom wC = dom wB -> self wC = self wB -> frames wC = frames wB ->
                               after_pickup d0
                                 (fst (bind createPlaceholder
                                            (fun _ => setCustomDragImage e) wC))).
  { intros wC HdC HsC HfC.
    assert (HidleC : idle_page d0 wC).
    { apply (idle_page_aside wB); [assumption | now rewrite HsC | assumption | assumption]. }
    destruct HidleC as ((Hwf & Hs & _) & Hst & _ & Hfr).
    destruct (createPlaceholder_picks d0 (target e) wC Hwf Hs Hst Hfr) as (ph & Hph & Hpick).
    - now rewrite HsC, HselfB.
    - now rewrite HdC.
    - unfold pickup_class_valid. rewrite HsC, HselfB. exact Htok.
    - unfold bind. destruct (createPlaceholder wC) as [wD [[]|err]]; cbn [fst] in *.
      + now apply (setCustomDragImage_picks d0 e (target e) ph).
      + now apply (picking_gesture_page d0 (target e) ph). }
  unfold invoke. destruct (cb_pickup (callbacks (options (self w)))) as [f|].
  - unfold bind at 1. unfold bind at 1, emit at 1, ret at 1. cbv beta iota zeta.
    now apply Hsuffix.
  - unfold bind at 1, ret at 1. cbv beta iota zeta. now apply Hsuffix.
Qed.

End PickupWhole.

Section Settled.
Variable d0 : Dom.

Lemma keeps_apply (P : World -> Prop) {A : Type} (m : M A) (w : World) :
  keeps P m -> P w -> P (fst (m w)).
Proof. intros Hk Hw. exact (Hk w Hw). Qed.

(** Taking a held node out of the page takes it off the list of the
    nodes that may be in it. *)
Lemma stray_free_detach_drop (al al' : list NodeId) (d : Dom) (x : NodeId) :
  wf_dom d = true ->
  (forall c, In c al' -> c = x \/ In c al) ->
  stray_free d0 al' d -> stray_free d0 al (detach d x).
Proof.
  intros Hwf Hincl Hs n c Hn Hin Hfresh.
  assert (Hc : In c (children_of d n)).
  { destruct (detach_children_cases d x n) as [Heq|Heq]; rewrite Heq in Hin;
      [exact Hin | now apply remove_node_subset in Hin]. }
  destruct (Hincl c (Hs n c Hn Hc Hfresh)) as [->|Hal]; [exfalso | exact Hal].
  destruct (wf_children d n x Hwf Hc) as [Hp _].
  rewrite (detach_children_own d x n Hp (children_node d n x Hc)) in Hin.
  apply remove_node_in in Hin as [_ Hne]. now apply Hne.
Qed.

(** The animation frame after a pickup takes the drag image out. *)
Lemma animationFrame_settles (w : World) :
  after_pickup d0 w -> gesture_settled d0 (fst (animationFrame w)).
Proof.
  intros (HG & Hfo). pose proof HG as (Hk & Hst & Hce).
  destruct Hfo as [Hnil|(img & b & Hfr & Hb & Hp)].
  - unfold animationFrame. rewrite Hnil. now split.
  - pose proof (kept_animationFrame d0 w Hk) as Hk'. revert Hk'.
    unfold animationFrame. rewrite Hfr, Hb.
    unfold on_dom, bind, get_dom, lift, put_dom, removeChild. cbn [dom self frames fst].
    rewrite Hp. simpl. rewrite Nat.eqb_refl. cbn [fst]. intros Hk'.
    destruct Hk as (Hwf & _).
    split; [split; [exact Hk' | split]|reflexivity].
    + cbn [dom]. apply (stray_free_detach_drop _ (held w) _ _ Hwf); [|exact Hst].
      unfold held. cbn [self frames]. rewrite Hfr. intros c Hc.
      apply in_app_or in Hc as [Hc|[<-|[]]]; [right | now left].
      apply in_or_app. now left.
    + intros ph Hph. cbn [self dom] in *. destruct (Hce ph Hph) as (it & Hit & Hel & Hv).
      exists it. split; [exact Hit|]. split; [|exact Hv]. off_record.
      now rewrite detach_is_element.
Qed.

(** A computation that leaves the page and the gesture fields alone keeps
    the gesture's page. *)
Lemma settled_aside (po : option NodeId) {A : Type} (m : M A) :
  (forall w, dom (fst (m w)) = dom w
             /\ placeholder (self (fst (m w))) = placeholder (self w)
             /\ draggedItem (self (fst (m w))) = draggedItem (self w)
             /\ options (self (fst (m w))) = options (self w)
             /\ frames (fst (m w)) = frames w) ->
  keeps (fun w => gesture_settled d0 w /\ placeholder (self w) = po) m.
Proof.
  intros Hm w. destruct (Hm w) as (Hd & Hp & Hi & Ho & Hf).
  unfold gesture_settled, gesture_page, page_kept, own_fresh, held, can_end,
    pickup_class_valid.
  now rewrite Hd, Hp, Hi, Ho, Hf.
Qed.

Lemma stray_free_positionPlaceholder (al : list NodeId) (d d' : Dom) (i : Instance)
    (e : Event) (below : NodeId) :
  (forall ph, placeholder i = Some ph -> In ph al) ->
  stray_free d0 al d -> positionPlaceholder d i e below = Ok d' -> stray_free d0 al d'.
Proof.
  intros Hi Hs. unfold positionPlaceholder. intros Hpos.
  repeat match type of Hpos with
         | (if ?c then _ else _) = _ => destruct c
         | match ?x with _ => _ end = _ => destruct x
         end;
    try discriminate;
    try (injection Hpos as <-; assumption);
    destruct (insertBefore_shape _ _ _ _ _ Hpos) as (moved & ref & Heq & -> & _);
    (apply stray_free_attach; [right; now apply Hi | now apply stray_free_detach]).
Qed.

Lemma settled_positionPlaceholder (i : Instance) (e : Event) (below : NodeId) :
  keeps (fun w => gesture_settled d0 w /\ placeholder (self w) = placeholder i)
        (on_dom (fun d => positionPlaceholder d i e below)).
Proof.
  intros w (HG & Hpi). unfold on_dom, bind, get_dom, lift, put_dom. simpl.
  destruct (positionPlaceholder (dom w) i e below) as [d'|err] eqn:Hpos; simpl;
    [|now split].
  split; [|exact Hpi]. destruct HG as (((Hwf & Hs & Hph & Hfr) & Hst & Hce) & Hnil).
  split; [|exact Hnil]. split; [|split].
  - split; [now apply (positionPlaceholder_wf _ _ _ _ _ Hwf Hpos)|].
    split; [|split; [exact Hph | exact Hfr]].
    apply (same_order_positionPlaceholder d0 (dom w) d' i e below); [|exact Hs | exact Hpos].
    intros ph Hp. apply Hph. now rewrite Hpi.
  - unfold held in *. cbn [dom self frames].
    apply (stray_free_positionPlaceholder _ (dom w) d' i e below); [|exact Hst | exact Hpos].
    intros ph Hp. rewrite Hpi, Hp. now left.
  - intros ph Hp. cbn [dom self] in *. destruct (Hce ph Hp) as (it & Hit & Hel & Hv).
    exists it. split; [exact Hit|]. split; [|exact Hv].
    now rewrite (positionPlaceholder_is_element _ _ _ _ _ Hpos).
Qed.

Ltac beside := apply settled_aside; intros ?; repeat split; reflexivity.

Lemma settled_invoke (po : option NodeId) (name : CallbackName) (cb : option Callback)
    (args : list Value) :
  keeps (fun w => gesture_settled d0 w /\ placeholder (self w) = po) (invoke name cb args).
Proof.
  unfold invoke. destruct cb; [|beside].
  apply keeps_bind_any; [beside | intros _; beside].
Qed.

(** A positioning tick keeps the gesture's page, however it ends. *)
Lemma handleDragOver_settled_at `{SelectorEngine} (po : option NodeId) (e : Event) :
  keeps (fun w => gesture_settled d0 w /\ placeholder (self w) = po) (handleDragOver e).
Proof.
  unfold handleDragOver. apply keeps_bind_any; [beside | intros _].
  apply keeps_bind_any; [beside|]. intros d.
  intros w [HG Hpo]. subst po.
  match goal with
  | |- context [bind get_self ?k] =>
      enough (Hk : forall i, keeps (fun w => gesture_settled d0 w
                                             /\ placeholder (self w) = placeholder i) (k i))
        by exact (Hk (self w) w (conj HG eq_refl))
  end.
  clear w HG. intros i. cbv beta.
  apply keeps_bind_any; [beside|]. intros [below|]; [|beside].
  destruct (_ || _); [beside|].
  apply keeps_bind_any; [apply settled_positionPlaceholder | intros _].
  apply keeps_bind_any; [beside | intros _].
  apply keeps_bind_any; [beside|]. intros d'.
  apply keeps_bind_any; [destruct (placeholder i); beside|]. intros pos.
  apply keeps_bind_any.
  { destruct (dragCallbackDue i below (mouseDirection i e)); [|beside].
    apply keeps_bind_any; [apply settled_invoke | intros _; beside]. }
  intros _. apply keeps_bind_any; [beside | intros _; beside].
Qed.

Lemma handleDragOver_settled `{SelectorEngine} (e : Event) :
  keeps (gesture_settled d0) (handleDragOver e).
Proof.
  intros w HG. now apply (handleDragOver_settled_at (placeholder (self w)) e w).
Qed.

Lemma handleDragEnter_settled `{SelectorEngine} (e : Event) :
  keeps (gesture_settled d0) (handleDragEnter e).
Proof.
  intros w HG.
  apply (fun Hk => proj1 (keeps_apply
                            (fun w' => gesture_settled d0 w'
                                       /\ placeholder (self w') = placeholder (self w))
                            (handleDragEnter e) w Hk (conj HG eq_refl))).
  clear HG. generalize (placeholder (self w)) as po. clear w. intros po.
  unfold handleDragEnter. apply keeps_bind_any; [beside | intros _].
  apply keeps_bind_any; [beside|]. intros d.
  apply keeps_bind_any; [beside|]. intros i.
  apply keeps_bind_any; [beside|]. intros ok.
  destruct (negb ok); [beside|].
  apply keeps_bind_any; [beside | intros _; beside].
Qed.

End Settled.

Section Ending.
Variable d0 : Dom.

Lemma idle_aside {A : Type} (m : M A) :
  (forall w, dom (fst (m w)) = dom w
             /\ frames (fst (m w)) = frames w
             /\ (placeholder (self w) = None -> placeholder (self (fst (m w))) = None)) ->
  keeps (idle_page d0) m.
Proof.
  intros Hm w ((Hwf & Hs & Hph & Hfr) & Hst & Hnone & Hnil).
  destruct (Hm w) as (Hd & Hf & Hp). specialize (Hp Hnone).
  unfold idle_page, page_kept, own_fresh. rewrite Hd, Hf, Hp.
  split; [split; [exact Hwf | split; [exact Hs | split; [discriminate | exact Hfr]]]|].
  split; [exact Hst | split; [reflexivity | exact Hnil]].
Qed.

Lemma idle_removeClasses (element : option NodeId) (classes : option string) :
  keeps (idle_page d0) (removeClasses element classes).
Proof.
  intros w Hw.
  apply (decorating_removeClasses d0 0 (is_element (dom w) 0) (self w) element classes w).
  now split.
Qed.

Ltac idle :=
  apply idle_aside; intros ?; repeat split;
  (reflexivity || (let Hn := fresh in intros Hn; (exact Hn || reflexivity))).

Lemma stray_free_taken_out (al : list NodeId) (d : Dom) (n : NodeId) :
  stray_free d0 al (detach d n) -> stray_free d0 al (taken_out d n).
Proof.
  apply stray_free_same_children. intros m _. unfold children_of.
  now rewrite node_at_taken_out.
Qed.

(** The end of a gesture that was not dropped takes the placeholder out:
    nothing of the library's making stays in the page. *)
Lemma handleDragEnd_clears (e : Event) (w : World) :
  gesture_settled d0 w -> idle_page d0 (fst (handleDragEnd e w)).
Proof.
  intros ((Hk & Hst & Hce) & Hnil).
  pose proof (kept_handleDragEnd d0 e w Hk) as Hk'.
  destruct (placeholder (self w)) as [ph|] eqn:Hph.
  - destruct (Hce ph Hph) as (it & Hit & Hel & Hv).
    revert Hk'. rewrite (handleDragEnd_run e w it ph Hit Hel Hv Hph). cbn [fst]. intros Hk'.
    split; [exact Hk' | split; [|split; [reflexivity | exact Hnil]]].
    cbn [dom]. destruct Hk as (Hwf & _).
    apply stray_free_taken_out.
    apply (stray_free_detach_drop d0 [] [ph]).
    + now apply update_node_wf.
    + intros c [<-|[]]. now left.
    + unfold held in Hst. rewrite Hph, Hnil in Hst. revert Hst.
      apply stray_free_same_children. intros m _. now apply update_node_children.
  - assert (Hidle : idle_page d0 w).
    { split; [exact Hk | split; [|split; [exact Hph | exact Hnil]]].
      unfold held in Hst. now rewrite Hph, Hnil in Hst. }
    clear Hk'. unfold handleDragEnd. unfold bind at 1, get_self at 1. cbv beta iota zeta.
    rewrite Hph. revert Hidle. apply (keeps_apply (idle_page d0)).
    apply keeps_bind_any; [apply idle_removeClasses | intros _].
    apply keeps_bind_any; [idle|]. intros d.
    apply keeps_bind_any; [idle | intros _].
    apply keeps_bind_any; [idle | intros _].
    apply keeps_bind_any; [idle | intros _].
    apply keeps_bind_any; [idle | intros _].
    apply keeps_bind_any; [idle | intros _].
    apply keeps_bind_any; [idle | intros _]. idle.
Qed.

(** Between the pickup and the end, the gesture's page is kept. *)
Lemma settled_step `{SelectorEngine} (i : Input) (w : World) :
  moving i = true -> gesture_settled d0 w -> gesture_settled d0 (step w i).
Proof.
  intros Hm HG. destruct i as [t e|]; cbn [step].
  - unfold dispatch. destruct (existsb _ _); [|exact HG].
    destruct t; try discriminate; cbn [handler].
    + now apply handleDragOver_settled.
    + now apply handleDragEnter_settled.
  - unfold animationFrame. destruct HG as [HG Hnil]. rewrite Hnil. now split.
Qed.

Lemma settled_run `{SelectorEngine} (inputs : list Input) (w : World) :
  forallb moving inputs = true -> gesture_settled d0 w -> gesture_settled d0 (run inputs w).
Proof.
  revert w. induction inputs as [|i r IH]; intros w Hm HG; [exact HG|].
  cbn [forallb] in Hm. apply andb_true_iff in Hm as [Hi Hr].
  unfold run. cbn [fold_left]. apply IH; [exact Hr | now apply settled_step].
Qed.

End Ending.

(** X11: a gesture that is not dropped leaves no trace in the page. On a
    well formed page with no gesture under way, take a pickup, the
    animation frame that follows it, any number of positioning ticks, drag
    enters and further frames, and then [handleDragEnd]: whichever of the
    handlers return or throw, every node of the page has the child list and
    the parent it had before the pickup, so the placeholder and the drag
    image are out of the page again. *)
Theorem cancelled_gesture_restores_page `{SelectorEngine} (w : World) (e0 e1 : Event)
    (between : list Input) :
  wf_dom (dom w) = true ->
  placeholder (self w) = None ->
  frames w = [] ->
  forallb moving between = true ->
  forall n, n < length (nodes (dom w)) ->
    children_of
      (dom (fst (handleDragEnd e1 (run (Deliver dragstart e0 :: Frame :: between) w)))) n
    = children_of (dom w) n
    /\ parent_of
         (dom (fst (handleDragEnd e1 (run (Deliver dragstart e0 :: Frame :: between) w)))) n
       = parent_of (dom w) n.
Proof.
  intros Hwf Hph Hfr Hmoving n Hn.
  assert (Hidle : idle_page (dom w) w).
  { split; [split; [exact Hwf | split; [now apply same_order_start | split]]|].
    - intros ph Hp. congruence.
    - intros f Hf. rewrite Hfr in Hf. destruct Hf.
    - split; [now apply stray_free_start | now split]. }
  set (w1 := step w (Deliver dragstart e0)).
  assert (H1 : after_pickup (dom w) w1).
  { unfold w1. cbn [step]. unfold dispatch. destruct (existsb _ _); cbn [handler fst];
      [now apply handleDragStart_picks | now apply idle_gesture_page]. }
  set (w2 := step w1 Frame).
  assert (H2 : gesture_settled (dom w) w2) by now apply animationFrame_settles.
  assert (H3 : gesture_settled (dom w) (run between w2)) by now apply settled_run.
  change (run (Deliver dragstart e0 :: Frame :: between) w) with (run between w2).
  destruct (handleDragEnd_clears (dom w) e1 _ H3) as ((_ & Hs & _) & Hst & _).
  now apply stray_free_same_order.
Qed.

Lemma cancelled_gesture_restores_page_witness :
  children_of
    (dom (fst (handleDragEnd (mkEvent 5 30)
                 (run [Deliver dragstart (mkEvent 5 10); Frame;
                       Deliver dragover (mkEvent 9 30); Deliver dragenter (mkEvent 7 20)]
                      Examples.scoped_list))))
    4
  = children_of (dom Examples.scoped_list) 4
  /\ parent_of
       (dom (fst (handleDragEnd (mkEvent 5 30)
                    (run [Deliver dragstart (mkEvent 5 10); Frame;
                          Deliver dragover (mkEvent 9 30); Deliver dragenter (mkEvent 7 20)]
                         Examples.scoped_list))))
       4
     = parent_of (dom Examples.scoped_list) 4.
Proof.
  apply (cancelled_gesture_restores_page (H := BasicSelectors.engine) Examples.scoped_list
           (mkEvent 5 10) (mkEvent 5 30)
           [Deliver dragover (mkEvent 9 30); Deliver dragenter (mkEvent 7 20)]).
  - vm_compute. reflexivity.
  - vm_compute. reflexivity.
  - vm_compute. reflexivity.
  - vm_compute. reflexivity.
  - vm_compute. lia.
Defined.

(** ** The placeholder *)

Lemma grown_nil (d : Dom) : grown d [] = d.
Proof. destruct d. unfold grown. simpl. now rewrite app_nil_r. Qed.

Lemma add_node_grown (x : Node) (d : Dom) (xs : list Node) :
  add_node x (grown d xs) = grown d (xs ++ [x]).
Proof. unfold add_node, grown. simpl. now rewrite app_assoc. Qed.

Lemma fresh_id_grown (d : Dom) (xs : list Node) :
  fresh_id (grown d xs) = length (nodes d) + length xs.
Proof. unfold fresh_id, grown. simpl. apply length_app. Qed.

Lemma node_at_grown_new (d : Dom) (xs : list Node) (j : nat) :
  node_at (grown d xs) (length (nodes d) + j) = xs !! j.
Proof.
  unfold node_at, grown. simpl. rewrite lookup_app_r by lia.
  f_equal. lia.
Qed.

Lemma node_at_grown_old (d : Dom) (xs : list Node) (m : NodeId) :
  m < length (nodes d) -> node_at (grown d xs) m = node_at d m.
Proof. intros Hm. unfold node_at, grown. simpl. now apply lookup_app_l. Qed.

Lemma update_node_grown (f : Node -> Node) (d : Dom) (xs : list Node) (j : nat) :
  update_node f (length (nodes d) + j) (grown d xs) = grown d (alter f j xs).
Proof.
  unfold update_node, grown. simpl. now rewrite alter_app_r.
Qed.

Lemma on_dom_returns (f : Dom -> Result Dom) (w : World) (d' : Dom) :
  f (dom w) = Ok d' -> on_dom f w = (with_dom d' w, Ok tt).
Proof. intros Hf. unfold on_dom, bind, get_dom, lift, put_dom. now rewrite Hf. Qed.

Lemma ancestors_parentless (d : Dom) (n : NodeId) :
  parent_of d n = None -> ancestors d n = [].
Proof. intros Hp. unfold ancestors. destruct (length (nodes d)); simpl; [|rewrite Hp]; reflexivity. Qed.

(** Appending a parentless node to a childless element. *)
Lemma appendChild_fresh (d : Dom) (par n : NodeId) :
  is_element d par = true -> kind_of d n <> None -> kind_of d n <> Some DocumentNode ->
  parent_of d par = None -> parent_of d n = None -> par <> n ->
  appendChild d par (Some n)
  = Ok (recorded (Inserted par n None)
          (set_parent n (Some par) (set_children par (children_of d par ++ [n]) d))).
Proof.
  intros Hpar Hk Hdoc Hpp Hpn Hne. unfold appendChild, insertBefore.
  assert (Hkp : kind_of d par = Some ElementNode).
  { unfold is_element, kind_of in *. destruct (node_at d par) as [x|]; [|discriminate].
    simpl. now destruct (nodeKind x). }
  rewrite Hkp.
  assert (Hc : contains d n par = false).
  { apply contains_false. split; [congruence|]. now rewrite ancestors_parentless. }
  rewrite Hc. unfold detach. rewrite Hpn. cbn [option_node_eqb].
  destruct (kind_of d n) as [[]|]; try congruence; reflexivity.
Qed.

Lemma update_node_recorded (f : Node -> Node) (n : NodeId) (m : Mutation) (d : Dom) :
  update_node f n (recorded m d) = recorded m (update_node f n d).
Proof. reflexivity. Qed.

Lemma node_at_grown_first (d : Dom) (xs : list Node) :
  node_at (grown d xs) (length (nodes d)) = xs !! 0.
Proof. rewrite <- (Nat.add_0_r (length (nodes d))) at 1. apply node_at_grown_new. Qed.

Lemma update_node_grown_first (f : Node -> Node) (d : Dom) (xs : list Node) :
  update_node f (length (nodes d)) (grown d xs) = grown d (alter f 0 xs).
Proof. rewrite <- (Nat.add_0_r (length (nodes d))) at 1. apply update_node_grown. Qed.

Lemma add_node_start (x : Node) (d : Dom) : add_node x d = grown d [x].
Proof. reflexivity. Qed.

Lemma grown_grown (d : Dom) (xs ys : list Node) : grown (grown d xs) ys = grown d (xs ++ ys).
Proof. unfold grown. simpl. now rewrite app_assoc. Qed.

Lemma is_element_grown_old (d : Dom) (xs : list Node) (m : NodeId) :
  m < length (nodes d) -> is_element (grown d xs) m = is_element d m.
Proof. intros Hm. unfold is_element. now rewrite node_at_grown_old. Qed.

Lemma is_element_lt (d : Dom) (n : NodeId) :
  is_element d n = true -> n < length (nodes d).
Proof.
  intros Hel. apply node_at_lt. unfold is_element in Hel. destruct (node_at d n); congruence.
Qed.

(** The nodes created after a well formed page do not count among the
    element children of its nodes. *)
Lemma element_child_count_grown (d : Dom) (xs : list Node) (n : NodeId) :
  wf_dom d = true -> is_element d n = true ->
  element_child_count (grown d xs) n = element_child_count d n.
Proof.
  intros Hwf Hel. unfold element_child_count.
  assert (Hc : children_of (grown d xs) n = children_of d n).
  { unfold children_of. rewrite node_at_grown_old; [reflexivity | now apply is_element_lt]. }
  rewrite Hc. f_equal.
  assert (Hin : forall c, In c (children_of d n) -> c < length (nodes d)).
  { intros c Hcin. destruct (wf_children d n c Hwf Hcin) as [Hp _].
    apply node_at_lt. now apply (parent_of_node d c n). }
  revert Hin. generalize (children_of d n) as l. intros l.
  induction l as [|c r IH]; intros Hin; [reflexivity|].
  rewrite !filter_cons. rewrite (is_element_grown_old d xs c) by (apply Hin; now left).
  rewrite IH by (intros c' Hc'; apply Hin; now right). reflexivity.
Qed.

Lemma bind_assoc_at {A B C : Type} (m : M A) (f : A -> M B) (g : B -> M C) (w : World) :
  bind (bind m f) g w = bind m (fun x => bind (f x) g) w.
Proof. unfold bind. now destruct (m w) as [w' [a|err]]. Qed.

Lemma bind_get_dom {B : Type} (k : Dom -> M B) (w : World) :
  bind get_dom k w = k (dom w) w.
Proof. reflexivity. Qed.

Lemma bind_get_self {B : Type} (k : Instance -> M B) (w : World) :
  bind get_self k w = k (self w) w.
Proof. reflexivity. Qed.

Lemma bind_put_dom {B : Type} (d : Dom) (k : unit -> M B) (w : World) :
  bind (put_dom d) k w = k tt (with_dom d w).
Proof. reflexivity. Qed.

Lemma bind_modify_self {B : Type} (f : Instance -> Instance) (k : unit -> M B) (w : World) :
  bind (modify_self f) k w
  = k tt (mkWorld (dom w) (f (self w)) (effects w) (listeners w) (frames w)).
Proof. reflexivity. Qed.

Lemma bind_ret {A B : Type} (a : A) (k : A -> M B) (w : World) : bind (ret a) k w = k a w.
Proof. reflexivity. Qed.

Lemma bind_on_dom {B : Type} (f : Dom -> Result Dom) (k : unit -> M B) (w : World) (d' : Dom) :
  f (dom w) = Ok d' -> bind (on_dom f) k w = k tt (with_dom d' w).
Proof. intros Hf. unfold bind at 1. now rewrite (on_dom_returns f w d' Hf). Qed.

Ltac tidy :=
  unfold with_dom;
  cbn [dom self effects listeners frames alter list_alter app length
       with_attributes with_classList with_parentNode with_childNodes assoc_set
       nodeKind tagName interface href idAttr classList dataset attributes style textData
       offsetWidth offsetHeight parentNode childNodes].

Ltac look :=
  unfold is_element, kind_of, parent_of, children_of, classes_of;
  rewrite ?node_at_recorded, ?node_at_grown_new, ?node_at_grown_first;
  cbn [lookup list_lookup fmap option_fmap option_map nodeKind parentNode childNodes
       classList].

Ltac regrow :=
  repeat first [rewrite update_node_recorded
               | rewrite update_node_grown
               | rewrite update_node_grown_first].

Ltac append_fresh :=
  cbn [dom]; rewrite appendChild_fresh;
  [unfold set_parent, set_children; look; regrow; reflexivity
  |look; try reflexivity; try discriminate; try lia ..].

Ltac add_class Hc :=
  cbn [dom]; rewrite classList_add_valid; [|look; reflexivity | exact Hc];
  look; regrow; reflexivity.

Lemma createPlaceholder_run_row (w : World) (it : NodeId) :
  wf_dom (dom w) = true ->
  tagNameCopy (self w) = Some "TR" ->
  draggedItem (self w) = Some it -> is_element (dom w) it = true ->
  placeholder_classes_valid (self w) = true ->
  createPlaceholder w
  = (mkWorld
       (recorded (Inserted (length (nodes (dom w))) (length (nodes (dom w)) + 1) None)
          (recorded (Inserted (length (nodes (dom w)) + 1) (length (nodes (dom w)) + 2) None)
             (grown (dom w)
                [mkNode ElementNode "TR" (HTMLInterface "TableRow") "" ""
                        (placeholder_classes (self w)) [] [] [] "" 0 0 None
                        [length (nodes (dom w)) + 1];
                 mkNode ElementNode "TD" (HTMLInterface "TableCell") "" "" [] []
                        [("colspan",
                          nat_to_string (match element_child_count (dom w) it with
                                         | 0 => 1
                                         | n => n
                                         end))]
                        [] "" 0 0 (Some (length (nodes (dom w))))
                        [length (nodes (dom w)) + 2];
                 mkNode TextNode "" PlainInterface "" "" [] [] [] [] " " 0 0
                        (Some (length (nodes (dom w)) + 1)) []])))
       (set_placeholder (Some (length (nodes (dom w)))) (self w))
       (effects w) (listeners w) (frames w), Ok tt).
Proof.
  intros Hwf Htag Hit Hel Hv.
  unfold placeholder_classes_valid in Hv.
  apply andb_true_iff in Hv as [Hv Hv3]. apply andb_true_iff in Hv as [Hv1 Hv2].
  unfold createPlaceholder.
  rewrite bind_get_self, bind_get_dom. rewrite Htag, Hit. cbn [as_string option_eqb].
  rewrite String.eqb_refl.
  unfold createElement at 1. cbv beta iota zeta.
  rewrite bind_put_dom, bind_modify_self. tidy.
  rewrite bind_assoc_at, bind_get_dom. cbn [dom].
  unfold createElement at 1. cbv beta iota zeta.
  rewrite bind_assoc_at, bind_put_dom. tidy.
  rewrite !add_node_start, ?grown_grown, fresh_id_grown. cbn [app length].
  unfold fresh_id.
  rewrite bind_assoc_at.
  rewrite (is_element_grown_old _ _ it (is_element_lt _ _ Hel)), Hel.
  rewrite bind_ret, (element_child_count_grown _ _ it Hwf Hel).
  change (toUpperCase "TR") with "TR". change (toUpperCase "td") with "TD".
  change (interface_of_tag "TR") with (HTMLInterface "TableRow").
  change (interface_of_tag "TD") with (HTMLInterface "TableCell").
  set (cols := nat_to_string _).
  rewrite bind_assoc_at.
  erewrite bind_on_dom;
    [|cbn [dom]; unfold setAttribute; look; rewrite update_node_grown; reflexivity].
  tidy.
  rewrite bind_assoc_at, bind_get_dom. cbn [dom].
  unfold createTextNode at 1. cbv beta iota zeta.
  rewrite add_node_grown, fresh_id_grown. cbn [app length].
  rewrite bind_assoc_at, bind_put_dom. tidy.
  rewrite bind_assoc_at.
  erewrite bind_on_dom; [|append_fresh]. tidy.
  erewrite bind_on_dom; [|append_fresh]. tidy.
  erewrite bind_on_dom; [|add_class Hv1]. tidy.
  erewrite bind_on_dom; [|add_class Hv2]. tidy.
  unfold placeholder_classes.
  destruct (dropIndicator (options (self w))).
  - erewrite on_dom_returns; [|add_class Hv3]. tidy. reflexivity.
  - reflexivity.
Qed.

Lemma createPlaceholder_run_plain (w : World) (tag : string) :
  tagNameCopy (self w) = Some tag ->
  String.eqb tag "TR" = false ->
  placeholder_classes_valid (self w) = true ->
  createPlaceholder w
  = (mkWorld
       (grown (dom w)
          [mkNode ElementNode (toUpperCase tag) (interface_of_tag (toUpperCase tag)) "" ""
                  (placeholder_classes (self w)) [] [] [] "" 0 0 None []])
       (set_placeholder (Some (length (nodes (dom w)))) (self w))
       (effects w) (listeners w) (frames w), Ok tt).
Proof.
  intros Htag Hrow Hv.
  unfold placeholder_classes_valid in Hv.
  apply andb_true_iff in Hv as [Hv Hv3]. apply andb_true_iff in Hv as [Hv1 Hv2].
  unfold createPlaceholder.
  rewrite bind_get_self, bind_get_dom. rewrite Htag. cbn [as_string option_eqb].
  rewrite Hrow.
  unfold createElement at 1. cbv beta iota zeta.
  rewrite bind_put_dom, bind_modify_self. tidy.
  rewrite bind_ret. rewrite add_node_start. unfold fresh_id.
  erewrite bind_on_dom; [|add_class Hv1]. tidy.
  erewrite bind_on_dom; [|add_class Hv2]. tidy.
  unfold placeholder_classes.
  destruct (dropIndicator (options (self w))).
  - erewrite on_dom_returns; [|add_class Hv3]. tidy. reflexivity.
  - reflexivity.
Qed.

(** X12: the placeholder [createPlaceholder] builds.  With valid class
    tokens it returns; the placeholder is a new element of the recorded
    tag name, outside the page (it has no parent), carrying the
    placeholder class, the instance marker and, if [dropIndicator] is on,
    the drop indicator class; no node of the page changes.  For a table
    row it holds one cell whose [colspan] is the number of element
    children of the dragged row, or 1 if it has none, and the cell holds
    one space; for any other tag it is empty. *)
Theorem createPlaceholder_builds (w : World) (tag : string) (it : NodeId) :
  wf_dom (dom w) = true ->
  tagNameCopy (self w) = Some tag ->
  draggedItem (self w) = Some it ->
  is_element (dom w) it = true ->
  placeholder_classes_valid (self w) = true ->
  let ph := length (nodes (dom w)) in
  let w' := fst (createPlaceholder w) in
  snd (createPlaceholder w) = Ok tt
  /\ placeholder (self w') = Some ph
  /\ (forall n, n < ph -> node_at (dom w') n = node_at (dom w) n)
  /\ is_element (dom w') ph = true
  /\ (tagName <$> node_at (dom w') ph) = Some (toUpperCase tag)
  /\ parent_of (dom w') ph = None
  /\ classes_of (dom w') ph = placeholder_classes (self w)
  /\ if String.eqb tag "TR"
     then children_of (dom w') ph = [ph + 1]
          /\ is_element (dom w') (ph + 1) = true
          /\ (tagName <$> node_at (dom w') (ph + 1)) = Some "TD"
          /\ (attributes <$> node_at (dom w') (ph + 1))
             = Some [("colspan",
                      nat_to_string (match element_child_count (dom w) it with
                                     | 0 => 1
                                     | n => n
                                     end))]
          /\ children_of (dom w') (ph + 1) = [ph + 2]
          /\ (textData <$> node_at (dom w') (ph + 2)) = Some " "
          /\ kind_of (dom w') (ph + 2) = Some TextNode
          /\ children_of (dom w') (ph + 2) = []
     else children_of (dom w') ph = [].
Proof.
  intros Hwf Htag Hit Hel Hv ph w'.
  destruct (String.eqb tag "TR") eqn:Hrow.
  - apply String.eqb_eq in Hrow. subst tag.
    unfold w'. rewrite (createPlaceholder_run_row w it Hwf Htag Hit Hel Hv).
    cbn [fst snd dom self]. fold ph.
    split; [reflexivity|]. split; [reflexivity|].
    split; [intros n Hn; now apply node_at_grown_old|].
    unfold ph. look. cbn [fmap option_fmap option_map attributes textData tagName].
    repeat split; reflexivity.
  - unfold w'. rewrite (createPlaceholder_run_plain w tag Htag Hrow Hv).
    cbn [fst snd dom self]. fold ph.
    split; [reflexivity|]. split; [reflexivity|].
    split; [intros n Hn; now apply node_at_grown_old|].
    unfold ph. look. cbn [fmap option_fmap option_map tagName].
    repeat split; reflexivity.
Qed.

Lemma createPlaceholder_builds_witness :
  (attributes
     <$> node_at
           (dom (fst (createPlaceholder
                        (mkWorld (dom Examples.scoped_table)
                                 (set_tagNameCopy (Some "TR")
                                    (set_draggedItem (Some 6) (self Examples.scoped_table)))
                                 [] [] []))))
           9)
  = Some [("colspan", "1")].
Proof.
  pose proof (createPlaceholder_builds
                (mkWorld (dom Examples.scoped_table)
                         (set_tagNameCopy (Some "TR")
                            (set_draggedItem (Some 6) (self Examples.scoped_table)))
                         [] [] [])
                "TR" 6) as T.
  cbv zeta in T.
  assert (H1 : wf_dom (dom Examples.scoped_table) = true) by (vm_compute; reflexivity).
  assert (H2 : is_element (dom Examples.scoped_table) 6 = true) by (vm_compute; reflexivity).
  assert (H3 : placeholder_classes_valid
                 (set_tagNameCopy (Some "TR")
                    (set_draggedItem (Some 6) (self Examples.scoped_table))) = true)
    by (vm_compute; reflexivity).
  destruct (T H1 eq_refl eq_refl H2 H3) as (_ & _ & _ & _ & _ & _ & _ & T8).
  destruct T8 as (_ & _ & _ & T4 & _).
  assert (Hlen : length (nodes (dom Examples.scoped_table)) + 1 = 9) by (vm_compute; reflexivity).
  assert (Hcount : element_child_count (dom Examples.scoped_table) 6 = 1)
    by (vm_compute; reflexivity).
  cbn [dom] in T4. rewrite Hlen, Hcount in T4. exact T4.
Defined.

(** ** The pickup callback *)

Lemma siblings_same_tree (d d' : Dom) (n : NodeId) :
  (forall m, parent_of d' m = parent_of d m) ->
  (forall m, children_of d' m = children_of d m) ->
  (forall m, is_element d' m = is_element d m) ->
  previousElementSibling d' n = previousElementSibling d n
  /\ nextElementSibling d' n = nextElementSibling d n.
Proof.
  intros Hp Hc He.
  assert (Hext : forall l, find (is_element d') l = find (is_element d) l).
  { induction l as [|a r IH]; [reflexivity|]. simpl. now rewrite He, IH. }
  unfold previousElementSibling, nextElementSibling, preceding_siblings, following_siblings.
  rewrite Hp. destruct (parent_of d n); [|now split]. rewrite Hc. now rewrite !Hext.
Qed.

Lemma siblings_relabelled (l : list string) (t : NodeId) (d : Dom) (n : NodeId) :
  previousElementSibling (update_node (with_classList l) t d) n = previousElementSibling d n
  /\ nextElementSibling (update_node (with_classList l) t d) n = nextElementSibling d n.
Proof.
  apply siblings_same_tree; intros m;
    [now apply update_node_parent | now apply update_node_children
    | now apply is_element_update].
Qed.

Section Picked.
Variables (t : NodeId) (tag : string) (data : DataRecord) (l : list (list Value)).

Lemma picked_aside {A : Type} (m : M A) :
  (forall w, calls CbPickup (effects (fst (m w))) = calls CbPickup (effects w)
             /\ draggedItem (self (fst (m w))) = draggedItem (self w)
             /\ draggedItemData (self (fst (m w))) = draggedItemData (self w)
             /\ tagNameCopy (self (fst (m w))) = tagNameCopy (self w)) ->
  keeps (picked t tag data l) m.
Proof.
  intros Hm w. destruct (Hm w) as (Hc & Hi & Hd & Ht). unfold picked.
  now rewrite Hc, Hi, Hd, Ht.
Qed.

Lemma picked_on_dom (f : Dom -> Result Dom) : keeps (picked t tag data l) (on_dom f).
Proof.
  apply picked_aside. intros w. unfold on_dom, bind, get_dom, lift, put_dom.
  destruct (f (dom w)); repeat split; reflexivity.
Qed.

Ltac apart := apply picked_aside; intros ?; repeat split; reflexivity.

Lemma picked_createPlaceholder : keeps (picked t tag data l) createPlaceholder.
Proof.
  unfold createPlaceholder. apply keeps_bind_any; [apart|]. intros i.
  apply keeps_bind_any; [apart|]. intros d.
  destruct (createElement d (as_string (tagNameCopy i))) as [d1 ph].
  apply keeps_bind_any; [apart | intros _].
  apply keeps_bind_any; [apart | intros _].
  apply keeps_bind_any.
  { destruct (option_eqb String.eqb (tagNameCopy i) (Some "TR")); [|apart].
    apply keeps_bind_any; [apart|]. intros d'.
    destruct (createElement d' "td") as [d2 td].
    apply keeps_bind_any; [apart | intros _].
    apply keeps_bind_any.
    { destruct (draggedItem i) as [it|]; [|apart]. destruct (is_element d2 it); apart. }
    intros colCount.
    apply keeps_bind_any; [apply picked_on_dom | intros _].
    apply keeps_bind_any; [apart|]. intros d''.
    destruct (createTextNode d'' " ") as [d3 txt].
    apply keeps_bind_any; [apart | intros _].
    apply keeps_bind_any; [apply picked_on_dom | intros _]. apply picked_on_dom. }
  intros _.
  apply keeps_bind_any; [apply picked_on_dom | intros _].
  apply keeps_bind_any; [apply picked_on_dom | intros _].
  destruct (dropIndicator (options i)); [apply picked_on_dom | apart].
Qed.

Lemma picked_setCustomDragImage (e : Event) : keeps (picked t tag data l) (setCustomDragImage e).
Proof.
  unfold setCustomDragImage. apply keeps_bind_any; [apart|]. intros i.
  apply keeps_bind_any; [apart|]. intros d.
  destruct (draggedItem i) as [it|]; [|apart].
  destruct (cloneNode d it) as [d1 [dragImage|]]; [|apart].
  apply keeps_bind_any; [apart | intros _].
  apply keeps_bind_any; [apply picked_on_dom | intros _].
  apply keeps_bind_any; [apply picked_on_dom | intros _].
  apply keeps_bind_any; [apply picked_on_dom | intros _].
  apply keeps_bind_any; [apply picked_on_dom | intros _].
  apply keeps_bind_any; [apart|]. intros d'.
  destruct (body d') as [b|]; [|apart].
  apply keeps_bind_any; [apply picked_on_dom | intros _].
  apply keeps_bind_any; [|intros _; apart].
  apply picked_aside. intros w. unfold emit. cbn [fst effects self].
  rewrite calls_app. cbn [calls flat_map]. rewrite app_nil_r. now repeat split.
Qed.

End Picked.

(** X13: a pickup that gets through.  When the target is draggable, its
    tag can be sorted, its data can be read and the pickup class strings
    are made of valid tokens, [handleDragStart] calls [pickup], if
    configured, exactly once, with the element, the data read from it and
    its previous and next element siblings in the page as it was; and,
    however the making of the placeholder and of the drag image ends, the
    instance records the element, its tag name and that data. *)
Theorem pickup_reports_element `{SelectorEngine} (e : Event) (w : World) (tag : string)
    (data : DataRecord) :
  isDraggable (dom w) (self w) (target e) = Ok true ->
  tagName_upper (dom w) (target e) = Ok tag ->
  isValidSortableElement tag = true ->
  getItemData (dom w) (self w) (target e) = Ok data ->
  forallb valid_token (class_tokens (pickup_addClass (pickup (options (self w))))) = true ->
  forallb valid_token (class_tokens (pickup_removeClass (pickup (options (self w))))) = true ->
  let w' := fst (handleDragStart e w) in
  calls CbPickup (effects w')
  = calls CbPickup (effects w)
    ++ match cb_pickup (callbacks (options (self w))) with
       | Some _ =>
           [[VNode (target e); VData data;
             node_or_null (previousElementSibling (dom w) (target e));
             node_or_null (nextElementSibling (dom w) (target e))]]
       | None => []
       end
  /\ draggedItem (self w') = Some (target e)
  /\ draggedItemData (self w') = Some data
  /\ tagNameCopy (self w') = Some tag.
Proof.
  intros Hok Htag Hvalid Hdata Hadd Hrem w'.
  pose proof (tagName_upper_element _ _ _ Htag) as Hel.
  enough (Hp : picked (target e) tag data
                 (calls CbPickup (effects w)
                    ++ match cb_pickup (callbacks (options (self w))) with
                       | Some _ =>
                           [[VNode (target e); VData data;
                             node_or_null (previousElementSibling (dom w) (target e));
                             node_or_null (nextElementSibling (dom w) (target e))]]
                       | None => []
                       end) w') by exact Hp.
  unfold w', handleDragStart.
  rewrite bind_get_dom, bind_get_self.
  unfold bind at 1, lift at 1. rewrite Hok. cbn [negb].
  rewrite bind_modify_self.
  unfold bind at 1, lift at 1. cbn [dom]. rewrite Htag.
  rewrite bind_modify_self. rewrite Hvalid. cbn [negb dom self effects listeners frames].
  unfold bind at 1, lift at 1. rewrite Hdata.
  rewrite bind_modify_self. cbn [dom self effects listeners frames].
  set (i := set_draggedItemData _ _).
  unfold bind at 1.
  destruct (addClasses_run (target e) (pickup_addClass (pickup (options (self w))))
              (mkWorld (dom w) i (effects w) (listeners w) (frames w)) Hel) as [Hrun _].
  rewrite (Hrun Hadd). clear Hrun. unfold with_dom. cbn [dom self effects listeners frames].
  set (d1 := update_node _ (target e) (dom w)).
  assert (Hel1 : is_element d1 (target e) = true).
  { unfold d1. now rewrite is_element_update. }
  assert (Hsib1 : previousElementSibling d1 (target e)
                  = previousElementSibling (dom w) (target e)
                  /\ nextElementSibling d1 (target e) = nextElementSibling (dom w) (target e))
    by apply siblings_relabelled.
  unfold bind at 1.
  destruct (removeClasses_run (target e) (pickup_removeClass (pickup (options (self w))))
              (mkWorld d1 i (effects w) (listeners w) (frames w)) Hel1) as [Hrun _].
  rewrite (Hrun Hrem). clear Hrun. unfold with_dom. cbn [dom self effects listeners frames].
  set (d2 := update_node _ (target e) d1).
  assert (Hsib2 : previousElementSibling d2 (target e) = previousElementSibling d1 (target e)
                  /\ nextElementSibling d2 (target e) = nextElementSibling d1 (target e))
    by apply siblings_relabelled.
  rewrite bind_get_dom. cbn [dom].
  destruct Hsib2 as [-> ->]. destruct Hsib1 as [-> ->].
  unfold invoke. destruct (cb_pickup (callbacks (options (self w)))) as [f|].
  - rewrite bind_assoc_at. unfold bind at 1, emit at 1. rewrite bind_ret.
    cbn [dom self effects listeners frames].
    apply (keeps_apply (picked _ _ _ _)).
    + apply keeps_bind_any; [apply picked_createPlaceholder | intros _].
      apply picked_setCustomDragImage.
    + unfold picked. cbn [effects self]. rewrite calls_app. now repeat split.
  - rewrite bind_ret. apply (keeps_apply (picked _ _ _ _)).
    + apply keeps_bind_any; [apply picked_createPlaceholder | intros _].
      apply picked_setCustomDragImage.
    + unfold picked. cbn [effects self]. rewrite app_nil_r. now repeat split.
Qed.

Lemma pickup_reports_element_witness :
  calls CbPickup (effects (fst (handleDragStart (mkEvent 7 10) Examples.scoped_list)))
  = [[VNode 7; VData [("id", DataString "2"); ("sort", DataUndefined)]; VNode 5; VNode 9]].
Proof.
  pose proof (pickup_reports_element (H := BasicSelectors.engine) (mkEvent 7 10)
                Examples.scoped_list "LI"
                [("id", DataString "2"); ("sort", DataUndefined)]) as T.
  cbv zeta in T.
  assert (H1 : isDraggable (dom Examples.scoped_list) (self Examples.scoped_list)
                 (target (mkEvent 7 10)) = Ok true) by (vm_compute; reflexivity).
  assert (H2 : tagName_upper (dom Examples.scoped_list) (target (mkEvent 7 10)) = Ok "LI")
    by (vm_compute; reflexivity).
  assert (H3 : isValidSortableElement "LI" = true) by (vm_compute; reflexivity).
  assert (H4 : getItemData (dom Examples.scoped_list) (self Examples.scoped_list)
                 (target (mkEvent 7 10))
               = Ok [("id", DataString "2"); ("sort", DataUndefined)])
    by (vm_compute; reflexivity).
  assert (H5 : forallb valid_token
                 (class_tokens
                    (pickup_addClass (pickup (options (self Examples.scoped_list))))) = true)
    by (vm_compute; reflexivity).
  assert (H6 : forallb valid_token
                 (class_tokens
                    (pickup_removeClass (pickup (options (self Examples.scoped_list))))) = true)
    by (vm_compute; reflexivity).
  destruct (T H1 H2 H3 H4 H5 H6) as [T1 _].
  rewrite T1. vm_compute. reflexivity.
Defined.
